(** * graphspec: textual graph definitions turned into Graphviz documents

    A shallow embedding of [graphspec.py]: the statement scanner (the
    pyparsing grammar and [search_for_statements]), the [Graph] builder
    ([include_statement] and its handlers) and the renderer ([render_dot],
    [render_subgraph], [render_node], [should_include_node]), together with
    the parts of the networkx [DiGraph] the program calls.

    Conventions of the embedding.
    - Python text is a [string]; its characters are the code points below
      256.
    - A Python dict is an association list that keeps the order of
      insertion, and iterating over a dict follows that order. The order
      shows in the text of a document only; no property below depends on
      it otherwise.
    - A Python set is a list; the loops over a set meet every member
      once.
    - A method of [Graph] is a function from the object state to a result
      and the state it leaves behind, so that what an exception leaves
      mutated stays visible.
    - Exceptions are the constructors of [exn]. The [ValueError] of the
      two checks is what the specification calls [ConfigurationError]
      (builder) and [StructureError] (renderer).
    - Recursion in the source that may not end ([render_subgraph] on a
      cycle of clusters) takes the depth the interpreter allows as an
      argument and raises [RecursionError] beyond it; the loops of the
      libraries, which always end, are given the number of rounds that the
      size of their input bounds. *)

From Stdlib Require Import Strings.String Strings.Ascii Lists.List Bool.Bool.
From Stdlib Require Import Arith.Arith ZArith.ZArith Lia.
Import ListNotations.
Local Open Scope list_scope.
Local Open Scope string_scope.

(* ===================================================================== *)
(** ** Text *)
(* ===================================================================== *)

Module Text.

Definition chr (n : nat) : ascii := ascii_of_nat n.

(** The double quote, line feed and backslash, by code point. *)
Definition dquote : ascii := chr 34.
Definition newline : ascii := chr 10.
Definition backslash : ascii := chr 92.

Definition q : string := String dquote EmptyString.
Definition nl : string := String newline EmptyString.

(** Truth value of a Python string: non-empty. *)
Definition nonempty (s : string) : bool :=
  match s with EmptyString => false | String _ _ => true end.

(** [d.get(key)] used as a condition: present and non-empty. *)
Definition truthy (o : option string) : option string :=
  match o with
  | Some s => if nonempty s then Some s else None
  | None => None
  end.

(** [unicode.isspace] on the code points below 256. *)
Definition py_isspace (c : ascii) : bool :=
  let n := nat_of_ascii c in
  (((9 <=? n) && (n <=? 13)) || ((28 <=? n) && (n <=? 32))
   || (n =? 133) || (n =? 160))%nat.

Fixpoint lstrip (s : string) : string :=
  match s with
  | EmptyString => EmptyString
  | String c r => if py_isspace c then lstrip r else s
  end.

Fixpoint rstrip (s : string) : string :=
  match s with
  | EmptyString => EmptyString
  | String c r =>
      match rstrip r with
      | EmptyString => if py_isspace c then EmptyString else String c EmptyString
      | r' => String c r'
      end
  end.

(** [s.strip()] *)
Definition strip (s : string) : string := lstrip (rstrip s).

(** [s.split(sep)] for a one-character separator. *)
Fixpoint split (sep : ascii) (s : string) : list string :=
  match s with
  | EmptyString => [EmptyString]
  | String c r =>
      if Ascii.eqb c sep then EmptyString :: split sep r
      else match split sep r with
           | h :: t => String c h :: t
           | [] => [String c EmptyString]
           end
  end.

(** [sep.join(l)] *)
Fixpoint join (sep : string) (l : list string) : string :=
  match l with
  | [] => EmptyString
  | [x] => x
  | x :: r => x ++ sep ++ join sep r
  end.

(** [s.replace(a, b)] for one-character [a] and [b]. *)
Fixpoint replace (a b : ascii) (s : string) : string :=
  match s with
  | EmptyString => EmptyString
  | String c r => String (if Ascii.eqb c a then b else c) (replace a b r)
  end.

(** [re.split(' *, *', s)]: a separator is a comma with the spaces around
    it; a run of spaces not followed by a comma stays in the piece. *)
Fixpoint drop_spaces (s : string) : string :=
  match s with
  | String " " r => drop_spaces r
  | _ => s
  end.

Fixpoint after_spaces_comma (s : string) : option string :=
  match s with
  | String " " r => after_spaces_comma r
  | String "," r => Some (drop_spaces r)
  | _ => None
  end.

Fixpoint re_split_comma_fuel (fuel : nat) (piece s : string) : list string :=
  match fuel with
  | O => [piece]
  | S fuel' =>
      match after_spaces_comma s with
      | Some rest => piece :: re_split_comma_fuel fuel' EmptyString rest
      | None =>
          match s with
          | EmptyString => [piece]
          | String c r =>
              re_split_comma_fuel fuel' (piece ++ String c EmptyString) r
          end
      end
  end.

Definition re_split_comma (s : string) : list string :=
  re_split_comma_fuel (S (String.length s)) EmptyString s.

(** [json.dumps(s)] for a string, with the default [ensure_ascii]: the
    printable ASCII characters stand for themselves, the quote and the
    backslash are escaped, the usual control characters have their short
    escape and every other code point is written [\u00xx]. *)
Definition hex_digit (n : nat) : ascii :=
  nth n ["0"; "1"; "2"; "3"; "4"; "5"; "6"; "7"; "8"; "9";
         "a"; "b"; "c"; "d"; "e"; "f"]%char "0"%char.

Definition json_escape (c : ascii) : string :=
  let n := nat_of_ascii c in
  let bs := String backslash EmptyString in
  if (n =? 34)%nat then bs ++ q
  else if (n =? 92)%nat then bs ++ bs
  else if (n =? 8)%nat then bs ++ "b"
  else if (n =? 12)%nat then bs ++ "f"
  else if (n =? 10)%nat then bs ++ "n"
  else if (n =? 13)%nat then bs ++ "r"
  else if (n =? 9)%nat then bs ++ "t"
  else if ((32 <=? n) && (n <=? 126))%nat then String c EmptyString
  else bs ++ "u00" ++ String (hex_digit (n / 16))
                        (String (hex_digit (n mod 16)) EmptyString).

Fixpoint json_escape_all (s : string) : string :=
  match s with
  | EmptyString => EmptyString
  | String c r => json_escape c ++ json_escape_all r
  end.

Definition json_dumps (s : string) : string := q ++ json_escape_all s ++ q.

End Text.

(* ===================================================================== *)
(** ** Dictionaries *)
(* ===================================================================== *)

Module Dict.

(** The dict type: the items in insertion order. *)
Abbreviation dict V := (list (string * V)).

Section WithValue.
Context {V : Type}.

(** [d.get(k)] *)
Fixpoint get (k : string) (d : dict V) : option V :=
  match d with
  | [] => None
  | (k', v) :: r => if String.eqb k k' then Some v else get k r
  end.

(** [d.get(k, default)] *)
Definition get_default (k : string) (default : V) (d : dict V) : V :=
  match get k d with Some v => v | None => default end.

(** [k in d] *)
Definition mem (k : string) (d : dict V) : bool :=
  match get k d with Some _ => true | None => false end.

(** [d[k] = v]: a present key keeps its place, a new one goes last. *)
Fixpoint set (k : string) (v : V) (d : dict V) : dict V :=
  match d with
  | [] => [(k, v)]
  | (k', v') :: r =>
      if String.eqb k k' then (k, v) :: r else (k', v') :: set k v r
  end.

(** [del d[k]] *)
Fixpoint remove (k : string) (d : dict V) : dict V :=
  match d with
  | [] => []
  | (k', v') :: r =>
      if String.eqb k k' then r else (k', v') :: remove k r
  end.

Definition keys (d : dict V) : list string := map fst d.

End WithValue.

End Dict.

Import Dict.

(** [l.append(x)] and [l.extend(more)] *)
Definition append {A} (l : list A) (x : A) : list A := (l ++ [x])%list.
Definition extend {A} (l more : list A) : list A := (l ++ more)%list.

(** Membership in a list of names, as [x in some_set]. *)
Definition mem_str (x : string) (l : list string) : bool :=
  existsb (String.eqb x) l.

(* ===================================================================== *)
(** ** Exceptions and the state monad of a [Graph] method *)
(* ===================================================================== *)

Inductive exn : Type :=
| ValueError (msg : string)
| KeyError (key : string)
| AttributeError
| NodeNotFound (n : string)
| NetworkXError (n : string)
| NetworkXNoPath
| NetworkXUnfeasible
| NetworkXPointlessConcept
| RuntimeError
| RecursionError.

Inductive result (A : Type) : Type :=
| Ok (a : A)
| Raise (e : exn).

Arguments Ok {A} a.
Arguments Raise {A} e.

(** A computation over a state [S]: its outcome and the state it leaves,
    also when it raises. *)
Definition M (S A : Type) : Type := S -> result A * S.

Definition ret {S A} (a : A) : M S A := fun s => (Ok a, s).

Definition raise {S A} (e : exn) : M S A := fun s => (Raise e, s).

Definition bind {S A B} (m : M S A) (k : A -> M S B) : M S B :=
  fun s =>
    match m s with
    | (Ok a, s') => k a s'
    | (Raise e, s') => (Raise e, s')
    end.

Definition modify {S} (f : S -> S) : M S unit := fun s => (Ok tt, f s).

Definition gets {S A} (f : S -> A) : M S A := fun s => (Ok (f s), s).

(** [d[key]] on a dict that may lack the key. *)
Definition getitem {S A} (key : string) (o : option A) : M S A :=
  match o with
  | Some a => ret a
  | None => raise (KeyError key)
  end.

(** [for x in l: body(x)] *)
Fixpoint for_each {S A} (l : list A) (body : A -> M S unit) : M S unit :=
  match l with
  | [] => ret tt
  | x :: r => bind (body x) (fun _ => for_each r body)
  end.

Declare Scope monad_scope.
Delimit Scope monad_scope with monad.
Notation "x <- m ;; k" := (bind m (fun x => k))
  (at level 61, m at next level, right associativity) : monad_scope.
Notation "m ;; k" := (bind m (fun _ => k))
  (at level 61, right associativity) : monad_scope.
Notation "' pat <- m ;; k" := (bind m (fun x => let 'pat := x in k))
  (at level 61, pat pattern, m at next level, right associativity)
  : monad_scope.
Local Open Scope monad_scope.

(* ===================================================================== *)
(** ** The networkx [DiGraph]: data and mutation *)
(* ===================================================================== *)

Module DiGraph.

(** The attribute dict of an edge. The program stores three keys in it:
    [comment] and [label] (text) and [is_subgraph_relation] (only ever
    [True]). *)
Record edge_data : Type := {
  e_comment : option string;
  e_label : option string;
  e_is_subgraph_relation : bool
}.

(** The attribute dict of a node: [subgraph] (only ever [True]) and
    [label]. *)
Record node_data : Type := {
  n_subgraph : bool;
  n_label : option string
}.

Definition no_edge_data : edge_data :=
  {| e_comment := None; e_label := None; e_is_subgraph_relation := false |}.

Definition no_node_data : node_data :=
  {| n_subgraph := false; n_label := None |}.

(** [datadict.update(attr)]: the keys of [attr] replace their value, the
    other keys of [datadict] stay. *)
Definition update_edge_data (datadict attr : edge_data) : edge_data :=
  {| e_comment :=
       match e_comment attr with Some c => Some c | None => e_comment datadict end;
     e_label :=
       match e_label attr with Some l => Some l | None => e_label datadict end;
     e_is_subgraph_relation :=
       e_is_subgraph_relation attr || e_is_subgraph_relation datadict |}.

Definition update_node_data (datadict attr : node_data) : node_data :=
  {| n_subgraph := n_subgraph attr || n_subgraph datadict;
     n_label :=
       match n_label attr with Some l => Some l | None => n_label datadict end |}.

(** The graph: [_node] maps a node to its attributes and [_succ] maps a
    node to the dict of its successors. ([_pred] mirrors [_succ] and shares
    its attribute dicts; it is read off [_succ] here.) *)
Record t : Type := {
  _node : dict node_data;
  _succ : dict (dict edge_data)
}.

Definition empty : t := {| _node := []; _succ := [] |}.

(** [len(G)] *)
Definition len (G : t) : nat := List.length (_node G).

(** [n in G] *)
Definition has_node (G : t) (n : string) : bool := Dict.mem n (_node G).

(** The first lines of [add_edge], for one end point. *)
Definition add_missing_node (u : string) (G : t) : t :=
  if Dict.mem u (_succ G) then G
  else {| _node := Dict.set u no_node_data (_node G);
          _succ := Dict.set u [] (_succ G) |}.

(** [G.add_edge(u, v, **attr)] *)
Definition add_edge (u v : string) (attr : edge_data) (G : t) : t :=
  let G2 := add_missing_node v (add_missing_node u G) in
  let adj_u := Dict.get_default u [] (_succ G2) in
  let datadict := Dict.get_default v no_edge_data adj_u in
  {| _node := _node G2;
     _succ := Dict.set u (Dict.set v (update_edge_data datadict attr) adj_u)
                (_succ G2) |}.

(** [G.succ[u][v]] when the edge is there. *)
Definition get_edge_data (G : t) (u v : string) : option edge_data :=
  match Dict.get u (_succ G) with
  | Some nbrs => Dict.get v nbrs
  | None => None
  end.

(** [G.nodes()] *)
Definition nodes (G : t) : list string := Dict.keys (_node G).

(** [G.edges(data=True)]: node by node, successor by successor. *)
Definition edges (G : t) : list (string * string * edge_data) :=
  flat_map (fun '(u, nbrs) => map (fun '(v, d) => (u, v, d)) nbrs) (_succ G).

(** [G[n]], the successors of [n]. *)
Definition successors (G : t) (n : string) : list string :=
  Dict.keys (Dict.get_default n [] (_succ G)).

(** [G.pred[n]] *)
Definition predecessors (G : t) (n : string) : list string :=
  map fst (filter (fun '(_, nbrs) => Dict.mem n nbrs) (_succ G)).

(** [G.in_edges(n, data=True)], the attribute dicts only. *)
Definition in_edges_data (G : t) (n : string) : list edge_data :=
  flat_map (fun '(_, nbrs) =>
              match Dict.get n nbrs with Some d => [d] | None => [] end)
           (_succ G).

(** [G.out_degree(n)] *)
Definition out_degree (G : t) (n : string) : nat :=
  List.length (successors G n).

End DiGraph.

(* ===================================================================== *)
(** ** Statements *)
(* ===================================================================== *)

(** A statement is the dict [search_for_statements] makes of one match: the
    keys it may hold are the result names of the grammar. *)
Record statement : Type := {
  st_directive : option string;
  st_start : option string;
  st_end : option string;
  st_node : option string;
  st_label : option string;
  st_data : option string;
  st_comment : option string
}.

Definition no_statement : statement :=
  {| st_directive := None; st_start := None; st_end := None;
     st_node := None; st_label := None; st_data := None;
     st_comment := None |}.

(* ===================================================================== *)
(** ** The [Graph] class: state and builder *)
(* ===================================================================== *)

Record Graph : Type := {
  g : DiGraph.t;
  subgraphs : DiGraph.t;
  include_everything : bool;
  graph_attrs : list string;
  node_attrs : dict string;
  edge_attrs : dict (dict (list string));
  path_styles : list string;
  ascendant_styles : list string;
  descendant_styles : list string
}.

(** [Graph.__init__] *)
Definition Graph_init (include_everything : bool) : Graph :=
  {| g := DiGraph.empty; subgraphs := DiGraph.empty;
     include_everything := include_everything;
     graph_attrs := []; node_attrs := []; edge_attrs := [];
     path_styles := []; ascendant_styles := []; descendant_styles := [] |}.

Definition set_g (f : DiGraph.t -> DiGraph.t) (G : Graph) : Graph :=
  {| g := f (g G); subgraphs := subgraphs G;
     include_everything := include_everything G;
     graph_attrs := graph_attrs G; node_attrs := node_attrs G;
     edge_attrs := edge_attrs G; path_styles := path_styles G;
     ascendant_styles := ascendant_styles G;
     descendant_styles := descendant_styles G |}.

Definition set_graph_attrs (f : list string -> list string) (G : Graph) : Graph :=
  {| g := g G; subgraphs := subgraphs G;
     include_everything := include_everything G;
     graph_attrs := f (graph_attrs G); node_attrs := node_attrs G;
     edge_attrs := edge_attrs G; path_styles := path_styles G;
     ascendant_styles := ascendant_styles G;
     descendant_styles := descendant_styles G |}.

Definition set_node_attrs (f : dict string -> dict string) (G : Graph) : Graph :=
  {| g := g G; subgraphs := subgraphs G;
     include_everything := include_everything G;
     graph_attrs := graph_attrs G; node_attrs := f (node_attrs G);
     edge_attrs := edge_attrs G; path_styles := path_styles G;
     ascendant_styles := ascendant_styles G;
     descendant_styles := descendant_styles G |}.

Definition set_edge_attrs
  (f : dict (dict (list string)) -> dict (dict (list string))) (G : Graph)
  : Graph :=
  {| g := g G; subgraphs := subgraphs G;
     include_everything := include_everything G;
     graph_attrs := graph_attrs G; node_attrs := node_attrs G;
     edge_attrs := f (edge_attrs G); path_styles := path_styles G;
     ascendant_styles := ascendant_styles G;
     descendant_styles := descendant_styles G |}.

(** [edge_attrs] is a [defaultdict] of [defaultdict(list)]: reading
    [edge_attrs[a][b]] stores the empty defaults it hands out. *)
Definition edge_attrs_lookup (a b : string) (ea : dict (dict (list string)))
  : list string :=
  Dict.get_default b [] (Dict.get_default a [] ea).

Definition edge_attrs_store (a b : string) (l : list string)
  (ea : dict (dict (list string))) : dict (dict (list string)) :=
  Dict.set a (Dict.set b l (Dict.get_default a [] ea)) ea.

(** [self.edge_attrs[a][b]] as an expression. *)
Definition edge_attrs_getitem (a b : string) : M Graph (list string) :=
  fun G =>
    let l := edge_attrs_lookup a b (edge_attrs G) in
    (Ok l, set_edge_attrs (edge_attrs_store a b l) G).

(** [self.edge_attrs[a][b].extend(more)] *)
Definition edge_attrs_extend (a b : string) (more : list string) : M Graph unit :=
  l <- edge_attrs_getitem a b ;;
  modify (set_edge_attrs (edge_attrs_store a b (extend l more))).

Definition edge_error_message (directive : string) : string :=
  "Can only handle edges for attr statements, not [" ++ directive ++ "]".

(** [Graph._handle_edge_statement] *)
Definition _handle_edge_statement (statement : statement) : M Graph unit :=
  match st_directive statement with
  | Some directive =>
      if negb (String.eqb directive "attr")
      then raise (ValueError (edge_error_message directive))
      else ret tt
  | None => ret tt
  end ;;
  start <- getitem "start" (st_start statement) ;;
  end_ <- getitem "end" (st_end statement) ;;
  match Text.truthy (st_data statement) with
  | Some data => edge_attrs_extend start end_ (Text.split ";" (Text.strip data))
  | None => ret tt
  end ;;
  let kwargs :=
    {| DiGraph.e_comment := Text.truthy (st_comment statement);
       DiGraph.e_label := Text.truthy (st_label statement);
       DiGraph.e_is_subgraph_relation := false |} in
  modify (set_g (DiGraph.add_edge start end_ kwargs)).

(** [Graph._handle_subgraph] *)
Definition _handle_subgraph (statement : statement) : M Graph unit :=
  data <- getitem "data" (st_data statement) ;;
  let children := Text.re_split_comma data in
  subgraph_id <- getitem "node" (st_node statement) ;;
  for_each children (fun child =>
    if Text.nonempty child
    then modify (set_g (DiGraph.add_edge subgraph_id child
           {| DiGraph.e_comment := None; DiGraph.e_label := None;
              DiGraph.e_is_subgraph_relation := true |}))
    else ret tt) ;;
  let kwargs :=
    {| DiGraph.n_subgraph := true;
       DiGraph.n_label := Text.truthy (st_label statement) |} in
  node_dict <- (fun G => getitem subgraph_id
                   (Dict.get subgraph_id (DiGraph._node (g G))) G) ;;
  modify (set_g (fun G =>
    {| DiGraph._node :=
         Dict.set subgraph_id (DiGraph.update_node_data node_dict kwargs)
           (DiGraph._node G);
       DiGraph._succ := DiGraph._succ G |})).

(** [Graph._handle_node_statement] *)
Definition _handle_node_statement (statement : statement) : M Graph unit :=
  directive <- getitem "directive" (st_directive statement) ;;
  node_id <- getitem "node" (st_node statement) ;;
  if String.eqb directive "subgraph" then _handle_subgraph statement
  else if String.eqb directive "attr" then
    if String.eqb node_id "graph" then
      data <- getitem "data" (st_data statement) ;;
      modify (set_graph_attrs (fun l => append l data))
    else
      data <- getitem "data" (st_data statement) ;;
      modify (set_node_attrs (Dict.set node_id data)) ;;
      match Text.truthy (st_comment statement) with
      | Some comment =>
          data' <- getitem "data" (st_data statement) ;;
          modify (set_node_attrs
                    (Dict.set node_id
                       ("tooltip=" ++ Text.json_dumps comment ++ data')))
      | None => ret tt
      end
  else ret tt.

(** [Graph.include_statement] *)
Definition include_statement (statement : statement) : M Graph unit :=
  match st_start statement with
  | Some _ => _handle_edge_statement statement
  | None => _handle_node_statement statement
  end.

(* ===================================================================== *)
(** ** The pyparsing elements the grammar is built from *)
(* ===================================================================== *)

Module Pyparsing.

(** The named results of a match; [dict(r)] is the statement. *)
Definition ParseResults := statement.

(** Adding the results of the next element: a name set again takes the
    later value. *)
Definition merge (a b : ParseResults) : ParseResults :=
  let later {A} (x y : option A) := match y with Some _ => y | None => x end in
  {| st_directive := later (st_directive a) (st_directive b);
     st_start := later (st_start a) (st_start b);
     st_end := later (st_end a) (st_end b);
     st_node := later (st_node a) (st_node b);
     st_label := later (st_label a) (st_label b);
     st_data := later (st_data a) (st_data b);
     st_comment := later (st_comment a) (st_comment b) |}.

(** An element reads a prefix of the text left and returns the rest. *)
Definition ParserElement := string -> option (ParseResults * string).

(** A terminal: the text it matched and the rest. *)
Definition Token := string -> option (string * string).

Definition tab : ascii := Text.chr 9.
Definition cr : ascii := Text.chr 13.

(** The default whitespace characters. *)
Definition is_white (c : ascii) : bool :=
  Ascii.eqb c " " || Ascii.eqb c Text.newline || Ascii.eqb c tab
  || Ascii.eqb c cr.

(** [preParse]: every element skips the whitespace before it. *)
Fixpoint preParse (s : string) : string :=
  match s with
  | EmptyString => EmptyString
  | String c r => if is_white c then preParse r else s
  end.

Fixpoint match_prefix (lit s : string) : option string :=
  match lit with
  | EmptyString => Some s
  | String a lit' =>
      match s with
      | String b s' => if Ascii.eqb a b then match_prefix lit' s' else None
      | EmptyString => None
      end
  end.

(** The longest prefix of characters in a class, and the rest. *)
Fixpoint span (f : ascii -> bool) (s : string) : string * string :=
  match s with
  | EmptyString => (EmptyString, EmptyString)
  | String c r =>
      if f c then let (a, b) := span f r in (String c a, b)
      else (EmptyString, s)
  end.

Definition Literal (lit : string) : Token :=
  fun s =>
    match match_prefix lit (preParse s) with
    | Some r => Some (lit, r)
    | None => None
    end.

Definition Word (chars : ascii -> bool) : Token :=
  fun s =>
    match span chars (preParse s) with
    | (EmptyString, _) => None
    | (w, r) => Some (w, r)
    end.

(** [oneOf]: the first of the words that is a prefix. *)
Fixpoint oneOf (words : list string) : Token :=
  fun s =>
    match words with
    | [] => None
    | w :: ws =>
        match match_prefix w (preParse s) with
        | Some r => Some (w, r)
        | None => oneOf ws s
        end
    end.

(** [Regex('[^:]+')] *)
Definition Regex_not_colon_plus : Token :=
  Word (fun c => negb (Ascii.eqb c ":")).

(** [Regex('.*')]: the dot matches all but the line feed. *)
Definition Regex_dot_star : Token :=
  fun s => Some (span (fun c => negb (Ascii.eqb c Text.newline)) (preParse s)).

Fixpoint skip_to (target s : string) : option (string * string) :=
  match match_prefix target s with
  | Some _ => Some (EmptyString, s)
  | None =>
      match s with
      | EmptyString => None
      | String c r =>
          match skip_to target r with
          | Some (skipped, rest) => Some (String c skipped, rest)
          | None => None
          end
      end
  end.

(** [SkipTo(Literal(target))]: the text up to the first place the target
    stands at, which it leaves unread. *)
Definition SkipTo (target : string) : Token :=
  fun s => skip_to target (preParse s).

(** [expr(name)], [setResultsName]. *)
Definition named (name : string -> ParseResults) (p : Token) : ParserElement :=
  fun s =>
    match p s with
    | Some (text, r) => Some (name text, r)
    | None => None
    end.

(** [Suppress(expr)] *)
Definition Suppress (p : Token) : ParserElement :=
  fun s =>
    match p s with
    | Some (_, r) => Some (no_statement, r)
    | None => None
    end.

(** [a + b] *)
Definition And (a b : ParserElement) : ParserElement :=
  fun s =>
    match a s with
    | Some (ra, s1) =>
        match b s1 with
        | Some (rb, s2) => Some (merge ra rb, s2)
        | None => None
        end
    | None => None
    end.

(** [a | b] and [MatchFirst((a, b))] *)
Definition MatchFirst (a b : ParserElement) : ParserElement :=
  fun s => match a s with Some r => Some r | None => b s end.

(** [str.expandtabs()], which [scanString] applies to the line first. *)
Fixpoint spaces (n : nat) : string :=
  match n with O => EmptyString | S n' => String " " (spaces n') end.

Fixpoint expandtabs_from (col : nat) (s : string) : string :=
  match s with
  | EmptyString => EmptyString
  | String c r =>
      if Ascii.eqb c tab then
        let incr := 8 - col mod 8 in
        spaces incr ++ expandtabs_from (col + incr) r
      else if Ascii.eqb c Text.newline || Ascii.eqb c cr then
        String c (expandtabs_from 0 r)
      else String c (expandtabs_from (S col) r)
  end.

Definition expandtabs (s : string) : string := expandtabs_from 0 s.

(** [scanString]: the text left stands for the location [loc]. A failed
    or empty match moves one character past the skipped whitespace. Every
    round shortens the text, so one round per character and one more are
    all there can be. *)
Fixpoint scanString_rounds (rounds : nat) (p : ParserElement) (s : string)
  : list ParseResults :=
  match rounds with
  | O => []
  | S rounds' =>
      let pre := preParse s in
      let advance :=
        match pre with
        | EmptyString => []
        | String _ r => scanString_rounds rounds' p r
        end in
      match p pre with
      | Some (tokens, rest) =>
          if (String.length rest <? String.length s)%nat
          then tokens :: scanString_rounds rounds' p rest
          else advance
      | None => advance
      end
  end.

(** [searchString] *)
Definition searchString (p : ParserElement) (instring : string)
  : list ParseResults :=
  let instring := expandtabs instring in
  scanString_rounds (S (String.length instring)) p instring.

End Pyparsing.

(* ===================================================================== *)
(** ** The grammar and [search_for_statements] *)
(* ===================================================================== *)

Module Grammar.

Import Pyparsing.

Definition set_directive (s : string) : ParseResults :=
  {| st_directive := Some s; st_start := None; st_end := None;
     st_node := None; st_label := None; st_data := None;
     st_comment := None |}.
Definition set_start (s : string) : ParseResults :=
  {| st_directive := None; st_start := Some s; st_end := None;
     st_node := None; st_label := None; st_data := None;
     st_comment := None |}.
Definition set_end (s : string) : ParseResults :=
  {| st_directive := None; st_start := None; st_end := Some s;
     st_node := None; st_label := None; st_data := None;
     st_comment := None |}.
Definition set_node (s : string) : ParseResults :=
  {| st_directive := None; st_start := None; st_end := None;
     st_node := Some s; st_label := None; st_data := None;
     st_comment := None |}.
Definition set_label (s : string) : ParseResults :=
  {| st_directive := None; st_start := None; st_end := None;
     st_node := None; st_label := Some s; st_data := None;
     st_comment := None |}.
Definition set_data (s : string) : ParseResults :=
  {| st_directive := None; st_start := None; st_end := None;
     st_node := None; st_label := None; st_data := Some s;
     st_comment := None |}.
Definition set_comment (s : string) : ParseResults :=
  {| st_directive := None; st_start := None; st_end := None;
     st_node := None; st_label := None; st_data := None;
     st_comment := Some s |}.

(** [alphanums + '._-'] *)
Definition identifier_char (c : ascii) : bool :=
  let n := nat_of_ascii c in
  (((65 <=? n) && (n <=? 90)) || ((97 <=? n) && (n <=? 122))
   || ((48 <=? n) && (n <=? 57)) || (n =? 46) || (n =? 95) || (n =? 45))%nat.

Definition header : ParserElement :=
  And (Suppress (Literal ".."))
    (And (named set_directive
            (oneOf ["subgraph"; "attr"; "allPaths"; "ancestors"; "descendants"]))
         (Suppress (Literal ":"))).

Definition Identifier (name : string -> ParseResults) : ParserElement :=
  named name (Word identifier_char).

Definition edge : ParserElement :=
  And (Identifier set_start) (And (Suppress (Literal "-->")) (Identifier set_end)).

Definition entity : ParserElement := MatchFirst edge (Identifier set_node).

Definition labelledEntity : ParserElement :=
  And entity (And (Suppress (Literal ",")) (named set_label Regex_not_colon_plus)).

Definition entityDetails : ParserElement := MatchFirst labelledEntity entity.

Definition comment : ParserElement := named set_comment Regex_dot_star.

Definition data : ParserElement :=
  MatchFirst
    (And (named set_data (SkipTo "::")) (And (Suppress (Literal "::")) comment))
    (named set_data Regex_dot_star).

Definition directive : ParserElement :=
  And header (And entityDetails (And (Suppress (Literal ":")) data)).

Definition edgeSpec : ParserElement :=
  MatchFirst (And edge (And (Suppress (Literal "::")) comment)) edge.

Definition parser : ParserElement := MatchFirst directive edgeSpec.

End Grammar.

(** [search_for_statements] *)
Definition search_for_statements (line : string) : list statement :=
  Pyparsing.searchString Grammar.parser line.

(* ===================================================================== *)
(** ** The networkx algorithms the renderer calls *)
(* ===================================================================== *)

Module Algorithms.

Import DiGraph.

Section BreadthFirst.

(** The adjacency searched: successors, predecessors or both. *)
Variable adj : string -> list string.

(** One level of the search: a node not seen yet is recorded and hands
    its neighbours to the next level. *)
Fixpoint visit_level (thislevel seen nextlevel : list string)
  : list string * list string :=
  match thislevel with
  | [] => (seen, nextlevel)
  | v :: r =>
      if mem_str v seen then visit_level r seen nextlevel
      else visit_level r (seen ++ [v])%list (nextlevel ++ adj v)%list
  end.

(** [while nextlevel: ...]; a level that records nothing leaves the next
    one empty, so the levels are at most one more than the nodes. *)
Fixpoint bfs_levels (levels : nat) (seen thislevel : list string)
  : list string :=
  match levels with
  | O => seen
  | S levels' =>
      match thislevel with
      | [] => seen
      | _ :: _ =>
          let (seen', nextlevel) := visit_level thislevel seen [] in
          bfs_levels levels' seen' nextlevel
      end
  end.

End BreadthFirst.

(** The nodes a breadth-first search from [source] reaches, [source]
    first. *)
Definition reached (adj : string -> list string) (G : t) (source : string)
  : list string :=
  bfs_levels adj (S (len G)) [] [source].

Definition remove_str (x : string) (l : list string) : list string :=
  filter (fun y => negb (String.eqb x y)) l.

(** [networkx.ancestors(G, source)] *)
Definition ancestors (G : t) (source : string) : result (list string) :=
  if has_node G source
  then Ok (remove_str source (reached (predecessors G) G source))
  else Raise (NetworkXError source).

(** [networkx.descendants(G, source)] *)
Definition descendants (G : t) (source : string) : result (list string) :=
  if has_node G source
  then Ok (remove_str source (reached (successors G) G source))
  else Raise (NetworkXError source).

(** [networkx.predecessor(G, source)]: for every node reached, the nodes
    one level nearer to [source] that have an edge to it. *)
Definition pred_state : Type := dict nat * dict (list string) * list string.

Definition pred_visit (level : nat) (v w : string) (st : pred_state)
  : pred_state :=
  let '(seen, pred, nextlevel) := st in
  match Dict.get w seen with
  | None =>
      (Dict.set w level seen, Dict.set w [v] pred, (nextlevel ++ [w])%list)
  | Some l =>
      if (l =? level)%nat
      then (seen, Dict.set w (Dict.get_default w [] pred ++ [v])%list pred,
            nextlevel)
      else st
  end.

Definition pred_level (G : t) (level : nat) (thislevel : list string)
  (st : pred_state) : pred_state :=
  fold_left
    (fun st v => fold_left (fun st w => pred_visit level v w st)
                   (successors G v) st)
    thislevel st.

Fixpoint pred_levels (levels : nat) (G : t) (level : nat)
  (seen : dict nat) (pred : dict (list string)) (nextlevel : list string)
  : dict (list string) :=
  match levels with
  | O => pred
  | S levels' =>
      match nextlevel with
      | [] => pred
      | _ :: _ =>
          let '(seen', pred', nextlevel') :=
            pred_level G (S level) nextlevel (seen, pred, []) in
          pred_levels levels' G (S level) seen' pred' nextlevel'
      end
  end.

Definition predecessor (G : t) (source : string)
  : result (dict (list string)) :=
  if has_node G source
  then Ok (pred_levels (S (len G)) G 0 [(source, 0)] [(source, [])] [source])
  else Raise (NodeNotFound source).

(** The paths the stack of [all_shortest_paths] walks through: from
    [node] back along [pred] until [source]. *)
Fixpoint paths_back (depth : nat) (pred : dict (list string))
  (source node : string) : list (list string) :=
  match depth with
  | O => []
  | S depth' =>
      ((if String.eqb node source then [[node]] else [])
       ++ flat_map
            (fun p => map (fun path => path ++ [node])
                        (paths_back depth' pred source p))
            (Dict.get_default node [] pred))%list
  end.

(** [networkx.all_shortest_paths(G, source, target)] *)
Definition all_shortest_paths (G : t) (source target : string)
  : result (list (list string)) :=
  match predecessor G source with
  | Raise e => Raise e
  | Ok pred =>
      if negb (Dict.mem target pred) then Raise NetworkXNoPath
      else Ok (paths_back (S (len G)) pred source target)
  end.

(** [weakly_connected_components(G)] *)
Definition neighbours (G : t) (v : string) : list string :=
  (successors G v ++ predecessors G v)%list.

Fixpoint components_from (G : t) (vs seen : list string)
  : list (list string) :=
  match vs with
  | [] => []
  | v :: r =>
      if mem_str v seen then components_from G r seen
      else
        let c := reached (neighbours G) G v in
        c :: components_from G r (seen ++ c)%list
  end.

Definition weakly_connected_components (G : t) : list (list string) :=
  components_from G (nodes G) [].

(** [G.subgraph(c).number_of_edges()] *)
Definition edges_within (G : t) (c : list string) : nat :=
  List.length
    (filter (fun '(u, v, _) => mem_str u c && mem_str v c) (edges G)).

(** [tree.is_forest(G)]: every weakly connected component has one edge
    less than it has nodes. *)
Definition is_forest (G : t) : result bool :=
  if (len G =? 0)%nat then Raise NetworkXPointlessConcept
  else Ok (forallb
             (fun c => (Z.of_nat (List.length c) - 1
                        =? Z.of_nat (edges_within G c))%Z)
             (weakly_connected_components G)).

(** [G.in_degree(v)] *)
Definition in_degree (G : t) (v : string) : nat :=
  List.length (predecessors G v).

(** [dag.topological_sort(G)]: nodes without incoming edges wait on a
    stack (its top first here); a node leaves it, and each child whose last
    incoming edge this was joins it. *)
Definition release_child (child : string)
  (st : result (dict nat * list string)) : result (dict nat * list string) :=
  match st with
  | Raise e => Raise e
  | Ok (indegree_map, zero_indegree) =>
      match Dict.get child indegree_map with
      | None => Raise RuntimeError
      | Some d =>
          if (d - 1 =? 0)%nat
          then Ok (Dict.remove child indegree_map, child :: zero_indegree)
          else Ok (Dict.set child (d - 1) indegree_map, zero_indegree)
      end
  end.

Fixpoint topological_rounds (rounds : nat) (G : t)
  (indegree_map : dict nat) (zero_indegree : list string)
  : result (list string) :=
  match zero_indegree with
  | [] =>
      match indegree_map with
      | [] => Ok []
      | _ :: _ => Raise NetworkXUnfeasible
      end
  | node :: stack =>
      match rounds with
      | O => Raise RuntimeError
      | S rounds' =>
          match fold_left (fun st child => release_child child st)
                  (successors G node) (Ok (indegree_map, stack)) with
          | Raise e => Raise e
          | Ok (indegree_map', zero_indegree') =>
              match topological_rounds rounds' G indegree_map' zero_indegree'
              with
              | Ok order => Ok (node :: order)
              | Raise e => Raise e
              end
          end
      end
  end.

Definition topological_sort (G : t) : result (list string) :=
  let degrees := map (fun v => (v, in_degree G v)) (nodes G) in
  let indegree_map := filter (fun '(_, d) => (0 <? d)%nat) degrees in
  let zero_indegree :=
    rev (map fst (filter (fun '(_, d) => (d =? 0)%nat) degrees)) in
  topological_rounds (len G) G indegree_map zero_indegree.

End Algorithms.

(* ===================================================================== *)
(** ** The [Graph] class: rendering *)
(* ===================================================================== *)

(** [NODE_STYLES] *)
Definition filled (colour : string) : string :=
  "style=" ++ Text.q ++ "filled" ++ Text.q ++ "; fillcolor="
  ++ Text.q ++ colour ++ Text.q.

Definition NODE_STYLES : dict string :=
  [("highlight", filled "pink"); ("pink", filled "pink");
   ("green", filled "green")].

(** The pattern [re.match] applies to an ancestor or descendant spec: a
    group of characters other than the space, then a tail of spaces, a
    colon, spaces and a last group that takes the rest of the line. *)
Definition dot_star (s : string) : string :=
  fst (Pyparsing.span (fun c => negb (Ascii.eqb c Text.newline)) s).

Definition colon_then_rest (s : string) : option string :=
  match Text.drop_spaces s with
  | String ":" r => Some (dot_star (Text.drop_spaces r))
  | _ => None
  end.

(** The first group followed by that tail: the group is greedy, so it is
    the longest run of non-space characters after which the tail
    matches. *)
Fixpoint re_name_then_style (s : string) : option (string * string) :=
  match s with
  | EmptyString => None
  | String c r =>
      if Ascii.eqb c " " then None
      else
        match re_name_then_style r with
        | Some (name, attrs) => Some (String c name, attrs)
        | None =>
            match colon_then_rest r with
            | Some attrs => Some (String c EmptyString, attrs)
            | None => None
            end
        end
  end.

Definition re_match_node_spec (spec : string) : option (string * string) :=
  re_name_then_style spec.

(** The pattern applied to a path spec: a group of non-space characters,
    the word [to] between single spaces, and then the pattern above. *)
Definition re_match_path_spec (spec : string)
  : option (string * string * string) :=
  match Pyparsing.span (fun c => negb (Ascii.eqb c " ")) spec with
  | (EmptyString, _) => None
  | (start, r) =>
      match Pyparsing.match_prefix " to " r with
      | Some r' =>
          match re_name_then_style r' with
          | Some (end_, attrs) => Some (start, end_, attrs)
          | None => None
          end
      | None => None
      end
  end.

(** [... .groups()] of a match that may be [None]. *)
Definition groups {A} (m : option A) : M Graph A :=
  match m with
  | Some x => ret x
  | None => raise AttributeError
  end.

(** A library call that may raise. *)
Definition call {A} (r : result A) : M Graph A :=
  match r with
  | Ok a => ret a
  | Raise e => raise e
  end.

(** [self.node_attrs[n] = attrs + ';' + self.node_attrs.get(n, '')] *)
Definition prepend_style (attrs n : string) : M Graph unit :=
  modify (set_node_attrs
            (fun na => Dict.set n (attrs ++ ";" ++ Dict.get_default n "" na) na)).

(** The body of the loop over [self.ascendant_styles]. *)
Definition apply_ancestor_spec (ancestor_spec : string) : M Graph unit :=
  '(node_id, attrs) <- groups (re_match_node_spec ancestor_spec) ;;
  let attrs := Dict.get_default attrs attrs NODE_STYLES in
  G <- gets g ;;
  nodes <- call (Algorithms.ancestors G node_id) ;;
  for_each nodes (prepend_style attrs).

(** The body of the loop over [self.descendant_styles]. *)
Definition apply_descendant_spec (descendant_spec : string) : M Graph unit :=
  '(node_id, attrs) <- groups (re_match_node_spec descendant_spec) ;;
  let attrs := Dict.get_default attrs attrs NODE_STYLES in
  G <- gets g ;;
  nodes <- call (Algorithms.descendants G node_id) ;;
  for_each nodes (prepend_style attrs).

(** The body of the loop over [self.path_styles]. *)
Definition apply_path_spec (path_style_spec : string) : M Graph unit :=
  '(start, end_, attrs) <- groups (re_match_path_spec path_style_spec) ;;
  let attrs := Dict.get_default attrs attrs NODE_STYLES in
  G <- gets g ;;
  paths <- call (Algorithms.all_shortest_paths G start end_) ;;
  for_each paths (fun nodes_in_path =>
    for_each nodes_in_path (prepend_style attrs)).

(** The three loops of [render_dot] over the style specs. *)
Definition resolve_styles : M Graph unit :=
  specs <- gets ascendant_styles ;;
  for_each specs apply_ancestor_spec ;;
  specs <- gets descendant_styles ;;
  for_each specs apply_descendant_spec ;;
  specs <- gets path_styles ;;
  for_each specs apply_path_spec.

(** [Graph.render_node] *)
Definition render_node (G : Graph) (node_id : string) : string :=
  Text.q ++ node_id ++ Text.q ++ " [id=" ++ Text.q ++ node_id ++ Text.q
  ++ "; " ++ Dict.get_default node_id "" (node_attrs G) ++ "];".

(** [Graph.should_include_node] *)
Definition should_include_node (G : Graph) (node_id : string) : bool :=
  include_everything G
  || (0 <? DiGraph.out_degree (g G) node_id)%nat
  || existsb (fun d => negb (DiGraph.e_is_subgraph_relation d))
       (DiGraph.in_edges_data (g G) node_id).

(** [self.g.node[n]] *)
Definition node_dict (G : Graph) (n : string) : result DiGraph.node_data :=
  match Dict.get n (DiGraph._node (g G)) with
  | Some d => Ok d
  | None => Raise (KeyError n)
  end.

(** The loop of [render_subgraph] over the children of the root;
    [recurse] is the nested call of [render_subgraph]. It returns the text
    of the cluster and the set [already_visited] as the loop leaves it. *)
Fixpoint render_children (G : Graph)
  (recurse : string -> list string -> result (string * list string))
  (children : list string) (dot : list string)
  (already_visited : list string) : result (string * list string) :=
  match children with
  | [] => Ok (Text.join Text.nl (append dot "}"), already_visited)
  | child :: rest =>
      if mem_str child already_visited
      then render_children G recurse rest dot already_visited
      else
        match node_dict G child with
        | Raise e => Raise e
        | Ok child_dict =>
            if DiGraph.n_subgraph child_dict then
              match recurse child already_visited with
              | Raise e => Raise e
              | Ok (subsub, visited') =>
                  render_children G recurse rest (append dot subsub)
                    (append visited' child)
              end
            else
              render_children G recurse rest
                (if should_include_node G child
                 then append dot (render_node G child)
                 else dot)
                (append already_visited child)
        end
  end.

(** [Graph.render_subgraph]; [depth] is the number of nested calls the
    interpreter still allows. *)
Fixpoint render_subgraph (depth : nat) (G : Graph) (root : string)
  (already_visited : list string) : result (string * list string) :=
  match depth with
  | O => Raise RecursionError
  | S depth' =>
      let dot :=
        ["subgraph cluster_" ++ Text.replace "." "_" root ++ " " ++ "{";
         "id=" ++ Text.q ++ root ++ Text.q ++ ";"] in
      let subgraph_attrs := Dict.get_default root "" (node_attrs G) in
      let dot :=
        if Text.nonempty subgraph_attrs then append dot subgraph_attrs
        else dot in
      match node_dict G root with
      | Raise e => Raise e
      | Ok root_dict =>
          let label :=
            match DiGraph.n_label root_dict with Some l => l | None => "" end in
          let dot :=
            append dot ("label=" ++ Text.q ++ label ++ Text.q
                        ++ "; style=dashed;") in
          render_children G (render_subgraph depth' G)
            (DiGraph.successors (g G) root) dot already_visited
      end
  end.

(** The graph of the subgraph relations, as [render_dot] builds it. *)
Definition subgraph_relations (G : DiGraph.t) : DiGraph.t :=
  fold_left
    (fun sg '(a, b, edge_data) =>
       if DiGraph.e_is_subgraph_relation edge_data
       then DiGraph.add_edge a b DiGraph.no_edge_data sg
       else sg)
    (DiGraph.edges G) DiGraph.empty.

Definition forest_error_message : string :=
  "subgraph mappings must result in trees".

(** [if subgraphs and not tree.is_forest(subgraphs): raise ValueError] *)
Definition check_forest (subgraphs : DiGraph.t) : M Graph unit :=
  if (0 <? DiGraph.len subgraphs)%nat then
    forest <- call (Algorithms.is_forest subgraphs) ;;
    if negb forest then raise (ValueError forest_error_message) else ret tt
  else ret tt.

(** The loop over [dag.topological_sort(subgraphs)]. *)
Fixpoint render_clusters (depth : nat) (G : Graph) (order : list string)
  (dot : list string) (already_visited : list string)
  : result (list string * list string) :=
  match order with
  | [] => Ok (dot, already_visited)
  | node :: rest =>
      if mem_str node already_visited
      then render_clusters depth G rest dot already_visited
      else
        let already_visited := append already_visited node in
        match node_dict G node with
        | Raise e => Raise e
        | Ok d =>
            if DiGraph.n_subgraph d then
              match render_subgraph depth G node already_visited with
              | Raise e => Raise e
              | Ok (text, visited') =>
                  render_clusters depth G rest (append dot text) visited'
              end
            else render_clusters depth G rest dot already_visited
        end
  end.

(** One round of the loop over [self.g.edges()]. *)
Definition render_edge (a b : string) (edge_data : DiGraph.edge_data)
  (dot : list string) : M Graph (list string) :=
  if DiGraph.e_is_subgraph_relation edge_data then ret dot
  else
    fragments <- edge_attrs_getitem a b ;;
    let attrs :=
      ("id=" ++ Text.q ++ a ++ "/" ++ b ++ Text.q) :: fragments in
    let attrs :=
      match DiGraph.e_comment edge_data with
      | Some c => append attrs ("tooltip=" ++ Text.json_dumps c)
      | None => attrs
      end in
    let attrs :=
      match DiGraph.e_label edge_data with
      | Some l => append attrs ("label=" ++ Text.json_dumps l)
      | None => attrs
      end in
    ret (append dot (Text.q ++ a ++ Text.q ++ " -> " ++ Text.q ++ b
                     ++ Text.q ++ " [" ++ Text.join "; " attrs ++ "]")).

Fixpoint render_edges (es : list (string * string * DiGraph.edge_data))
  (dot : list string) : M Graph (list string) :=
  match es with
  | [] => ret dot
  | (a, b, edge_data) :: rest =>
      dot' <- render_edge a b edge_data dot ;;
      render_edges rest dot'
  end.

(** The loop over [self.g.nodes(data=True)]. *)
Definition render_remaining_nodes (G : Graph) (already_visited : list string)
  (dot : list string) : list string :=
  fold_left
    (fun dot node_id =>
       if mem_str node_id already_visited then dot
       else if should_include_node G node_id
            then append dot (render_node G node_id)
            else dot)
    (DiGraph.nodes (g G)) dot.

(** [Graph.render_dot] *)
Definition render_dot (depth : nat) : M Graph string :=
  attrs <- gets graph_attrs ;;
  let dot := ["digraph G {"] in
  let dot :=
    match attrs with
    | [] => dot
    | _ :: _ => append dot (Text.join "; " attrs ++ ";")
    end in
  G0 <- gets g ;;
  let subgraphs := subgraph_relations G0 in
  check_forest subgraphs ;;
  resolve_styles ;;
  order <- call (Algorithms.topological_sort subgraphs) ;;
  self <- gets (fun G => G) ;;
  '(dot, already_visited) <- call (render_clusters depth self order dot []) ;;
  dot <- render_edges (DiGraph.edges G0) dot ;;
  self <- gets (fun G => G) ;;
  let dot := render_remaining_nodes self already_visited dot in
  ret (Text.join Text.nl (append dot "}")).

(** [Graph.from_lines] *)
Definition include_line (line : string) : M Graph unit :=
  for_each (search_for_statements line) include_statement.

Definition from_lines (lines : list string) (include_everything : bool)
  : result unit * Graph :=
  for_each lines include_line (Graph_init include_everything).

(** [Graph.from_string] *)
Definition from_string (text : string) (include_everything : bool)
  : result unit * Graph :=
  from_lines (Text.split Text.newline text) include_everything.

(* ===================================================================== *)
(** ** Notions the statements are written with *)
(* ===================================================================== *)

(** The statement scanned from the line [..subgraph: lonely: ,]: a
    subgraph directive whose data names no child. *)
Definition lonely_subgraph : statement :=
  {| st_directive := Some "subgraph"; st_start := None; st_end := None;
     st_node := Some "lonely"; st_label := None; st_data := Some ",";
     st_comment := None |}.

Definition subgraph_on_edge : statement :=
  {| st_directive := Some "subgraph"; st_start := Some "a";
     st_end := Some "b"; st_node := None; st_label := None;
     st_data := Some "x"; st_comment := None |}.

(** The claim C4 makes of a graph and a later edge statement: the data
    of the edge is what the later statement carries and nothing else. *)
Definition later_statement_replaces_metadata
  (G : Graph) (statement : statement) : Prop :=
  forall start end_ old,
    st_start statement = Some start ->
    st_end statement = Some end_ ->
    DiGraph.get_edge_data (g G) start end_ = Some old ->
    DiGraph.get_edge_data (g (snd (include_statement statement G))) start end_
    = Some {| DiGraph.e_comment := Text.truthy (st_comment statement);
              DiGraph.e_label := Text.truthy (st_label statement);
              DiGraph.e_is_subgraph_relation := false |}.

Definition bare_edge (start end_ : string) : statement :=
  {| st_directive := None; st_start := Some start; st_end := Some end_;
     st_node := None; st_label := None; st_data := None;
     st_comment := None |}.

Definition attr_with_comment : statement :=
  {| st_directive := Some "attr"; st_start := None; st_end := None;
     st_node := Some "n"; st_label := None; st_data := Some "color=red ";
     st_comment := Some "why" |}.

Definition attr_on_edge (data : string) : statement :=
  {| st_directive := Some "attr"; st_start := Some "a"; st_end := Some "b";
     st_node := None; st_label := None; st_data := Some data;
     st_comment := None |}.

(** The bare edge of the examples, with any number of extra spaces on
    both sides of the arrow and any text [tail] after [edge2]. *)
Definition spaced_edge (n m : nat) (tail : string) : string :=
  "edge1" ++ Pyparsing.spaces (S n) ++ "-->" ++ Pyparsing.spaces (S m)
  ++ "edge2" ++ tail.

Definition edge_with_comment (start end_ comment : string) : statement :=
  {| st_directive := None; st_start := Some start; st_end := Some end_;
     st_node := None; st_label := None; st_data := None;
     st_comment := Some comment |}.

Definition attr_on_node (node data : string) : statement :=
  {| st_directive := Some "attr"; st_start := None; st_end := None;
     st_node := Some node; st_label := None; st_data := Some data;
     st_comment := None |}.

(** Two states that differ in [edge_attrs] at most. *)
Definition same_but_edge_attrs (G G' : Graph) : Prop :=
  g G' = g G /\ subgraphs G' = subgraphs G /\
  include_everything G' = include_everything G /\
  graph_attrs G' = graph_attrs G /\ node_attrs G' = node_attrs G /\
  path_styles G' = path_styles G /\
  ascendant_styles G' = ascendant_styles G /\
  descendant_styles G' = descendant_styles G.

(** The entry [edge_attrs[a][b]] is stored. *)
Definition vivified (a b : string) (ea : dict (dict (list string))) : Prop :=
  exists inner l, Dict.get a ea = Some inner /\ Dict.get b inner = Some l.

(** What the loop over the edges leaves in [edge_attrs]: the entry of every
    edge it renders. *)
Fixpoint vivify (es : list (string * string * DiGraph.edge_data))
  (ea : dict (dict (list string))) : dict (dict (list string)) :=
  match es with
  | [] => ea
  | (a, b, d) :: rest =>
      vivify rest
        (if DiGraph.e_is_subgraph_relation d then ea
         else edge_attrs_store a b (edge_attrs_lookup a b ea) ea)
  end.

(** The lines that loop appends, given the fragments of every pair. *)
Definition edge_line (a b : string) (d : DiGraph.edge_data)
  (fragments : list string) : string :=
  let attrs := ("id=" ++ Text.q ++ a ++ "/" ++ b ++ Text.q) :: fragments in
  let attrs :=
    match DiGraph.e_comment d with
    | Some c => append attrs ("tooltip=" ++ Text.json_dumps c)
    | None => attrs
    end in
  let attrs :=
    match DiGraph.e_label d with
    | Some l => append attrs ("label=" ++ Text.json_dumps l)
    | None => attrs
    end in
  Text.q ++ a ++ Text.q ++ " -> " ++ Text.q ++ b ++ Text.q
  ++ " [" ++ Text.join "; " attrs ++ "]".

Fixpoint edge_lines (es : list (string * string * DiGraph.edge_data))
  (fragments : string -> string -> list string) (dot : list string)
  : list string :=
  match es with
  | [] => dot
  | (a, b, d) :: rest =>
      edge_lines rest fragments
        (if DiGraph.e_is_subgraph_relation d then dot
         else append dot (edge_line a b d (fragments a b)))
  end.

Definition all_vivified (es : list (string * string * DiGraph.edge_data))
  (ea : dict (dict (list string))) : Prop :=
  forall a b d, In (a, b, d) es -> DiGraph.e_is_subgraph_relation d = false ->
                vivified a b ea.

(** The check of the subgraph relations reads them and nothing else. *)
Definition forest_check (sg : DiGraph.t) : result unit :=
  if (0 <? DiGraph.len sg)%nat then
    match Algorithms.is_forest sg with
    | Raise e => Raise e
    | Ok forest =>
        if negb forest then Raise (ValueError forest_error_message) else Ok tt
    end
  else Ok tt.

(** The first line of the document and the graph attributes. *)
Definition opening_lines (G : Graph) : list string :=
  match graph_attrs G with
  | [] => ["digraph G {"]
  | _ :: _ => append ["digraph G {"] (Text.join "; " (graph_attrs G) ++ ";")
  end.

(** The document [render_dot] returns when the style lists are empty, as
    a function of the state it is given. *)
Definition document (depth : nat) (G : Graph) : result string :=
  let sg := subgraph_relations (g G) in
  match forest_check sg with
  | Raise e => Raise e
  | Ok _ =>
      match Algorithms.topological_sort sg with
      | Raise e => Raise e
      | Ok order =>
          match render_clusters depth G order (opening_lines G) [] with
          | Raise e => Raise e
          | Ok (dot, already_visited) =>
              let dot :=
                edge_lines (DiGraph.edges (g G))
                  (fun a b => edge_attrs_lookup a b (edge_attrs G)) dot in
              Ok (Text.join Text.nl
                    (append (render_remaining_nodes G already_visited dot) "}"))
          end
      end
  end.

(** The lines of the rendering test of the source. *)
Definition test_lines : list string :=
  ["a --> b"; "..attr: b --> c, Label: color=red :: Comment"; "c --> d";
   "..subgraph: first, First: a, second"; "..subgraph: second, Second: b, d"].

Definition text_of (r : result string) : string :=
  match r with Ok text => text | Raise _ => "" end.

(** The style lists stay empty through the build pass: no statement adds
    a style spec. *)
Definition no_style_specs (G : Graph) : Prop :=
  ascendant_styles G = [] /\ descendant_styles G = [] /\ path_styles G = [].

(** The claim C2 makes of a state: a rendering that returns a document
    leaves a state that renders to the same document and stays as it is. *)
Definition renders_twice_alike (depth : nat) (G : Graph) : Prop :=
  forall text G1,
    render_dot depth G = (Ok text, G1) ->
    render_dot depth G1 = (Ok text, G1).

(** What C2 asks of one rendering: whatever it does to [node_attrs], it
    leaves every other field of the state as it was. *)
Definition renders_read_only (depth : nat) (G : Graph) : Prop :=
  forall text G1,
    render_dot depth G = (Ok text, G1) ->
    g G1 = g G /\ subgraphs G1 = subgraphs G /\
    include_everything G1 = include_everything G /\
    graph_attrs G1 = graph_attrs G /\ edge_attrs G1 = edge_attrs G /\
    path_styles G1 = path_styles G /\
    ascendant_styles G1 = ascendant_styles G /\
    descendant_styles G1 = descendant_styles G.

(** The graph the build pass makes of the line [a --> b]. *)
Definition one_edge_graph : Graph := snd (from_lines ["a --> b"] false).

Definition with_ascendant_styles (specs : list string) (G : Graph) : Graph :=
  {| g := g G; subgraphs := subgraphs G;
     include_everything := include_everything G;
     graph_attrs := graph_attrs G; node_attrs := node_attrs G;
     edge_attrs := edge_attrs G; path_styles := path_styles G;
     ascendant_styles := specs;
     descendant_styles := descendant_styles G |}.

(** The graph of the line [a --> b] with the ancestors of [b] styled
    pink. *)
Definition styled_graph : Graph :=
  with_ascendant_styles ["b: pink"] (snd (from_lines ["a --> b"] false)).

(** Three subgraph statements that put the subgraph [c] in both [a] and
    [b]. *)
Definition two_parents : list string :=
  ["..subgraph: a: c"; "..subgraph: b: c"; "..subgraph: c: x"].

Definition cluster_lines (name : string) (inside : list string)
  : list string :=
  extend
    ["subgraph cluster_" ++ name ++ " {";
     "id=" ++ Text.q ++ name ++ Text.q ++ ";";
     "label=" ++ Text.q ++ Text.q ++ "; style=dashed;"]
    (append inside "}").

Definition two_parents_document : string :=
  Text.join Text.nl
    ("digraph G {"
     :: extend (cluster_lines "b" (cluster_lines "c" []))
          (append (cluster_lines "a" []) "}")).


Fixpoint nodupb (l : list string) : bool :=
  match l with
  | [] => true
  | x :: r => negb (mem_str x r) && nodupb r
  end.

(** What networkx keeps true of a [DiGraph]: the keys of a dict are
    distinct, and both ends of an edge are nodes. *)
Definition well_formed (G : DiGraph.t) : bool :=
  nodupb (Dict.keys (DiGraph._succ G))
  && forallb
       (fun '(u, nbrs) =>
          Dict.mem u (DiGraph._node G)
          && nodupb (Dict.keys nbrs)
          && forallb (fun '(v, _) => Dict.mem v (DiGraph._node G)) nbrs)
       (DiGraph._succ G).

(** Two states that differ in [node_attrs] at most. *)
Definition same_but_node_attrs (G G' : Graph) : Prop :=
  g G' = g G /\ subgraphs G' = subgraphs G /\
  include_everything G' = include_everything G /\
  graph_attrs G' = graph_attrs G /\ edge_attrs G' = edge_attrs G /\
  path_styles G' = path_styles G /\
  ascendant_styles G' = ascendant_styles G /\
  descendant_styles G' = descendant_styles G.

(** [k] copies of a text, one after the other. *)
Fixpoint copies (k : nat) (s : string) : string :=
  match k with O => EmptyString | S k' => s ++ copies k' s end.

(** The chain [a --> b --> c] with attributes on [a]. *)
Definition chain_graph : Graph :=
  snd (from_lines ["a --> b"; "b --> c"; "..attr: a: shape=box"] false).


(** The edges a level walks through, in the order of the two loops. *)
Definition level_pairs (G : DiGraph.t) (thislevel : list string)
  : list (string * string) :=
  flat_map (fun v => map (pair v) (DiGraph.successors G v)) thislevel.

Definition visit_pair (level : nat) (st : Algorithms.pred_state)
  (pr : string * string) : Algorithms.pred_state :=
  Algorithms.pred_visit level (fst pr) (snd pr) st.

Definition targets (ps : list (string * string)) : list string := map snd ps.

(** The sources of the edges into [w], in order. *)
Definition sources_of (w : string) (ps : list (string * string))
  : list string :=
  map fst (filter (fun pr => String.eqb (snd pr) w) ps).

(** [path_of adj x p y]: the nodes [p] lead from [x] to [y] along [adj]. *)
Inductive path_of (adj : string -> list string) (x : string)
  : list string -> string -> Prop :=
| path_one : path_of adj x [x] x
| path_snoc p y z :
    path_of adj x p y -> In z (adj y) -> path_of adj x (p ++ [z]) z.

(** The diamond [a --> b --> d], [a --> c --> d], with a longer way round
    through [e]. *)
Definition diamond_graph : Graph :=
  snd (from_lines ["a --> b"; "a --> c"; "b --> d"; "c --> d";
                   "a --> e"; "e --> b"] false).

Definition wf_prop (G : DiGraph.t) : Prop :=
  NoDup (Dict.keys (DiGraph._succ G)) /\
  forall u nbrs, In (u, nbrs) (DiGraph._succ G) ->
    In u (DiGraph.nodes G) /\ NoDup (Dict.keys nbrs) /\
    incl (Dict.keys nbrs) (DiGraph.nodes G).

(** Every exception a computation can raise satisfies [P]. *)
Definition raises_only {S A} (P : exn -> Prop) (m : M S A) : Prop :=
  forall s e s', m s = (Raise e, s') -> P e.

Definition not_ValueError (e : exn) : Prop :=
  match e with ValueError _ => False | _ => True end.

(** *** What the searches maintain *)


(** What holds when the search has recorded the levels up to [k]:
    [seen] maps a node to the length of the shortest paths to it, for the
    nodes at most [k] edges away; [nextlevel] lists the nodes of level [k];
    [pred] maps a node to its neighbours one level nearer. *)
Record levels_recorded (G : DiGraph.t) (source : string) (k : nat)
  (seen : dict nat) (pred : dict (list string)) (nextlevel : list string)
  : Prop := {
  rec_nodup : NoDup (Dict.keys seen);
  rec_nodes : incl (Dict.keys seen) (DiGraph.nodes G);
  rec_bound : forall v d, Dict.get v seen = Some d -> d <= k;
  rec_path : forall v d, Dict.get v seen = Some d ->
      exists p, path_of (DiGraph.successors G) source p v /\
                List.length p = S d;
  rec_min : forall v d q, Dict.get v seen = Some d ->
      path_of (DiGraph.successors G) source q v -> S d <= List.length q;
  rec_all : forall q v, path_of (DiGraph.successors G) source q v ->
      List.length q <= S k -> exists d, Dict.get v seen = Some d;
  rec_next_nodup : NoDup nextlevel;
  rec_next : forall v, In v nextlevel <-> Dict.get v seen = Some k;
  rec_pred_zero : forall v, Dict.get v seen = Some 0 ->
                            Dict.get_default v [] pred = [];
  rec_pred_succ : forall v d, Dict.get v seen = Some (S d) ->
      NoDup (Dict.get_default v [] pred) /\
      forall u, In u (Dict.get_default v [] pred)
                <-> Dict.get u seen = Some d /\ In v (DiGraph.successors G u);
  rec_pred_keys : forall v, Dict.mem v pred = Dict.mem v seen
}.

(** What the search leaves when no level is left: the levels of all the
    nodes a path leads to, and their neighbours one level nearer. *)
Record shortest_tree (G : DiGraph.t) (source : string)
  (seen : dict nat) (pred : dict (list string)) : Prop := {
  tree_bound : forall v d, Dict.get v seen = Some d -> d <= DiGraph.len G;
  tree_path : forall v d, Dict.get v seen = Some d ->
      exists p, path_of (DiGraph.successors G) source p v /\
                List.length p = S d;
  tree_min : forall v d q, Dict.get v seen = Some d ->
      path_of (DiGraph.successors G) source q v -> S d <= List.length q;
  tree_all : forall q v, path_of (DiGraph.successors G) source q v ->
                         exists d, Dict.get v seen = Some d;
  tree_pred_zero : forall v, Dict.get v seen = Some 0 ->
                             Dict.get_default v [] pred = [];
  tree_pred_succ : forall v d, Dict.get v seen = Some (S d) ->
      NoDup (Dict.get_default v [] pred) /\
      forall u, In u (Dict.get_default v [] pred)
                <-> Dict.get u seen = Some d /\ In v (DiGraph.successors G u);
  tree_pred_keys : forall v, Dict.mem v pred = Dict.mem v seen
}.

(** Shorthands for the data of the tests of the source. *)

Definition stmt (directive start end_ node label data comment : option string)
  : statement :=
  {| st_directive := directive; st_start := start; st_end := end_;
     st_node := node; st_label := label; st_data := data;
     st_comment := comment |}.

Definition edge_dict (comment label : option string) : DiGraph.edge_data :=
  {| DiGraph.e_comment := comment; DiGraph.e_label := label;
     DiGraph.e_is_subgraph_relation := false |}.

Definition node_line (n : string) : string :=
  Text.q ++ n ++ Text.q ++ " [id=" ++ Text.q ++ n ++ Text.q ++ "; ];".

Definition labelled_cluster (name label : string) (inside : list string)
  : list string :=
  extend
    ["subgraph cluster_" ++ name ++ " {";
     "id=" ++ Text.q ++ name ++ Text.q ++ ";";
     "label=" ++ Text.q ++ label ++ Text.q ++ "; style=dashed;"]
    (append inside "}").

(* ===================================================================== *)
(** ** Notions of the further properties *)
(* ===================================================================== *)

(** Every character of [s] is in the class [f]. *)
Fixpoint all_chars (f : ascii -> bool) (s : string) : bool :=
  match s with
  | EmptyString => true
  | String c r => f c && all_chars f r
  end.

(** A word as [Identifier] reads it: not empty, of letters, digits, [.],
    [_] and [-]. *)
Definition is_identifier (s : string) : bool :=
  Text.nonempty s && all_chars Grammar.identifier_char s.

(** The words [header] knows. *)
Definition directive_words : list string :=
  ["subgraph"; "attr"; "allPaths"; "ancestors"; "descendants"].

Definition no_colon (c : ascii) : bool := negb (Ascii.eqb c ":").

(** What a statement of the scanner looks like: it names an edge or a
    node, a directive is a known word and brings data, and only a directive
    brings data or a label. *)
Definition names_edge (s : statement) : Prop :=
  exists a b, st_start s = Some a /\ st_end s = Some b /\ st_node s = None /\
              is_identifier a = true /\ is_identifier b = true.

Definition names_node (s : statement) : Prop :=
  exists n, st_node s = Some n /\ st_start s = None /\ st_end s = None /\
            is_identifier n = true.

Definition statement_shape (s : statement) : Prop :=
  (names_edge s \/ (names_node s /\ st_directive s <> None)) /\
  match st_directive s with
  | Some d => In d directive_words /\ st_data s <> None
  | None => st_data s = None /\ st_label s = None
  end /\
  (forall l, st_label s = Some l ->
             Text.nonempty l = true /\ all_chars no_colon l = true).

(** [r] is what is left of [s] after a prefix. *)
Definition suffix_of (r s : string) : Prop := exists pre, s = pre ++ r.

Definition not_newline (c : ascii) : bool := negb (Ascii.eqb c Text.newline).

(** A line as [from_string] hands it over: without line feed. *)
Definition one_line (s : string) : bool := all_chars not_newline s.

(** A terminal or an element that leaves a suffix of what it is given. *)
Definition token_leaves_suffix (p : Pyparsing.Token) : Prop :=
  forall s t r, p s = Some (t, r) -> suffix_of r s.

Definition leaves_suffix (p : Pyparsing.ParserElement) : Prop :=
  forall s t r, p s = Some (t, r) -> suffix_of r s.

Definition not_tab (c : ascii) : bool := negb (Ascii.eqb c Pyparsing.tab).

(** A comment that reads back as it is written: on one line, without tab,
    and not starting with whitespace. *)
Definition plain_comment (s : string) : bool :=
  one_line s && all_chars not_tab s
  && match s with
     | EmptyString => true
     | String c _ => negb (Pyparsing.is_white c)
     end.

(** An edge as a line writes it: the two words around the arrow, with a
    space before the arrow at least. *)
Definition edge_text (a b : string) (n m : nat) : string :=
  a ++ Pyparsing.spaces (S n) ++ "-->" ++ Pyparsing.spaces m ++ b.

(** The same with a comment behind the mark [::]. *)
Definition commented_edge_text (a b : string) (n m k j : nat)
  (comment : string) : string :=
  edge_text a b n m ++ Pyparsing.spaces k ++ "::" ++ Pyparsing.spaces j
  ++ comment.

(** [sub in s] *)
Fixpoint occurs (sub s : string) : bool :=
  match Pyparsing.match_prefix sub s with
  | Some _ => true
  | None =>
      match s with
      | EmptyString => false
      | String _ r => occurs sub r
      end
  end.

(** Neither a space nor a tab. *)
Definition black (c : ascii) : bool :=
  negb (Ascii.eqb c " ") && negb (Ascii.eqb c Pyparsing.tab).

(** The attributes [_handle_subgraph] gives the edge to a child. *)
Definition subgraph_relation : DiGraph.edge_data :=
  {| DiGraph.e_comment := None; DiGraph.e_label := None;
     DiGraph.e_is_subgraph_relation := true |}.

(** The children a subgraph statement names: the pieces of its data that
    are not empty. *)
Definition children_of (data : string) : list string :=
  filter Text.nonempty (Text.re_split_comma data).

(** The edges to the children, added one after the other. *)
Definition add_children (n : string) (children : list string) (G : DiGraph.t)
  : DiGraph.t :=
  fold_left (fun G child => DiGraph.add_edge n child subgraph_relation G)
    children G.

(** [G.node[n].update(subgraph=True, label=...)] on a node that is there. *)
Definition mark_subgraph (n : string) (label : option string) (G : DiGraph.t)
  : DiGraph.t :=
  {| DiGraph._node :=
       Dict.set n
         (DiGraph.update_node_data
            (Dict.get_default n DiGraph.no_node_data (DiGraph._node G))
            {| DiGraph.n_subgraph := true; DiGraph.n_label := label |})
         (DiGraph._node G);
     DiGraph._succ := DiGraph._succ G |}.

(** The directives no edge may stand under. *)
Definition node_directives : list string :=
  ["subgraph"; "allPaths"; "ancestors"; "descendants"].

(** What networkx keeps true of a [DiGraph], in full: besides
    [well_formed], the nodes are listed once and [_node] and [_succ] have
    the same keys. *)
Definition consistent (G : DiGraph.t) : bool :=
  well_formed G
  && nodupb (Dict.keys (DiGraph._node G))
  && forallb (fun x => Dict.mem x (DiGraph._succ G)) (Dict.keys (DiGraph._node G)).

Definition consistent_prop (G : DiGraph.t) : Prop :=
  wf_prop G /\ NoDup (Dict.keys (DiGraph._node G)) /\
  forall x, Dict.mem x (DiGraph._node G) = Dict.mem x (DiGraph._succ G).

(** The statement of the line [..subgraph: first, First: a, second]. *)
Definition first_subgraph : statement :=
  {| st_directive := Some "subgraph"; st_start := None; st_end := None;
     st_node := Some "first"; st_label := Some "First";
     st_data := Some "a, second"; st_comment := None |}.

(** *** What the build pass never takes back *)

(** The attributes of an edge or of a node that are set stay set. *)
Definition edge_kept (d d' : DiGraph.edge_data) : Prop :=
  (DiGraph.e_is_subgraph_relation d = true ->
   DiGraph.e_is_subgraph_relation d' = true) /\
  (DiGraph.e_comment d <> None -> DiGraph.e_comment d' <> None) /\
  (DiGraph.e_label d <> None -> DiGraph.e_label d' <> None).

Definition node_kept (d d' : DiGraph.node_data) : Prop :=
  (DiGraph.n_subgraph d = true -> DiGraph.n_subgraph d' = true) /\
  (DiGraph.n_label d <> None -> DiGraph.n_label d' <> None).

Definition prefix_of {A} (l l' : list A) : Prop :=
  exists more, l' = (l ++ more)%list.

(** Every node and every edge of [G] is in [G']. *)
Definition digraph_grows (G G' : DiGraph.t) : Prop :=
  (forall x d, Dict.get x (DiGraph._node G) = Some d ->
     exists d', Dict.get x (DiGraph._node G') = Some d' /\ node_kept d d') /\
  (forall u v d, DiGraph.get_edge_data G u v = Some d ->
     exists d', DiGraph.get_edge_data G' u v = Some d' /\ edge_kept d d').

(** [G'] holds what [G] holds: the nodes and the edges, the graph
    attributes and the fragments of every edge in their order, and an entry
    of [node_attrs] for every node that had one. *)
Definition grows (G G' : Graph) : Prop :=
  digraph_grows (g G) (g G') /\
  prefix_of (graph_attrs G) (graph_attrs G') /\
  (forall a b, prefix_of (edge_attrs_lookup a b (edge_attrs G))
                 (edge_attrs_lookup a b (edge_attrs G'))) /\
  (forall x, Dict.mem x (node_attrs G) = true ->
             Dict.mem x (node_attrs G') = true).

(** *** The parts of a document *)

(** The edges [render_dot] draws: all but the subgraph relations. *)
Definition drawn_edges (es : list (string * string * DiGraph.edge_data))
  : list (string * string * DiGraph.edge_data) :=
  filter (fun '(_, _, d) => negb (DiGraph.e_is_subgraph_relation d)) es.

(** Their lines, in the order of [G.edges()]. *)
Definition edge_texts (G : Graph) : list string :=
  map (fun '(a, b, d) =>
         edge_line a b d (edge_attrs_lookup a b (edge_attrs G)))
    (drawn_edges (DiGraph.edges (g G))).

(** The lines of the nodes no cluster has taken, in the order of
    [G.nodes()]. *)
Definition node_texts (G : Graph) (already_visited : list string)
  : list string :=
  map (render_node G)
    (filter (fun n => negb (mem_str n already_visited)
                      && should_include_node G n)
       (DiGraph.nodes (g G))).

(** [node] is marked as a subgraph. *)
Definition is_subgraph (G : Graph) (node : string) : bool :=
  match Dict.get node (DiGraph._node (g G)) with
  | Some d => DiGraph.n_subgraph d
  | None => false
  end.



(** A cluster inside a cluster with an edge to itself. *)
Definition looping_lines : list string :=
  ["..subgraph: a: b"; "..subgraph: b: x"; "b --> b"].

(** A nested call of [render_subgraph] that cannot get past [root]: while
    [root] is not visited it runs out of depth, or it is called on a node
    that has no edge to [root] and returns with [root] still unvisited. *)
Definition stuck_on (G : Graph) (root : string)
  (recurse : string -> list string -> result (string * list string)) : Prop :=
  forall r visited,
    DiGraph.has_node (g G) r = true -> mem_str root visited = false ->
    recurse r visited = Raise RecursionError
    \/ (~ In root (DiGraph.successors (g G) r) /\
        exists text visited',
          recurse r visited = Ok (text, visited') /\
          mem_str root visited' = false).

(** The statement of the line [..attr: graph: rankdir=LR :: sideways]. *)
Definition graph_attr_statement_example : statement :=
  {| st_directive := Some "attr"; st_start := None; st_end := None;
     st_node := Some "graph"; st_label := None;
     st_data := Some "rankdir=LR "; st_comment := Some "sideways" |}.

(** *** Graphs without subgraphs *)

(** No statement of the lines is a subgraph statement. *)
Definition no_subgraph_statement (lines : list string) : bool :=
  forallb
    (fun line =>
       forallb
         (fun s =>
            match st_directive s with
            | Some d => negb (String.eqb d "subgraph")
            | None => true
            end)
         (search_for_statements line))
    lines.

(** No edge is a subgraph relation, and every node is an end of some
    edge. *)
Definition plain_graph (G : DiGraph.t) : Prop :=
  (forall u v d, DiGraph.get_edge_data G u v = Some d ->
                 DiGraph.e_is_subgraph_relation d = false) /\
  (forall n, DiGraph.has_node G n = true ->
             (exists v d, DiGraph.get_edge_data G n v = Some d)
             \/ (exists u d, DiGraph.get_edge_data G u n = Some d)).

(** Lines with edges and attributes and no subgraph. *)
Definition plain_example : list string :=
  ["a --> b"; "..attr: b --> c, Label: color=red :: why";
   "..attr: a: shape=box"].

(** The graph of the line [..subgraph: s: x]: a cluster and its one
    member, which no ordinary edge touches. *)
Definition lone_member_graph : Graph :=
  snd (from_lines ["..subgraph: s: x"] false).

(** *** A directive on a node, written out *)

(** Data that reads back as it is written: as a plain comment, and
    without the mark [::] of a comment. *)
Definition plain_data (data : string) : bool :=
  plain_comment data && negb (occurs "::" data).

Definition node_directive_text (d n data : string) (k j : nat) : string :=
  ".." ++ d ++ ":" ++ Pyparsing.spaces k ++ n ++ ":" ++ Pyparsing.spaces j
  ++ data.

Definition node_directive (d n data : string) : statement :=
  {| st_directive := Some d; st_start := None; st_end := None;
     st_node := Some n; st_label := None; st_data := Some data;
     st_comment := None |}.

(* ===================================================================== *)
(** * Properties *)
(* ===================================================================== *)

(** ** Dictionaries *)

Section DictFacts.
Context {V : Type}.
Implicit Types (d : dict V) (k : string) (v : V).

Lemma get_set_same k v d : Dict.get k (Dict.set k v d) = Some v.
Proof.
  induction d as [|[k' v'] r IH]; simpl.
  - now rewrite String.eqb_refl.
  - destruct (String.eqb k k') eqn:E; simpl; rewrite ?String.eqb_refl, ?E; auto.
Qed.

Lemma get_set_other k k' v d :
  k' <> k -> Dict.get k' (Dict.set k v d) = Dict.get k' d.
Proof.
  intros Hne. induction d as [|[k0 v0] r IH]; simpl.
  - destruct (String.eqb_spec k' k); congruence.
  - destruct (String.eqb_spec k k0) as [->|Hk]; simpl.
    + destruct (String.eqb_spec k' k0); congruence.
    + destruct (String.eqb_spec k' k0); auto.
Qed.

Lemma set_get_same k v d : Dict.get k d = Some v -> Dict.set k v d = d.
Proof.
  induction d as [|[k' v'] r IH]; simpl; [discriminate|].
  destruct (String.eqb_spec k k') as [->|Hk]; intros H.
  - now inversion H.
  - now rewrite IH.
Qed.

Lemma get_default_set_same k v dflt d :
  Dict.get_default k dflt (Dict.set k v d) = v.
Proof. unfold Dict.get_default. now rewrite get_set_same. Qed.

Lemma get_default_set_other k k' v dflt d :
  k' <> k ->
  Dict.get_default k' dflt (Dict.set k v d) = Dict.get_default k' dflt d.
Proof. intros. unfold Dict.get_default. now rewrite get_set_other. Qed.

Lemma mem_set_same k v d : Dict.mem k (Dict.set k v d) = true.
Proof. unfold Dict.mem. now rewrite get_set_same. Qed.

Lemma mem_set_other k k' v d :
  k' <> k -> Dict.mem k' (Dict.set k v d) = Dict.mem k' d.
Proof. intros. unfold Dict.mem. now rewrite get_set_other. Qed.

Lemma mem_set_mono k k' v d :
  Dict.mem k' d = true -> Dict.mem k' (Dict.set k v d) = true.
Proof.
  intros H. destruct (String.eqb_spec k' k) as [->|Hne].
  - apply mem_set_same.
  - now rewrite mem_set_other.
Qed.

End DictFacts.

(** ** The builder *)

(** Reading [edge_attrs[a][b]] stores what it returns; the value read at
    any pair afterwards is what it was. *)
Lemma edge_attrs_lookup_store_same a b l ea :
  edge_attrs_lookup a b (edge_attrs_store a b l ea) = l.
Proof.
  unfold edge_attrs_lookup, edge_attrs_store.
  now rewrite !get_default_set_same.
Qed.

Lemma edge_attrs_lookup_store_other a b a' b' l ea :
  (a', b') <> (a, b) ->
  edge_attrs_lookup a' b' (edge_attrs_store a b l ea) = edge_attrs_lookup a' b' ea.
Proof.
  intros Hne. unfold edge_attrs_lookup, edge_attrs_store.
  destruct (String.eqb_spec a' a) as [->|Ha].
  - rewrite get_default_set_same.
    rewrite get_default_set_other; [reflexivity|congruence].
  - now rewrite get_default_set_other.
Qed.

(** The edge data after [add_edge]. *)
Lemma get_succ_add_missing_node u w G :
  Dict.get w (DiGraph._succ (DiGraph.add_missing_node u G)) =
  match Dict.get w (DiGraph._succ G) with
  | Some nbrs => Some nbrs
  | None => if String.eqb w u then Some [] else None
  end.
Proof.
  unfold DiGraph.add_missing_node, Dict.mem.
  destruct (Dict.get u (DiGraph._succ G)) eqn:E; simpl.
  - destruct (Dict.get w (DiGraph._succ G)) eqn:Ew; auto.
    destruct (String.eqb_spec w u); congruence.
  - destruct (String.eqb_spec w u) as [->|Hne].
    + now rewrite get_set_same, E.
    + rewrite get_set_other by auto.
      now destruct (Dict.get w (DiGraph._succ G)).
Qed.

Lemma get_edge_data_add_edge u v attr G :
  DiGraph.get_edge_data (DiGraph.add_edge u v attr G) u v =
  Some (DiGraph.update_edge_data
          (match DiGraph.get_edge_data G u v with
           | Some old => old
           | None => DiGraph.no_edge_data
           end) attr).
Proof.
  unfold DiGraph.get_edge_data, DiGraph.add_edge. simpl.
  rewrite get_set_same, get_set_same. f_equal. f_equal.
  unfold Dict.get_default.
  rewrite !get_succ_add_missing_node.
  destruct (Dict.get u (DiGraph._succ G)) as [nbrs|] eqn:E.
  - reflexivity.
  - rewrite String.eqb_refl. destruct (String.eqb u v); reflexivity.
Qed.

Lemma set_set_same {V} k (v1 v2 : V) d :
  Dict.set k v2 (Dict.set k v1 d) = Dict.set k v2 d.
Proof.
  induction d as [|[k' v'] r IH]; simpl.
  - now rewrite String.eqb_refl.
  - destruct (String.eqb k k') eqn:E; simpl; rewrite ?String.eqb_refl, ?E; auto.
    now rewrite IH.
Qed.

(** A loop whose body cannot raise does not raise. *)
Lemma for_each_total {S A} (l : list A) (body : A -> M S unit) :
  (forall x s, exists s', body x s = (Ok tt, s')) ->
  forall s, exists s', for_each l body s = (Ok tt, s').
Proof.
  intros Hbody. induction l as [|x r IH]; intros s; simpl.
  - now exists s.
  - unfold bind. destruct (Hbody x s) as [s1 ->]. apply IH.
Qed.

Ltac run_monad := unfold bind, modify, ret, raise, gets, getitem in *; simpl in *.

(** What [include_statement] can raise: the [ValueError] of an edge with
    a directive other than [attr], or a [KeyError]. *)
Lemma include_statement_raises statement G e G' :
  include_statement statement G = (Raise e, G') ->
  (exists start directive,
      st_start statement = Some start /\
      st_directive statement = Some directive /\ directive <> "attr" /\
      e = ValueError (edge_error_message directive) /\ G' = G)
  \/ (exists key, e = KeyError key).
Proof.
  unfold include_statement.
  destruct (st_start statement) as [start|] eqn:Hs.
  - unfold _handle_edge_statement, edge_attrs_extend, edge_attrs_getitem.
    rewrite Hs.
    destruct (st_directive statement) as [d|] eqn:Hd.
    + destruct (String.eqb_spec d "attr") as [->|Hne]; run_monad.
      * destruct (st_end statement); simpl.
        -- destruct (Text.truthy (st_data statement)); simpl; discriminate.
        -- intros H; inversion H; right; eauto.
      * intros H; inversion H; subst. left. exists start, d. auto.
    + run_monad. destruct (st_end statement); simpl.
      * destruct (Text.truthy (st_data statement)); simpl; discriminate.
      * intros H; inversion H; right; eauto.
  - unfold _handle_node_statement.
    destruct (st_directive statement) as [d|]; run_monad;
      [|intros H; inversion H; right; eauto].
    destruct (st_node statement) as [n|] eqn:Hn; simpl;
      [|intros H; inversion H; right; eauto].
    destruct (String.eqb d "subgraph").
    + unfold _handle_subgraph. run_monad.
      destruct (st_data statement) as [da|]; simpl;
        [|intros H; inversion H; right; eauto].
      rewrite Hn; simpl.
      match goal with
      | |- context [for_each ?l ?b G] =>
          destruct (for_each_total l b) with (s := G) as [G1 ->]
      end.
      { intros x s. destruct (Text.nonempty x); simpl; eauto. }
      destruct (Dict.get n (DiGraph._node (g G1))); simpl.
      * discriminate.
      * intros H; inversion H; right; eauto.
    + destruct (String.eqb d "attr"); [|discriminate].
      destruct (String.eqb n "graph").
      * destruct (st_data statement); simpl;
          [discriminate|intros H; inversion H; right; eauto].
      * destruct (st_data statement); simpl;
          [|intros H; inversion H; right; eauto].
        destruct (Text.truthy (st_comment statement)); simpl; discriminate.
Qed.

(** An edge statement whose directive is missing or [attr] is applied:
    the edge is added or updated, and non-empty data is appended to the
    fragments of the pair. *)
Lemma _handle_edge_statement_ok statement G start end_ :
  st_start statement = Some start ->
  st_end statement = Some end_ ->
  st_directive statement = None \/ st_directive statement = Some "attr" ->
  include_statement statement G =
  (Ok tt,
   let kwargs :=
     {| DiGraph.e_comment := Text.truthy (st_comment statement);
        DiGraph.e_label := Text.truthy (st_label statement);
        DiGraph.e_is_subgraph_relation := false |} in
   set_g (DiGraph.add_edge start end_ kwargs)
     (match Text.truthy (st_data statement) with
      | Some data =>
          set_edge_attrs
            (fun ea =>
               edge_attrs_store start end_
                 (extend (edge_attrs_lookup start end_ ea)
                    (Text.split ";" (Text.strip data)))
                 (edge_attrs_store start end_
                    (edge_attrs_lookup start end_ ea) ea)) G
      | None => G
      end)).
Proof.
  intros Hs He Hd. unfold include_statement, _handle_edge_statement, bind.
  rewrite Hs, He.
  assert (Hdir :
    match st_directive statement with
    | Some directive =>
        if negb (String.eqb directive "attr")
        then raise (S := Graph) (A := unit)
               (ValueError (edge_error_message directive))
        else ret tt
    | None => ret tt
    end G = (Ok tt, G)).
  { destruct Hd as [-> | ->]; reflexivity. }
  rewrite Hdir. simpl.
  destruct (Text.truthy (st_data statement)); reflexivity.
Qed.

(** ** Claims about the builder *)

(** C3. A statement that is not edge-shaped can fail all the same:
    the line [..subgraph: lonely: ,] scans to one subgraph statement with
    no child, and applying it to a fresh graph raises [KeyError] at
    [self.g.node[subgraph_id]], where the claim has the application
    succeed. The graph is left as it was. *)
Theorem subgraph_without_children_raises_KeyError :
  search_for_statements "..subgraph: lonely: ," = [lonely_subgraph] /\
  st_start lonely_subgraph = None /\
  include_statement lonely_subgraph (Graph_init false)
  = (Raise (KeyError "lonely"), Graph_init false).
Proof. repeat split; vm_compute; reflexivity. Qed.

(** C10. An edge-shaped statement whose directive is present and is not
    [attr] raises the error before anything is mutated: the state the
    failed call leaves is the state it was given, every field of it. *)
Theorem edge_statement_error_is_atomic
  (G : Graph) (statement : statement) (start directive : string) :
  st_start statement = Some start ->
  st_directive statement = Some directive ->
  directive <> "attr" ->
  include_statement statement G
  = (Raise (ValueError (edge_error_message directive)), G).
Proof.
  intros Hs Hd Hne. unfold include_statement, _handle_edge_statement.
  rewrite Hs, Hd. apply String.eqb_neq in Hne. rewrite Hne. reflexivity.
Qed.

Lemma edge_statement_error_is_atomic_witness :
  include_statement subgraph_on_edge (Graph_init false)
  = (Raise (ValueError (edge_error_message "subgraph")), Graph_init false).
Proof.
  apply (edge_statement_error_is_atomic (Graph_init false) subgraph_on_edge
           "a" "subgraph"); [reflexivity | reflexivity | discriminate].
Defined.

(** C4 fails: after the line [a --> b :: first], the statement [a --> b]
    leaves the comment of the edge in place. *)
Lemma later_statement_keeps_earlier_comment :
  let G := snd (from_lines ["a --> b :: first"] false) in
  search_for_statements "a --> b" = [bare_edge "a" "b"] /\
  DiGraph.get_edge_data
    (g (snd (include_statement (bare_edge "a" "b") G))) "a" "b"
  = Some {| DiGraph.e_comment := Some "first"; DiGraph.e_label := None;
            DiGraph.e_is_subgraph_relation := false |} /\
  ~ later_statement_replaces_metadata G (bare_edge "a" "b").
Proof.
  split; [reflexivity|]. split; [reflexivity|].
  intros H.
  specialize (H "a" "b"
    {| DiGraph.e_comment := Some "first"; DiGraph.e_label := None;
       DiGraph.e_is_subgraph_relation := false |}
    eq_refl eq_refl eq_refl).
  vm_compute in H. discriminate.
Qed.

(** C4, amended. A later edge statement for a pair that has an edge
    updates the data of the edge: a non-empty comment or label of the
    statement replaces the earlier one, a field the statement does not
    carry keeps its earlier value, and the subgraph mark stays. *)
Theorem later_edge_statement_updates_metadata
  (G : Graph) (statement : statement) (start end_ : string)
  (old : DiGraph.edge_data) :
  st_start statement = Some start ->
  st_end statement = Some end_ ->
  st_directive statement = None \/ st_directive statement = Some "attr" ->
  DiGraph.get_edge_data (g G) start end_ = Some old ->
  exists G',
    include_statement statement G = (Ok tt, G') /\
    DiGraph.get_edge_data (g G') start end_
    = Some {| DiGraph.e_comment :=
                match Text.truthy (st_comment statement) with
                | Some c => Some c
                | None => DiGraph.e_comment old
                end;
              DiGraph.e_label :=
                match Text.truthy (st_label statement) with
                | Some l => Some l
                | None => DiGraph.e_label old
                end;
              DiGraph.e_is_subgraph_relation :=
                DiGraph.e_is_subgraph_relation old |}.
Proof.
  intros Hs He Hd Hold.
  eexists. split; [apply (_handle_edge_statement_ok _ _ _ _ Hs He Hd)|].
  cbv zeta.
  assert (Hg : forall f G0, g (set_g f G0) = f (g G0)) by reflexivity.
  rewrite Hg.
  assert (Hg' : g (match Text.truthy (st_data statement) with
                   | Some data =>
                       set_edge_attrs
                         (fun ea =>
                            edge_attrs_store start end_
                              (extend (edge_attrs_lookup start end_ ea)
                                 (Text.split ";" (Text.strip data)))
                              (edge_attrs_store start end_
                                 (edge_attrs_lookup start end_ ea) ea)) G
                   | None => G
                   end) = g G).
  { destruct (Text.truthy (st_data statement)); reflexivity. }
  rewrite Hg', get_edge_data_add_edge, Hold. reflexivity.
Qed.

Lemma later_edge_statement_updates_metadata_witness :
  exists G',
    include_statement (bare_edge "a" "b")
      (snd (from_lines ["a --> b :: first"] false)) = (Ok tt, G') /\
    DiGraph.get_edge_data (g G') "a" "b"
    = Some {| DiGraph.e_comment := Some "first"; DiGraph.e_label := None;
              DiGraph.e_is_subgraph_relation := false |}.
Proof.
  apply (later_edge_statement_updates_metadata
           (snd (from_lines ["a --> b :: first"] false)) (bare_edge "a" "b")
           "a" "b"
           {| DiGraph.e_comment := Some "first"; DiGraph.e_label := None;
              DiGraph.e_is_subgraph_relation := false |});
    [reflexivity | reflexivity | left; reflexivity | reflexivity].
Defined.

(** C5. An [attr] statement on a node other than [graph] sets
    [node_attrs[node]] to the data of the statement, whatever was there
    before; when the statement carries a (non-empty) comment, the value set
    is [tooltip=] and the JSON text of the comment, followed at once by the
    data. Nothing else of the graph changes. *)
Theorem attr_statement_sets_node_attrs
  (G : Graph) (statement : statement) (node_id data : string) :
  st_start statement = None ->
  st_directive statement = Some "attr" ->
  st_node statement = Some node_id ->
  node_id <> "graph" ->
  st_data statement = Some data ->
  let value :=
    match Text.truthy (st_comment statement) with
    | Some comment => "tooltip=" ++ Text.json_dumps comment ++ data
    | None => data
    end in
  include_statement statement G
  = (Ok tt, set_node_attrs (Dict.set node_id value) G) /\
  Dict.get node_id (node_attrs (snd (include_statement statement G)))
  = Some value /\
  (forall other, other <> node_id ->
     Dict.get other (node_attrs (snd (include_statement statement G)))
     = Dict.get other (node_attrs G)).
Proof.
  intros Hs Hd Hn Hne Hdata value.
  assert (Hrun : include_statement statement G
                 = (Ok tt, set_node_attrs (Dict.set node_id value) G)).
  { unfold include_statement, _handle_node_statement. rewrite Hs, Hd, Hn.
    run_monad. apply String.eqb_neq in Hne. rewrite Hne, Hdata. simpl.
    subst value. destruct (Text.truthy (st_comment statement)); simpl.
    - unfold set_node_attrs; simpl. now rewrite set_set_same.
    - reflexivity. }
  rewrite Hrun. simpl. split; [reflexivity|]. split.
  - apply get_set_same.
  - intros other Ho. now apply get_set_other.
Qed.

Lemma attr_statement_sets_node_attrs_witness :
  Dict.get "n"
    (node_attrs
       (snd (include_statement attr_with_comment
               (snd (from_lines ["..attr: n: shape=box"] false)))))
  = Some ("tooltip=" ++ Text.json_dumps "why" ++ "color=red ").
Proof.
  apply (attr_statement_sets_node_attrs
           (snd (from_lines ["..attr: n: shape=box"] false))
           attr_with_comment "n" "color=red ");
    [reflexivity | reflexivity | reflexivity | discriminate | reflexivity].
Defined.

(** C6. An [attr] statement on the edge [(start, end)] with non-empty
    data appends the pieces of the stripped data, cut at each [;], after
    the fragments [edge_attrs[start][end]] already holds; the fragments of
    every other pair stay as they are. *)
Theorem attr_edge_statement_appends_fragments
  (G : Graph) (statement : statement) (start end_ data : string) :
  st_start statement = Some start ->
  st_end statement = Some end_ ->
  st_directive statement = Some "attr" ->
  st_data statement = Some data ->
  data <> "" ->
  exists G',
    include_statement statement G = (Ok tt, G') /\
    edge_attrs_lookup start end_ (edge_attrs G')
    = (edge_attrs_lookup start end_ (edge_attrs G)
       ++ Text.split ";" (Text.strip data))%list /\
    (forall a b, (a, b) <> (start, end_) ->
       edge_attrs_lookup a b (edge_attrs G')
       = edge_attrs_lookup a b (edge_attrs G)).
Proof.
  intros Hs He Hd Hdata Hne.
  eexists. split.
  { apply (_handle_edge_statement_ok _ _ _ _ Hs He). now right. }
  rewrite Hdata. destruct data as [|c r]; [congruence|]. simpl Text.truthy.
  cbv zeta. split.
  - simpl. now rewrite edge_attrs_lookup_store_same.
  - intros a b Hab. simpl.
    now rewrite !edge_attrs_lookup_store_other.
Qed.

Lemma attr_edge_statement_appends_fragments_witness :
  exists G',
    include_statement (attr_on_edge "style=dashed; ")
      (snd (from_lines ["..attr: a --> b: fill=red"] false)) = (Ok tt, G') /\
    edge_attrs_lookup "a" "b" (edge_attrs G')
    = ["fill=red"; "style=dashed"; ""] /\
    (forall a b, (a, b) <> ("a", "b") ->
       edge_attrs_lookup a b (edge_attrs G')
       = edge_attrs_lookup a b
           (edge_attrs (snd (from_lines ["..attr: a --> b: fill=red"] false)))).
Proof.
  apply (attr_edge_statement_appends_fragments
           (snd (from_lines ["..attr: a --> b: fill=red"] false))
           (attr_on_edge "style=dashed; ") "a" "b" "style=dashed; ");
    [reflexivity | reflexivity | reflexivity | reflexivity | discriminate].
Defined.

(** ** The scanner *)

Import Pyparsing.

Lemma preParse_spaces n r : preParse (spaces n ++ r) = preParse r.
Proof. induction n; simpl; auto. Qed.

Lemma expandtabs_from_spaces n col r :
  expandtabs_from col (spaces n ++ r) = spaces n ++ expandtabs_from (col + n) r.
Proof.
  revert col. induction n as [|n IH]; intros col; simpl.
  - now rewrite Nat.add_0_r.
  - rewrite IH. now rewrite Nat.add_succ_r.
Qed.

Lemma expandtabs_spaced_edge n m tail :
  expandtabs (spaced_edge n m tail)
  = "edge1" ++ spaces (S n) ++ "-->" ++ spaces (S m) ++ "edge2"
    ++ expandtabs_from (S n + S m + 13) tail.
Proof.
  unfold expandtabs, spaced_edge. simpl.
  rewrite expandtabs_from_spaces. simpl.
  rewrite expandtabs_from_spaces. simpl.
  repeat f_equal. lia.
Qed.

Lemma edge_of_spaced_edge n m tail :
  Grammar.edge ("edge1" ++ spaces (S n) ++ "-->" ++ spaces (S m) ++ "edge2"
                ++ String " " tail)
  = Some (bare_edge "edge1" "edge2", String " " tail) /\
  Grammar.edge ("edge1" ++ spaces (S n) ++ "-->" ++ spaces (S m) ++ "edge2")
  = Some (bare_edge "edge1" "edge2", "").
Proof.
  unfold Grammar.edge, And, Grammar.Identifier, named, Suppress, Word, Literal.
  split; simpl; rewrite preParse_spaces; simpl; rewrite preParse_spaces;
    reflexivity.
Qed.

(** A line that the parser reads whole from its first character gives
    one statement. *)
Lemma scanString_single (p : ParserElement) (s : string) (t : ParseResults) :
  preParse s = s -> s <> "" -> p s = Some (t, "") -> p "" = None ->
  scanString_rounds (S (String.length s)) p s = [t].
Proof.
  intros Hpre Hne Hp Hnil. destruct s as [|c r]; [congruence|].
  cbn [scanString_rounds String.length]. rewrite Hpre, Hp.
  cbn [String.length Nat.ltb Nat.leb preParse]. now rewrite Hnil.
Qed.

(** C9. The scanner on the examples of the specification: a bare edge, a
    bare edge with a comment, an [attr] directive on a node; and the two
    edge results again for every number of extra spaces before and after
    the arrow. *)
Theorem scanner_examples :
  search_for_statements "edge1 --> edge2" = [bare_edge "edge1" "edge2"] /\
  search_for_statements "edge1 --> edge2 :: comment goes here"
  = [edge_with_comment "edge1" "edge2" "comment goes here"] /\
  search_for_statements "..attr: nodeName: attrs"
  = [attr_on_node "nodeName" "attrs"] /\
  (forall n m : nat,
      search_for_statements (spaced_edge n m "")
      = [bare_edge "edge1" "edge2"]) /\
  (forall n m : nat,
      search_for_statements (spaced_edge n m " :: comment goes here")
      = [edge_with_comment "edge1" "edge2" "comment goes here"]).
Proof.
  split; [reflexivity|]. split; [reflexivity|]. split; [reflexivity|].
  split; intros n m; unfold search_for_statements, searchString;
    rewrite expandtabs_spaced_edge.
  - destruct (edge_of_spaced_edge n m "") as [_ He].
    apply scanString_single; try reflexivity; try discriminate.
    unfold Grammar.parser, Grammar.edgeSpec, MatchFirst.
    change (Grammar.directive _) with (@None (ParseResults * string)).
    unfold And at 1. simpl in He |- *. rewrite He. reflexivity.
  - destruct (edge_of_spaced_edge n m ":: comment goes here") as [He _].
    apply scanString_single; try reflexivity; try discriminate.
    unfold Grammar.parser, Grammar.edgeSpec, MatchFirst.
    change (Grammar.directive _) with (@None (ParseResults * string)).
    unfold And at 1. simpl in He |- *. rewrite He. reflexivity.
Qed.

(** ** Rendering: what it reads and what it leaves *)

Lemma edge_lines_ext es f f' dot :
  (forall a b, f a b = f' a b) -> edge_lines es f dot = edge_lines es f' dot.
Proof.
  intros Hf. revert dot. induction es as [|[[a b] d] r IH]; intros dot; simpl.
  - reflexivity.
  - now rewrite Hf, IH.
Qed.

Lemma edge_attrs_lookup_vivify_step a b a' b' ea :
  edge_attrs_lookup a' b' (edge_attrs_store a b (edge_attrs_lookup a b ea) ea)
  = edge_attrs_lookup a' b' ea.
Proof.
  destruct (String.eqb_spec a' a) as [->|Ha];
    [destruct (String.eqb_spec b' b) as [->|Hb]|].
  - apply edge_attrs_lookup_store_same.
  - apply edge_attrs_lookup_store_other. congruence.
  - apply edge_attrs_lookup_store_other. congruence.
Qed.

Lemma edge_attrs_lookup_vivify es a b ea :
  edge_attrs_lookup a b (vivify es ea) = edge_attrs_lookup a b ea.
Proof.
  revert ea. induction es as [|[[a0 b0] d] r IH]; intros ea; simpl.
  - reflexivity.
  - rewrite IH. destruct (DiGraph.e_is_subgraph_relation d); auto.
    apply edge_attrs_lookup_vivify_step.
Qed.

Lemma render_edges_spec es dot G :
  render_edges es dot G
  = (Ok (edge_lines es (fun a b => edge_attrs_lookup a b (edge_attrs G)) dot),
     set_edge_attrs (vivify es) G).
Proof.
  revert dot G. induction es as [|[[a b] d] r IH]; intros dot G.
  - destruct G; reflexivity.
  - simpl. unfold bind, render_edge.
    destruct (DiGraph.e_is_subgraph_relation d) eqn:Hd.
    + unfold ret. rewrite IH. reflexivity.
    + unfold edge_attrs_getitem, bind, ret. rewrite IH. f_equal.
      f_equal. apply edge_lines_ext. intros a' b'. simpl.
      apply edge_attrs_lookup_vivify_step.
Qed.

Lemma get_default_get {V} k (v dflt : V) d :
  Dict.get k d = Some v -> Dict.get_default k dflt d = v.
Proof. intros H. unfold Dict.get_default. now rewrite H. Qed.

Lemma store_vivified_id a b ea :
  vivified a b ea ->
  edge_attrs_store a b (edge_attrs_lookup a b ea) ea = ea.
Proof.
  intros (inner & l & Ha & Hb).
  unfold edge_attrs_store, edge_attrs_lookup.
  rewrite (get_default_get a inner [] ea Ha).
  rewrite (get_default_get b l [] inner Hb).
  rewrite (set_get_same _ _ _ Hb). now apply set_get_same.
Qed.

Lemma vivified_store a b l ea : vivified a b (edge_attrs_store a b l ea).
Proof.
  unfold vivified, edge_attrs_store. eexists. eexists.
  split; apply get_set_same.
Qed.

Lemma vivified_store_other a b a' b' l ea :
  vivified a b ea -> vivified a b (edge_attrs_store a' b' l ea).
Proof.
  intros (inner & l0 & Ha & Hb). unfold vivified, edge_attrs_store.
  destruct (String.eqb_spec a a') as [->|Hne].
  - rewrite get_set_same. eexists.
    rewrite (get_default_get a' inner [] ea Ha).
    destruct (String.eqb_spec b b') as [->|Hb'].
    + exists l. split; [reflexivity|apply get_set_same].
    + exists l0. split; [reflexivity|]. now rewrite get_set_other.
  - rewrite get_set_other by auto. eauto.
Qed.

Lemma vivified_vivify es a b ea : vivified a b ea -> vivified a b (vivify es ea).
Proof.
  revert ea. induction es as [|[[a0 b0] d] r IH]; intros ea H; simpl; auto.
  apply IH. destruct (DiGraph.e_is_subgraph_relation d); auto.
  now apply vivified_store_other.
Qed.

Lemma all_vivified_vivify es ea : all_vivified es (vivify es ea).
Proof.
  revert ea. induction es as [|[[a0 b0] d0] r IH]; intros ea a b d Hin Hd.
  - destruct Hin.
  - destruct Hin as [Heq|Hin].
    + inversion Heq; subst. simpl. rewrite Hd.
      apply vivified_vivify, vivified_store.
    + simpl. now apply (IH _ a b d).
Qed.

Lemma vivify_id es ea : all_vivified es ea -> vivify es ea = ea.
Proof.
  induction es as [|[[a b] d] r IH]; intros H; simpl; auto.
  destruct (DiGraph.e_is_subgraph_relation d) eqn:Hd.
  - apply IH. intros ? ? ? Hin. apply H. now right.
  - rewrite store_vivified_id.
    + apply IH. intros ? ? ? Hin. apply H. now right.
    + apply (H a b d); auto. now left.
Qed.

Lemma check_forest_spec sg G : check_forest sg G = (forest_check sg, G).
Proof.
  unfold check_forest, forest_check.
  destruct (0 <? DiGraph.len sg)%nat; [|reflexivity].
  unfold bind, call. destruct (Algorithms.is_forest sg) as [[|]|e]; reflexivity.
Qed.

Lemma call_spec {A} (r : result A) G : call r G = (r, G).
Proof. destruct r; reflexivity. Qed.

(** Without style specs the three loops do nothing. *)
Lemma resolve_styles_nil G :
  ascendant_styles G = [] -> descendant_styles G = [] -> path_styles G = [] ->
  resolve_styles G = (Ok tt, G).
Proof.
  intros Ha Hd Hp. unfold resolve_styles, bind, gets.
  rewrite Ha. simpl. rewrite Hd. simpl. rewrite Hp. reflexivity.
Qed.

Section SameView.

Variables G G' : Graph.
Hypothesis Hview : same_but_edge_attrs G G'.

Lemma node_dict_view n : node_dict G' n = node_dict G n.
Proof. unfold node_dict. destruct Hview as (-> & _). reflexivity. Qed.

Lemma render_node_view n : render_node G' n = render_node G n.
Proof.
  unfold render_node. destruct Hview as (_ & _ & _ & _ & -> & _). reflexivity.
Qed.

Lemma should_include_node_view n :
  should_include_node G' n = should_include_node G n.
Proof.
  unfold should_include_node. destruct Hview as (-> & _ & -> & _). reflexivity.
Qed.

Lemma render_children_view recurse recurse' children dot visited :
  (forall n v, recurse' n v = recurse n v) ->
  render_children G' recurse' children dot visited
  = render_children G recurse children dot visited.
Proof.
  intros Hrec. revert dot visited.
  induction children as [|child rest IH]; intros dot visited; simpl.
  - reflexivity.
  - rewrite node_dict_view, should_include_node_view, render_node_view, Hrec.
    destruct (mem_str child visited); [apply IH|].
    destruct (node_dict G child) as [d|e]; [|reflexivity].
    destruct (DiGraph.n_subgraph d); [|apply IH].
    destruct (recurse child visited) as [[subsub visited']|e]; [apply IH|reflexivity].
Qed.

Lemma render_subgraph_view depth root visited :
  render_subgraph depth G' root visited = render_subgraph depth G root visited.
Proof.
  revert root visited. induction depth as [|depth IH]; intros root visited.
  - reflexivity.
  - simpl. rewrite node_dict_view.
    destruct Hview as (Hg & _ & _ & _ & Hna & _). rewrite Hg, Hna.
    destruct (node_dict G root) as [d|e]; [|reflexivity].
    apply render_children_view. apply IH.
Qed.

Lemma render_clusters_view depth order dot visited :
  render_clusters depth G' order dot visited
  = render_clusters depth G order dot visited.
Proof.
  revert dot visited. induction order as [|node rest IH]; intros dot visited.
  - reflexivity.
  - simpl. rewrite node_dict_view, render_subgraph_view.
    destruct (mem_str node visited); [apply IH|].
    destruct (node_dict G node) as [d|e]; [|reflexivity].
    destruct (DiGraph.n_subgraph d); [|apply IH].
    destruct (render_subgraph depth G node (append visited node))
      as [[text visited']|e]; [apply IH|reflexivity].
Qed.

Lemma render_remaining_nodes_view visited dot :
  render_remaining_nodes G' visited dot = render_remaining_nodes G visited dot.
Proof.
  unfold render_remaining_nodes.
  destruct Hview as (Hg & _). rewrite Hg.
  revert dot. induction (DiGraph.nodes (g G)) as [|n r IH]; intros dot; simpl.
  - reflexivity.
  - rewrite should_include_node_view, render_node_view. apply IH.
Qed.

End SameView.

Lemma same_but_edge_attrs_set f G : same_but_edge_attrs G (set_edge_attrs f G).
Proof. repeat split. Qed.

Lemma render_dot_without_style_specs depth G :
  ascendant_styles G = [] -> descendant_styles G = [] -> path_styles G = [] ->
  render_dot depth G
  = (document depth G,
     match document depth G with
     | Ok _ => set_edge_attrs (vivify (DiGraph.edges (g G))) G
     | Raise _ => G
     end).
Proof.
  intros Ha Hd Hp. unfold render_dot, document, opening_lines.
  unfold bind at 1. unfold gets at 1.
  unfold bind at 1. unfold gets at 1.
  unfold bind at 1. rewrite check_forest_spec.
  destruct (forest_check (subgraph_relations (g G))) as [[]|e]; [|reflexivity].
  unfold bind at 1. rewrite (resolve_styles_nil G Ha Hd Hp).
  unfold bind at 1. rewrite call_spec.
  destruct (Algorithms.topological_sort (subgraph_relations (g G)))
    as [order|e]; [|reflexivity].
  unfold bind at 1. unfold gets at 1.
  unfold bind at 1. rewrite call_spec.
  match goal with |- context [render_clusters depth G order ?d []] =>
    destruct (render_clusters depth G order d []) as [[dot visited]|e]
  end; [|destruct (graph_attrs G); reflexivity].
  unfold bind at 1. rewrite render_edges_spec.
  unfold bind, gets, ret.
  rewrite (render_remaining_nodes_view G _ (same_but_edge_attrs_set _ G)).
  reflexivity.
Qed.

(** ** Claims about rendering twice *)

Lemma document_view depth G f :
  document depth (set_edge_attrs (fun ea => vivify f ea) G) = document depth G.
Proof.
  unfold document.
  change (g (set_edge_attrs (fun ea => vivify f ea) G)) with (g G).
  destruct (forest_check (subgraph_relations (g G))) as [[]|e]; [|reflexivity].
  destruct (Algorithms.topological_sort (subgraph_relations (g G)))
    as [order|e]; [|reflexivity].
  rewrite (render_clusters_view G _ (same_but_edge_attrs_set _ G)).
  change (opening_lines (set_edge_attrs (fun ea => vivify f ea) G))
    with (opening_lines G).
  destruct (render_clusters depth G order (opening_lines G) [])
    as [[dot visited]|e]; [|reflexivity].
  rewrite (render_remaining_nodes_view G _ (same_but_edge_attrs_set _ G)).
  f_equal. f_equal. f_equal. f_equal.
  apply edge_lines_ext. intros a b. simpl. apply edge_attrs_lookup_vivify.
Qed.

Lemma vivify_twice es G :
  set_edge_attrs (vivify es) (set_edge_attrs (vivify es) G)
  = set_edge_attrs (vivify es) G.
Proof.
  unfold set_edge_attrs; simpl. f_equal.
  apply vivify_id, all_vivified_vivify.
Qed.

(** Rendering again the state a rendering without style specs left. *)
Lemma render_again depth G text :
  ascendant_styles G = [] -> descendant_styles G = [] -> path_styles G = [] ->
  document depth G = Ok text ->
  let G1 := set_edge_attrs (vivify (DiGraph.edges (g G))) G in
  render_dot depth G1 = (Ok text, G1).
Proof.
  intros Ha Hd Hp Hdoc G1. subst G1.
  rewrite render_dot_without_style_specs by assumption.
  rewrite document_view, Hdoc. f_equal. apply vivify_twice.
Qed.

(** A graph whose three style lists are empty, once rendered, renders again
    to the same document and changes no more; the first rendering changes
    [edge_attrs] only, by storing the entry of each edge it draws, and
    changes no fragment list that can be read there. *)
Lemma render_twice_without_style_specs
  (depth : nat) (G G1 : Graph) (text : string) :
  ascendant_styles G = [] -> descendant_styles G = [] -> path_styles G = [] ->
  render_dot depth G = (Ok text, G1) ->
  render_dot depth G1 = (Ok text, G1) /\
  same_but_edge_attrs G G1 /\
  edge_attrs G1 = vivify (DiGraph.edges (g G)) (edge_attrs G) /\
  (forall a b,
      edge_attrs_lookup a b (edge_attrs G1)
      = edge_attrs_lookup a b (edge_attrs G)).
Proof.
  intros Ha Hd Hp Hrun.
  rewrite (render_dot_without_style_specs depth G Ha Hd Hp) in Hrun.
  destruct (document depth G) as [text'|e] eqn:Hdoc; [|discriminate].
  inversion Hrun; subst text' G1; clear Hrun.
  split; [|split; [|split]].
  - now apply render_again.
  - apply same_but_edge_attrs_set.
  - reflexivity.
  - intros a b. simpl. apply edge_attrs_lookup_vivify.
Qed.

Lemma for_each_preserves {S A} (P : S -> Prop) (l : list A)
  (body : A -> M S unit) :
  (forall x s, P s -> P (snd (body x s))) ->
  forall s, P s -> P (snd (for_each l body s)).
Proof.
  intros Hbody. induction l as [|x r IH]; intros s Hs; simpl; auto.
  unfold bind. specialize (Hbody x s Hs).
  destruct (body x s) as [[[]|e] s']; simpl in *; auto.
Qed.

Lemma include_statement_no_style_specs statement G :
  no_style_specs G -> no_style_specs (snd (include_statement statement G)).
Proof.
  intros H. unfold include_statement.
  destruct (st_start statement) as [start|] eqn:Hs.
  - unfold _handle_edge_statement, edge_attrs_extend, edge_attrs_getitem.
    rewrite Hs. run_monad.
    destruct (st_directive statement) as [d|]; simpl;
      [destruct (negb (String.eqb d "attr")); simpl; auto|];
      (destruct (st_end statement); simpl; auto;
       destruct (Text.truthy (st_data statement)); simpl; auto).
  - unfold _handle_node_statement. run_monad.
    destruct (st_directive statement) as [d|]; simpl; auto.
    destruct (st_node statement) as [n|] eqn:Hn; simpl; auto.
    destruct (String.eqb d "subgraph").
    + unfold _handle_subgraph. run_monad.
      destruct (st_data statement) as [da|]; simpl; auto.
      rewrite Hn; simpl.
      match goal with
      | |- context [for_each ?l ?b G] =>
          pose proof (for_each_preserves no_style_specs l b) as Hloop;
          destruct (for_each l b G) as [[[]|e] G1] eqn:Hrun
      end; simpl.
      * assert (HG1 : no_style_specs G1).
        { change G1 with (snd (Ok tt, G1)). rewrite <- Hrun. apply Hloop; auto.
          intros x s Hs'. destruct (Text.nonempty x); simpl; auto. }
        destruct (Dict.get n (DiGraph._node (g G1))); simpl; auto.
      * change G1 with (snd (@Raise unit e, G1)). rewrite <- Hrun.
        apply Hloop; auto.
        intros x s Hs'. destruct (Text.nonempty x); simpl; auto.
    + destruct (String.eqb d "attr"); simpl; auto.
      destruct (String.eqb n "graph");
        destruct (st_data statement); simpl; auto.
      destruct (Text.truthy (st_comment statement)); simpl; auto.
Qed.

Lemma from_lines_no_style_specs lines include_everything :
  no_style_specs (snd (from_lines lines include_everything)).
Proof.
  unfold from_lines. apply for_each_preserves.
  - intros line s Hs. unfold include_line. apply for_each_preserves; auto.
    intros st s' Hs'. now apply include_statement_no_style_specs.
  - repeat split.
Qed.

(** C2, amended. Every graph the build pass makes, once rendered, renders
    again to the same document, and the state the first rendering left
    stays as it is. The first rendering is not read-only: it leaves
    [node_attrs] and every other field but [edge_attrs] as the build pass
    left them, and in [edge_attrs] it stores the entry of each edge it
    draws, without changing a fragment list that can be read there. *)
Theorem built_graph_renders_twice
  (lines : list string) (include_everything : bool) (depth : nat)
  (text : string) (G1 : Graph) :
  render_dot depth (snd (from_lines lines include_everything)) = (Ok text, G1) ->
  render_dot depth G1 = (Ok text, G1) /\
  same_but_edge_attrs (snd (from_lines lines include_everything)) G1 /\
  edge_attrs G1
  = vivify (DiGraph.edges (g (snd (from_lines lines include_everything))))
      (edge_attrs (snd (from_lines lines include_everything))) /\
  (forall a b,
      edge_attrs_lookup a b (edge_attrs G1)
      = edge_attrs_lookup a b
          (edge_attrs (snd (from_lines lines include_everything)))).
Proof.
  intros Hrun.
  destruct (from_lines_no_style_specs lines include_everything)
    as (Ha & Hd & Hp).
  exact (render_twice_without_style_specs depth _ G1 text Ha Hd Hp Hrun).
Qed.

Lemma built_graph_renders_twice_witness :
  let G := snd (from_lines test_lines false) in
  let first := render_dot 1000 G in
  render_dot 1000 (snd first) = (Ok (text_of (fst first)), snd first) /\
  same_but_edge_attrs G (snd first) /\
  edge_attrs (snd first) = vivify (DiGraph.edges (g G)) (edge_attrs G) /\
  (forall a b,
      edge_attrs_lookup a b (edge_attrs (snd first))
      = edge_attrs_lookup a b (edge_attrs G)).
Proof.
  apply (built_graph_renders_twice test_lines false 1000
           (text_of (fst (render_dot 1000 (snd (from_lines test_lines false)))))
           (snd (render_dot 1000 (snd (from_lines test_lines false))))).
  vm_compute. reflexivity.
Defined.

(** C2 fails on a built graph. The line [a --> b] builds without error a
    graph with no style spec, so the style loops leave it as it is, and with
    nothing in [edge_attrs]. Its first rendering returns a document and
    leaves in [edge_attrs] the empty entry of the edge, stored by the read
    of [edge_attrs[a][b]] in the loop over the edges, after the style
    loops: the rendering has changed a field other than [node_attrs]. *)
Lemma first_rendering_stores_edge_entry :
  let first := render_dot 1000 one_edge_graph in
  from_lines ["a --> b"] false = (Ok tt, one_edge_graph) /\
  resolve_styles one_edge_graph = (Ok tt, one_edge_graph) /\
  (exists text, fst first = Ok text) /\
  node_attrs (snd first) = node_attrs one_edge_graph /\
  edge_attrs one_edge_graph = [] /\
  edge_attrs (snd first) = [("a", [("b", [])])] /\
  ~ renders_read_only 1000 one_edge_graph.
Proof.
  cbv zeta. split; [reflexivity|]. split; [reflexivity|].
  split; [eexists; vm_compute; reflexivity|].
  split; [reflexivity|]. split; [reflexivity|]. split; [reflexivity|].
  intros H.
  specialize (H (text_of (fst (render_dot 1000 one_edge_graph)))
                (snd (render_dot 1000 one_edge_graph))).
  assert (Hfirst : render_dot 1000 one_edge_graph
                   = (Ok (text_of (fst (render_dot 1000 one_edge_graph))),
                      snd (render_dot 1000 one_edge_graph)))
    by (vm_compute; reflexivity).
  destruct (H Hfirst) as (_ & _ & _ & _ & Hea & _).
  vm_compute in Hea. discriminate.
Qed.

(** The style loops have no guard to run them once. On a graph that holds
    a style spec, which no statement of the build pass records, each
    rendering prepends the style to the attributes of [a] once more, and
    the second document is not the first. *)
Example second_rendering_styles_again :
  let first := render_dot 1000 styled_graph in
  let second := render_dot 1000 (snd first) in
  Dict.get "a" (node_attrs (snd first)) = Some (filled "pink" ++ ";") /\
  Dict.get "a" (node_attrs (snd second))
  = Some (filled "pink" ++ ";" ++ filled "pink" ++ ";") /\
  (exists text1 text2,
      fst first = Ok text1 /\ fst second = Ok text2 /\ text1 <> text2) /\
  ~ renders_twice_alike 1000 styled_graph.
Proof.
  cbv zeta. split; [reflexivity|]. split; [reflexivity|]. split.
  - eexists. eexists. split; [vm_compute; reflexivity|].
    split; [vm_compute; reflexivity|]. discriminate.
  - intros H.
    specialize (H (text_of (fst (render_dot 1000 styled_graph)))
                  (snd (render_dot 1000 styled_graph))).
    assert (Hfirst : render_dot 1000 styled_graph
                     = (Ok (text_of (fst (render_dot 1000 styled_graph))),
                        snd (render_dot 1000 styled_graph)))
      by (vm_compute; reflexivity).
    specialize (H Hfirst). vm_compute in H. discriminate.
Qed.

(** ** Claims about the forest check *)

(** C1. A node with two subgraph parents does not make rendering fail.
    The lines [..subgraph: a: c], [..subgraph: b: c] and [..subgraph: c: x]
    build without error; in the subgraph relations [c] has the two parents
    [a] and [b]; [is_forest] accepts them, as one weakly connected
    component of four nodes and three edges; and [render_dot] returns a
    document, with the cluster of [c] inside that of [b], where the claim
    has it raise the error. *)
Theorem two_subgraph_parents_render (depth : nat) :
  let built := from_lines two_parents false in
  let relations := subgraph_relations (g (snd built)) in
  fst built = Ok tt /\
  DiGraph.predecessors relations "c" = ["a"; "b"] /\
  Algorithms.is_forest relations = Ok true /\
  fst (render_dot (S (S depth)) (snd built)) = Ok two_parents_document.
Proof. repeat split; vm_compute; reflexivity. Qed.

(** The error of [render_dot] is raised exactly on a non-empty set of
    subgraph relations that [is_forest] rejects, and before anything is
    mutated. *)
Lemma forest_check_error sg :
  forest_check sg = Raise (ValueError forest_error_message)
  <-> (0 < DiGraph.len sg /\ Algorithms.is_forest sg = Ok false).
Proof.
  unfold forest_check, Algorithms.is_forest.
  destruct (Nat.ltb_spec 0 (DiGraph.len sg)) as [Hlen|Hlen].
  - destruct (Nat.eqb_spec (DiGraph.len sg) 0) as [Hz|Hz]; [lia|].
    destruct (forallb _ _); simpl; split.
    + discriminate.
    + intros [_ H]; discriminate.
    + auto.
    + reflexivity.
  - split; [discriminate|]. intros [H _]. lia.
Qed.

(** ** What [render_dot] raises *)

Lemma raises_only_ret {S A} P (a : A) : raises_only (S := S) P (ret a).
Proof. intros s e s' H. discriminate. Qed.

Lemma raises_only_modify {S} P (f : S -> S) : raises_only P (modify f).
Proof. intros s e s' H. discriminate. Qed.

Lemma raises_only_gets {S A} P (f : S -> A) : raises_only P (gets f).
Proof. intros s e s' H. discriminate. Qed.

Lemma raises_only_bind {S A B} P (m : M S A) (k : A -> M S B) :
  raises_only P m -> (forall a, raises_only P (k a)) ->
  raises_only P (bind m k).
Proof.
  intros Hm Hk s e s' H. unfold bind in H.
  destruct (m s) as [[a|e0] s0] eqn:Hrun.
  - exact (Hk a s0 e s' H).
  - inversion H; subst. exact (Hm s e s' Hrun).
Qed.

Lemma raises_only_for_each {S A} P (l : list A) (body : A -> M S unit) :
  (forall x, raises_only P (body x)) -> raises_only P (for_each l body).
Proof.
  intros Hbody. induction l as [|x r IH]; simpl.
  - apply raises_only_ret.
  - apply raises_only_bind; auto.
Qed.

Lemma raises_only_call {A} P (r : result A) :
  (forall e, r = Raise e -> P e) -> raises_only P (call r).
Proof.
  intros Hr s e s' H. destruct r as [a|e0]; [discriminate|].
  inversion H; subst. now apply Hr.
Qed.

Lemma resolve_styles_raises : raises_only not_ValueError resolve_styles.
Proof.
  assert (Hprepend : forall attrs nodes,
             raises_only not_ValueError (for_each nodes (prepend_style attrs))).
  { intros attrs nodes. apply raises_only_for_each. intros x.
    apply raises_only_modify. }
  assert (Hgroups : forall A (m : option A),
             raises_only not_ValueError (groups m)).
  { intros A [x|] s e s' H; [discriminate|]. inversion H. exact I. }
  unfold resolve_styles.
  repeat (apply raises_only_bind; [|intros ?]);
    try apply raises_only_gets; apply raises_only_for_each; intros spec.
  - unfold apply_ancestor_spec. apply raises_only_bind; [apply Hgroups|].
    intros [node_id attrs]. apply raises_only_bind; [apply raises_only_gets|].
    intros G. apply raises_only_bind; [|intros nodes; apply Hprepend].
    apply raises_only_call. unfold Algorithms.ancestors.
    intros e. destruct (DiGraph.has_node G node_id); [discriminate|].
    intros H; inversion H; exact I.
  - unfold apply_descendant_spec. apply raises_only_bind; [apply Hgroups|].
    intros [node_id attrs]. apply raises_only_bind; [apply raises_only_gets|].
    intros G. apply raises_only_bind; [|intros nodes; apply Hprepend].
    apply raises_only_call. unfold Algorithms.descendants.
    intros e. destruct (DiGraph.has_node G node_id); [discriminate|].
    intros H; inversion H; exact I.
  - unfold apply_path_spec. apply raises_only_bind; [apply Hgroups|].
    intros [[start end_] attrs].
    apply raises_only_bind; [apply raises_only_gets|].
    intros G. apply raises_only_bind.
    + apply raises_only_call.
      unfold Algorithms.all_shortest_paths, Algorithms.predecessor.
      intros e. destruct (DiGraph.has_node G start).
      * destruct (negb _); [|discriminate]. intros H; inversion H; exact I.
      * intros H; inversion H; exact I.
    + intros paths. apply raises_only_for_each. intros p. apply Hprepend.
Qed.

Lemma release_child_raises child st e :
  Algorithms.release_child child st = Raise e ->
  st = Raise e \/ e = RuntimeError.
Proof.
  unfold Algorithms.release_child. destruct st as [[m z]|e0].
  - destruct (Dict.get child m) as [d|].
    + destruct (d - 1 =? 0)%nat; discriminate.
    + intros H; inversion H; auto.
  - intros H; inversion H; auto.
Qed.

Lemma release_children_raises children st e :
  fold_left (fun st child => Algorithms.release_child child st) children st
  = Raise e ->
  st = Raise e \/ e = RuntimeError.
Proof.
  revert st. induction children as [|c r IH]; intros st H; simpl in H; auto.
  apply IH in H. destruct H as [H|H]; auto.
  now apply release_child_raises in H.
Qed.

Lemma topological_sort_raises G e :
  Algorithms.topological_sort G = Raise e -> not_ValueError e.
Proof.
  unfold Algorithms.topological_sort.
  generalize (DiGraph.len G) at 1. intros rounds.
  match goal with |- Algorithms.topological_rounds _ _ ?m ?z = _ -> _ =>
    generalize m, z
  end.
  induction rounds as [|rounds IH]; intros m z; simpl.
  - destruct z; [destruct m|]; intros H; inversion H; exact I.
  - destruct z as [|node stack].
    + destruct m; intros H; inversion H; exact I.
    + destruct (fold_left _ _ _) as [[m' z']|e0] eqn:Hfold.
      * destruct (Algorithms.topological_rounds rounds G m' z') eqn:Hrec;
          [discriminate|].
        intros H; inversion H; subst. exact (IH _ _ Hrec).
      * intros H; inversion H; subst.
        apply release_children_raises in Hfold.
        destruct Hfold as [Hfold | ->]; [discriminate|exact I].
Qed.

Lemma node_dict_raises G n e : node_dict G n = Raise e -> not_ValueError e.
Proof.
  unfold node_dict. destruct (Dict.get n _); [discriminate|].
  intros H; inversion H; exact I.
Qed.

Lemma render_children_raises G recurse :
  (forall n v e, recurse n v = Raise e -> not_ValueError e) ->
  forall children dot visited e,
    render_children G recurse children dot visited = Raise e ->
    not_ValueError e.
Proof.
  intros Hrec children. induction children as [|c r IH];
    intros dot visited e; simpl; [discriminate|].
  destruct (mem_str c visited); [apply IH|].
  destruct (node_dict G c) as [d|e0] eqn:Hd.
  - destruct (DiGraph.n_subgraph d); [|apply IH].
    destruct (recurse c visited) as [[subsub visited']|e0] eqn:Hr; [apply IH|].
    intros H; inversion H; subst. exact (Hrec _ _ _ Hr).
  - intros H; inversion H; subst. exact (node_dict_raises _ _ _ Hd).
Qed.

Lemma render_subgraph_raises depth G :
  forall root visited e,
    render_subgraph depth G root visited = Raise e -> not_ValueError e.
Proof.
  induction depth as [|depth IH]; intros root visited e; simpl.
  - intros H; inversion H; exact I.
  - destruct (node_dict G root) as [d|e0] eqn:Hd.
    + apply render_children_raises. exact IH.
    + intros H; inversion H; subst. exact (node_dict_raises _ _ _ Hd).
Qed.

Lemma render_clusters_raises depth G order :
  forall dot visited e,
    render_clusters depth G order dot visited = Raise e -> not_ValueError e.
Proof.
  induction order as [|node rest IH]; intros dot visited e; simpl;
    [discriminate|].
  destruct (mem_str node visited); [apply IH|].
  destruct (node_dict G node) as [d|e0] eqn:Hd.
  - destruct (DiGraph.n_subgraph d); [|apply IH].
    destruct (render_subgraph depth G node (append visited node))
      as [[text visited']|e0] eqn:Hr; [apply IH|].
    intros H; inversion H; subst. exact (render_subgraph_raises _ _ _ _ _ Hr).
  - intros H; inversion H; subst. exact (node_dict_raises _ _ _ Hd).
Qed.

(** The [ValueError] of [render_dot] is the one of the forest check, and
    it is raised exactly when the subgraph relations are not empty and
    [is_forest] rejects them; the state is then as it was. *)
Lemma render_dot_ValueError depth G msg :
  fst (render_dot depth G) = Raise (ValueError msg)
  <-> (msg = forest_error_message /\
       0 < DiGraph.len (subgraph_relations (g G)) /\
       Algorithms.is_forest (subgraph_relations (g G)) = Ok false).
Proof.
  rewrite <- forest_check_error.
  unfold render_dot.
  unfold bind at 1. unfold gets at 1.
  unfold bind at 1. unfold gets at 1.
  unfold bind at 1. rewrite check_forest_spec.
  destruct (forest_check (subgraph_relations (g G))) as [[]|e] eqn:Hcheck.
  - split; [|intros [_ H]; discriminate].
    intros H. exfalso.
    match type of H with fst (?m G) = _ =>
      assert (Hraise : raises_only not_ValueError m)
    end.
    { apply raises_only_bind; [apply resolve_styles_raises|intros _].
      apply raises_only_bind;
        [apply raises_only_call; apply topological_sort_raises|intros order].
      apply raises_only_bind; [apply raises_only_gets|intros self].
      apply raises_only_bind;
        [apply raises_only_call; apply render_clusters_raises|].
      intros [dot visited].
      apply raises_only_bind.
      - intros s e s' Hrun. rewrite render_edges_spec in Hrun. discriminate.
      - intros dot'. apply raises_only_bind; [apply raises_only_gets|].
        intros self'. apply raises_only_ret. }
    match type of H with fst (?m G) = _ => destruct (m G) as [r s] eqn:Hrun end.
    simpl in H. subst r. exact (Hraise _ _ _ Hrun).
  - simpl. split.
    + intros H. inversion H; subst.
      unfold forest_check in Hcheck.
      destruct (0 <? DiGraph.len (subgraph_relations (g G)))%nat; [|discriminate].
      unfold Algorithms.is_forest in Hcheck.
      destruct (DiGraph.len (subgraph_relations (g G)) =? 0)%nat;
        [discriminate|].
      destruct (forallb _ _); simpl in Hcheck; [discriminate|].
      inversion Hcheck. auto.
    + intros [-> H]. congruence.
Qed.

(** A cycle of subgraph relations is rejected. *)
Example subgraph_cycle_raises :
  fst (render_dot 1000
         (snd (from_lines ["..subgraph: a: b"; "..subgraph: b: c";
                           "..subgraph: c: a"] false)))
  = Raise (ValueError forest_error_message).
Proof. reflexivity. Qed.

(** ** Breadth-first search *)

Lemma mem_str_In x l : mem_str x l = true <-> In x l.
Proof.
  unfold mem_str. rewrite existsb_exists. split.
  - intros (y & Hy & E). apply String.eqb_eq in E. now subst.
  - intros H. exists x. split; auto. apply String.eqb_refl.
Qed.

Lemma mem_str_false x l : mem_str x l = false <-> ~ In x l.
Proof.
  rewrite <- mem_str_In. destruct (mem_str x l); split; congruence.
Qed.




Section BreadthFirstFacts.

Variable adj : string -> list string.

(** The nodes of the graph; a neighbour of a node is a node. *)
Variable universe : list string.
Hypothesis adj_closed :
  forall v, In v universe -> incl (adj v) universe.



End BreadthFirstFacts.

(** ** Well-formed graphs and reachability in them *)

Lemma nodupb_NoDup l : nodupb l = true -> NoDup l.
Proof.
  induction l as [|x r IH]; simpl; intros H; constructor.
  - apply andb_prop in H. destruct H as [H _].
    apply negb_true_iff, mem_str_false in H. exact H.
  - apply IH. now apply andb_prop in H.
Qed.

Section DictMembership.
Context {V : Type}.
Implicit Types (d : dict V).

Lemma get_In k v d : Dict.get k d = Some v -> In (k, v) d.
Proof.
  induction d as [|[k' v'] r IH]; simpl; [discriminate|].
  destruct (String.eqb_spec k k') as [->|Hne]; intros H.
  - inversion H. now left.
  - right. auto.
Qed.

Lemma In_get_nodup k v d :
  NoDup (Dict.keys d) -> In (k, v) d -> Dict.get k d = Some v.
Proof.
  induction d as [|[k' v'] r IH]; simpl; intros Hnd Hin; [destruct Hin|].
  inversion Hnd as [|? ? Hnotin Hnd']; subst.
  destruct Hin as [Heq|Hin].
  - inversion Heq; subst. now rewrite String.eqb_refl.
  - destruct (String.eqb_spec k k') as [->|Hne]; auto.
    exfalso. apply Hnotin. change k' with (fst (k', v)). now apply in_map.
Qed.

Lemma mem_In_keys k d : Dict.mem k d = true <-> In k (Dict.keys d).
Proof.
  unfold Dict.mem. induction d as [|[k' v'] r IH]; simpl.
  - split; [discriminate|tauto].
  - destruct (String.eqb_spec k k') as [->|Hne].
    + split; auto.
    + rewrite IH. split; auto. intros [H|H]; auto. congruence.
Qed.

End DictMembership.

Section WellFormedFacts.

Variable G : DiGraph.t.
Hypothesis Hwf : well_formed G = true.

Lemma well_formed_nodup : NoDup (Dict.keys (DiGraph._succ G)).
Proof.
  unfold well_formed in Hwf. apply andb_prop in Hwf. now apply nodupb_NoDup.
Qed.

Lemma well_formed_entry_nodup u nbrs :
  In (u, nbrs) (DiGraph._succ G) -> NoDup (Dict.keys nbrs).
Proof.
  intros Hin. unfold well_formed in Hwf. apply andb_prop in Hwf.
  destruct Hwf as [_ Hall]. rewrite forallb_forall in Hall.
  specialize (Hall _ Hin). simpl in Hall. apply andb_prop in Hall.
  destruct Hall as [Hall _]. apply andb_prop in Hall.
  now apply nodupb_NoDup.
Qed.

Lemma well_formed_entry u nbrs :
  In (u, nbrs) (DiGraph._succ G) ->
  In u (DiGraph.nodes G) /\ incl (Dict.keys nbrs) (DiGraph.nodes G).
Proof.
  intros Hin. unfold well_formed in Hwf. apply andb_prop in Hwf.
  destruct Hwf as [_ Hall]. rewrite forallb_forall in Hall.
  specialize (Hall _ Hin). simpl in Hall. apply andb_prop in Hall.
  destruct Hall as [Hu Hnbrs]. apply andb_prop in Hu. destruct Hu as [Hu _].
  split.
  - now apply mem_In_keys.
  - intros v Hv. unfold Dict.keys in Hv. apply in_map_iff in Hv.
    destruct Hv as ([v' d] & <- & Hv). rewrite forallb_forall in Hnbrs.
    specialize (Hnbrs _ Hv). now apply mem_In_keys.
Qed.

Lemma In_successors u v :
  In v (DiGraph.successors G u) <->
  exists nbrs, Dict.get u (DiGraph._succ G) = Some nbrs /\ In v (Dict.keys nbrs).
Proof.
  unfold DiGraph.successors, Dict.get_default.
  destruct (Dict.get u (DiGraph._succ G)) as [nbrs|]; simpl.
  - split; eauto. intros (n & Hn & Hv). now inversion Hn; subst.
  - split; [tauto|]. intros (n & Hn & _). discriminate.
Qed.



Lemma successors_closed v : incl (DiGraph.successors G v) (DiGraph.nodes G).
Proof.
  intros w Hw. apply In_successors in Hw. destruct Hw as (nbrs & Hget & Hw).
  apply get_In in Hget. exact (proj2 (well_formed_entry _ _ Hget) w Hw).
Qed.

Lemma successors_nodup v : NoDup (DiGraph.successors G v).
Proof.
  unfold DiGraph.successors, Dict.get_default.
  destruct (Dict.get v (DiGraph._succ G)) as [nbrs|] eqn:Hget.
  - apply get_In in Hget. now apply (well_formed_entry_nodup _ _ Hget).
  - constructor.
Qed.







End WellFormedFacts.

(** ** The style loops *)

Lemma same_but_node_attrs_trans G1 G2 G3 :
  same_but_node_attrs G1 G2 -> same_but_node_attrs G2 G3 ->
  same_but_node_attrs G1 G3.
Proof.
  unfold same_but_node_attrs. intros H1 H2.
  destruct H1 as (? & ? & ? & ? & ? & ? & ? & ?).
  destruct H2 as (? & ? & ? & ? & ? & ? & ? & ?).
  repeat split; congruence.
Qed.

Lemma append_assoc (a b c : string) : (a ++ b) ++ c = a ++ b ++ c.
Proof. induction a; simpl; congruence. Qed.

Lemma copies_snoc k s : copies (S k) s = copies k s ++ s.
Proof.
  induction k as [|k IH]; simpl.
  - induction s; simpl; congruence.
  - simpl in IH. rewrite IH at 1. now rewrite append_assoc.
Qed.

(** The loop [for n in nodes: self.node_attrs[n] = attrs + ';' + ...]:
    every node gets the style once for each time the loop meets it. *)
Lemma prepend_loop attrs nodes G :
  exists G',
    for_each nodes (prepend_style attrs) G = (Ok tt, G') /\
    same_but_node_attrs G G' /\
    (forall n,
        Dict.get_default n "" (node_attrs G')
        = copies (count_occ string_dec nodes n) (attrs ++ ";")
          ++ Dict.get_default n "" (node_attrs G)).
Proof.
  revert G. induction nodes as [|x r IH]; intros G.
  - exists G. repeat split.
  - simpl for_each. unfold bind. unfold prepend_style at 1, modify.
    destruct (IH (set_node_attrs
                    (fun na => Dict.set x (attrs ++ ";" ++ Dict.get_default x "" na) na)
                    G)) as (G' & Hrun & Hsame & Hattrs).
    exists G'. split; [exact Hrun|]. split.
    + eapply same_but_node_attrs_trans; [|exact Hsame]. repeat split.
    + intros n. rewrite Hattrs. simpl node_attrs.
      cbn [count_occ]. destruct (string_dec x n) as [->|Hne].
      * rewrite get_default_set_same, copies_snoc.
        now rewrite !append_assoc.
      * rewrite get_default_set_other by congruence. reflexivity.
Qed.


(** ** Claims about the style specs *)





Lemma for_each_app {S A} (l1 l2 : list A) (body : A -> M S unit) s :
  for_each (l1 ++ l2)%list body s
  = bind (for_each l1 body) (fun _ => for_each l2 body) s.
Proof.
  revert s. induction l1 as [|x r IH]; intros s; simpl.
  - reflexivity.
  - unfold bind. destruct (body x s) as [[[]|e] s']; [|reflexivity].
    rewrite IH. reflexivity.
Qed.

Lemma for_each_nested {S A} (ls : list (list A)) (body : A -> M S unit) s :
  for_each ls (fun l => for_each l body) s = for_each (concat ls) body s.
Proof.
  revert s. induction ls as [|l r IH]; intros s; simpl.
  - reflexivity.
  - rewrite for_each_app. unfold bind.
    destruct (for_each l body s) as [[[]|e] s']; [|reflexivity]. apply IH.
Qed.

(** The loop over the paths and the nodes of each path. *)
Lemma styled_paths attrs (paths : list (list string)) G :
  exists G',
    for_each paths (fun nodes_in_path =>
      for_each nodes_in_path (prepend_style attrs)) G = (Ok tt, G') /\
    same_but_node_attrs G G' /\
    (forall n,
        Dict.get_default n "" (node_attrs G')
        = copies (count_occ string_dec (concat paths) n) (attrs ++ ";")
          ++ Dict.get_default n "" (node_attrs G)).
Proof.
  rewrite for_each_nested. apply prepend_loop.
Qed.


(** ** Shortest paths: one level of [networkx.predecessor] *)

Lemma keys_set_new {V} k (v : V) d :
  Dict.get k d = None -> Dict.keys (Dict.set k v d) = (Dict.keys d ++ [k])%list.
Proof.
  induction d as [|[k' v'] r IH]; simpl; auto.
  destruct (String.eqb_spec k k'); [discriminate|].
  intros H. simpl. now rewrite IH.
Qed.

Lemma keys_set_old {V} k (v v0 : V) d :
  Dict.get k d = Some v0 -> Dict.keys (Dict.set k v d) = Dict.keys d.
Proof.
  induction d as [|[k' v'] r IH]; simpl; [discriminate|].
  destruct (String.eqb_spec k k') as [->|Hne]; simpl; auto.
  intros H. now rewrite IH.
Qed.

Lemma get_None_keys {V} k (d : dict V) :
  Dict.get k d = None <-> ~ In k (Dict.keys d).
Proof.
  rewrite <- mem_In_keys. unfold Dict.mem.
  destruct (Dict.get k d); split; congruence.
Qed.

Lemma mem_str_app x l1 l2 :
  mem_str x (l1 ++ l2)%list = mem_str x l1 || mem_str x l2.
Proof. unfold mem_str. apply existsb_app. Qed.

Lemma pred_level_pairs G level thislevel st :
  Algorithms.pred_level G level thislevel st
  = fold_left (visit_pair level) (level_pairs G thislevel) st.
Proof.
  unfold Algorithms.pred_level, level_pairs. revert st.
  induction thislevel as [|v r IH]; intros st; simpl; auto.
  rewrite fold_left_app, <- IH. f_equal.
  generalize (DiGraph.successors G v). intros l. revert st.
  induction l as [|w l IHl]; intros st; simpl; auto.
Qed.

Section OneLevel.

Variable level : nat.
Variable seen : dict nat.
Variable pred : dict (list string).
Variable next0 : list string.

(** The nodes recorded so far are on lower levels, and they are the keys
    of [pred]. *)
Hypothesis seen_below : forall w d, Dict.get w seen = Some d -> d < level.
Hypothesis pred_keys : forall w, Dict.get w seen = None -> Dict.get w pred = None.

Lemma visit_pairs ps :
  exists seen' pred' news,
    fold_left (visit_pair level) ps (seen, pred, next0)
    = (seen', pred', (next0 ++ news)%list) /\
    (forall w,
        Dict.get w seen'
        = match Dict.get w seen with
          | Some d => Some d
          | None => if mem_str w (targets ps) then Some level else None
          end) /\
    (forall w, Dict.get w seen = None ->
               Dict.get w pred'
               = if mem_str w (targets ps) then Some (sources_of w ps)
                 else None) /\
    (forall w d, Dict.get w seen = Some d -> Dict.get w pred' = Dict.get w pred) /\
    NoDup news /\
    (forall w, In w news <-> Dict.get w seen = None /\ In w (targets ps)) /\
    Dict.keys seen' = (Dict.keys seen ++ news)%list.
Proof.
  induction ps as [|[v w0] ps IH] using rev_ind.
  - exists seen, pred, []. simpl. rewrite !app_nil_r.
    repeat split; try (simpl in *; tauto); try constructor;
      try (intros w; now destruct (Dict.get w seen));
      try (intros w Hw; now apply pred_keys).
  - destruct IH as (seen1 & pred1 & news & Hrun & Hseen & Hnew & Hold & Hnd & Hin & Hkeys).
    rewrite fold_left_app, Hrun. simpl. unfold visit_pair, Algorithms.pred_visit.
    simpl fst. simpl snd.
    assert (Htargets : forall w, mem_str w (targets (ps ++ [(v, w0)]))
                                 = mem_str w (targets ps) || String.eqb w w0).
    { intros w. unfold targets. rewrite map_app, mem_str_app. simpl.
      now rewrite orb_false_r. }
    assert (Hsources : forall w, sources_of w (ps ++ [(v, w0)])
                                 = (sources_of w ps
                                    ++ if String.eqb w0 w then [v] else [])%list).
    { intros w. unfold sources_of. rewrite filter_app, map_app. simpl.
      now destruct (String.eqb w0 w). }
    assert (Htargets_in : forall w,
               In w (targets (ps ++ [(v, w0)])) <-> In w (targets ps) \/ w = w0).
    { intros w. unfold targets. rewrite map_app, in_app_iff. simpl.
      intuition congruence. }
    destruct (Dict.get w0 seen1) as [l|] eqn:Hw0.
    + rewrite Hseen in Hw0.
      destruct (Nat.eqb_spec l level) as [->|Hl].
      * (* one more edge into a node of this level *)
        destruct (Dict.get w0 seen) as [d|] eqn:Hs0.
        { inversion Hw0; subst. apply seen_below in Hs0. lia. }
        destruct (mem_str w0 (targets ps)) eqn:Hm; [|discriminate].
        exists seen1, (Dict.set w0 (Dict.get_default w0 [] pred1 ++ [v])%list pred1), news.
        split; [reflexivity|].
        split; [|split; [|split; [|split; [exact Hnd|split; [|exact Hkeys]]]]].
        -- intros w. rewrite Hseen, Htargets.
           destruct (Dict.get w seen); auto.
           destruct (String.eqb_spec w w0) as [->|Hne].
           ++ now rewrite Hm.
           ++ now rewrite orb_false_r.
        -- intros w Hw. rewrite Htargets, Hsources.
           destruct (String.eqb_spec w w0) as [->|Hne].
           ++ rewrite get_set_same, Hm, String.eqb_refl. simpl.
              unfold Dict.get_default. rewrite (Hnew w0 Hw), Hm. reflexivity.
           ++ rewrite get_set_other by auto. rewrite (Hnew w Hw).
              rewrite orb_false_r.
              destruct (String.eqb_spec w0 w); [congruence|].
              now rewrite app_nil_r.
        -- intros w d Hw. rewrite get_set_other; [now apply (Hold w d)|].
           congruence.
        -- intros w. rewrite Hin, Htargets_in. apply mem_str_In in Hm.
           split; [tauto|]. intros [Hs [Ht| ->]]; tauto.
      * (* an edge into a node of a lower level *)
        destruct (Dict.get w0 seen) as [d|] eqn:Hs0.
        2:{ destruct (mem_str w0 (targets ps)); [|discriminate].
            inversion Hw0; congruence. }
        exists seen1, pred1, news.
        split; [reflexivity|].
        split; [|split; [|split; [exact Hold|split; [exact Hnd|split; [|exact Hkeys]]]]].
        -- intros w. rewrite Hseen, Htargets.
           destruct (Dict.get w seen) eqn:Hs; auto.
           destruct (String.eqb_spec w w0) as [->|Hne]; [congruence|].
           now rewrite orb_false_r.
        -- intros w Hw. rewrite Htargets, Hsources, (Hnew w Hw).
           destruct (String.eqb_spec w w0) as [->|Hne]; [congruence|].
           rewrite orb_false_r.
           destruct (String.eqb_spec w0 w); [congruence|].
           now rewrite app_nil_r.
        -- intros w. rewrite Hin, Htargets_in.
           split; [tauto|]. intros [Hs [Ht| ->]]; [tauto|congruence].
    + (* the first edge into a node: it joins this level *)
      rewrite Hseen in Hw0.
      destruct (Dict.get w0 seen) as [d|] eqn:Hs0; [discriminate|].
      destruct (mem_str w0 (targets ps)) eqn:Hm; [discriminate|].
      exists (Dict.set w0 level seen1), (Dict.set w0 [v] pred1), (news ++ [w0])%list.
      split; [now rewrite app_assoc|].
      split; [|split; [|split; [|split; [|split]]]].
      * intros w. rewrite Htargets.
        destruct (String.eqb_spec w w0) as [->|Hne].
        -- rewrite get_set_same, Hs0. now rewrite orb_true_r.
        -- rewrite get_set_other by auto. rewrite Hseen, orb_false_r. reflexivity.
      * intros w Hw. rewrite Htargets, Hsources.
        destruct (String.eqb_spec w w0) as [->|Hne].
        -- rewrite get_set_same, orb_true_r, String.eqb_refl.
           unfold sources_of.
           assert (Hnone : filter (fun pr => String.eqb (snd pr) w0) ps = []).
           { apply mem_str_false in Hm. clear -Hm. unfold targets in Hm.
             induction ps as [|[a b] r IH]; simpl in *; auto.
             destruct (String.eqb_spec b w0) as [->|Hne]; [tauto|].
             apply IH. tauto. }
           now rewrite Hnone.
        -- rewrite get_set_other by auto. rewrite (Hnew w Hw), orb_false_r.
           destruct (String.eqb_spec w0 w); [congruence|].
           now rewrite app_nil_r.
      * intros w d Hw. rewrite get_set_other; [now apply (Hold w d)|].
        congruence.
      * apply NoDup_app; auto.
        -- constructor; [intros []|constructor].
        -- intros a Ha [<-|[]]. apply Hin in Ha. destruct Ha as [_ Ha].
           apply mem_str_false in Hm. contradiction.
      * intros w. rewrite in_app_iff, Hin, Htargets_in. simpl.
        split.
        -- intros [[Hs Ht]|[<-|[]]]; auto.
        -- intros [Hs [Ht| ->]]; auto.
      * rewrite keys_set_new.
        -- now rewrite Hkeys, app_assoc.
        -- rewrite Hseen, Hs0, Hm. reflexivity.
Qed.

End OneLevel.

(** ** Shortest paths: the levels of the search *)

Lemma path_of_end adj x p y : path_of adj x p y -> exists q, p = (q ++ [y])%list.
Proof. intros H. destruct H; [now exists []|now exists p]. Qed.

Lemma path_of_positive adj x p y : path_of adj x p y -> 1 <= List.length p.
Proof.
  intros H. destruct H; simpl; [lia|]. rewrite length_app. simpl. lia.
Qed.

Lemma path_of_one adj x p y :
  path_of adj x p y -> List.length p = 1 -> p = [x] /\ y = x.
Proof.
  intros H Hlen. destruct H; auto.
  apply path_of_positive in H. rewrite length_app in Hlen. simpl in Hlen. lia.
Qed.

Lemma path_of_longer adj x p z :
  path_of adj x p z -> 2 <= List.length p ->
  exists q y, p = (q ++ [z])%list /\ path_of adj x q y /\ In z (adj y).
Proof.
  intros H Hlen. destruct H; simpl in Hlen; [lia|]. eauto.
Qed.

Lemma path_of_same_end adj x p y y' :
  path_of adj x p y -> path_of adj x p y' -> y = y'.
Proof.
  intros H H'. apply path_of_end in H, H'.
  destruct H as [q ->], H' as [q' Heq]. now apply app_inj_tail in Heq.
Qed.

Lemma sources_of_node v w succs :
  NoDup succs ->
  sources_of w (map (pair v) succs) = if mem_str w succs then [v] else [].
Proof.
  unfold sources_of. induction succs as [|a r IH]; intros Hnd; simpl; auto.
  inversion Hnd as [|? ? Hnotin Hnd']; subst.
  rewrite (String.eqb_sym w a).
  destruct (String.eqb_spec a w) as [->|Hne]; simpl.
  - rewrite IH by assumption. apply mem_str_false in Hnotin.
    now rewrite Hnotin.
  - now apply IH.
Qed.

Section Levels.

Variable G : DiGraph.t.
Hypothesis Hwf : well_formed G = true.
Variable source : string.

Let adj := DiGraph.successors G.

Lemma In_level_pairs thislevel v w :
  In (v, w) (level_pairs G thislevel) <-> In v thislevel /\ In w (adj v).
Proof.
  unfold level_pairs. rewrite in_flat_map. split.
  - intros (u & Hu & Hin). apply in_map_iff in Hin.
    destruct Hin as (w' & Heq & Hw). inversion Heq; subst. auto.
  - intros [Hv Hw]. exists v. split; auto. now apply in_map.
Qed.

Lemma In_targets_level thislevel w :
  In w (targets (level_pairs G thislevel))
  <-> exists v, In v thislevel /\ In w (adj v).
Proof.
  unfold targets. rewrite in_map_iff. split.
  - intros ([v w'] & Heq & Hin). simpl in Heq. subst.
    apply In_level_pairs in Hin. eauto.
  - intros (v & Hv & Hw). exists (v, w). split; auto.
    now apply In_level_pairs.
Qed.

Lemma sources_of_level thislevel w :
  sources_of w (level_pairs G thislevel)
  = filter (fun v => mem_str w (adj v)) thislevel.
Proof.
  unfold level_pairs. induction thislevel as [|v r IH]; simpl; auto.
  unfold sources_of in *. rewrite filter_app, map_app, IH.
  fold (sources_of w (map (pair v) (DiGraph.successors G v))).
  rewrite sources_of_node by (apply successors_nodup; exact Hwf).
  unfold adj. now destruct (mem_str w (DiGraph.successors G v)).
Qed.

Lemma levels_recorded_init :
  DiGraph.has_node G source = true ->
  levels_recorded G source 0 [(source, 0)] [(source, [])] [source].
Proof.
  intros Hsrc.
  assert (Hget : forall v d, Dict.get v [(source, 0)] = Some d ->
                             v = source /\ d = 0).
  { intros v d. simpl. destruct (String.eqb_spec v source); [|discriminate].
    intros H; inversion H; auto. }
  constructor.
  - simpl. constructor; [intros []|constructor].
  - intros v [<-|[]]. now apply mem_In_keys.
  - intros v d H. apply Hget in H. lia.
  - intros v d H. apply Hget in H. destruct H as [-> ->].
    exists [source]. split; [constructor|reflexivity].
  - intros v d q H Hq. apply Hget in H. destruct H as [-> ->].
    now apply path_of_positive in Hq.
  - intros q v Hq Hlen. pose proof (path_of_positive _ _ _ _ Hq).
    destruct (path_of_one _ _ _ _ Hq) as [_ ->]; [lia|].
    exists 0. simpl. now rewrite String.eqb_refl.
  - constructor; [intros []|constructor].
  - intros v. simpl. destruct (String.eqb_spec v source) as [->|Hne].
    + split; auto.
    + split; [intros [<-|[]]; congruence|discriminate].
  - intros v H. apply Hget in H. destruct H as [-> _].
    unfold Dict.get_default. simpl. now rewrite String.eqb_refl.
  - intros v d H. apply Hget in H. destruct H; discriminate.
  - intros v. unfold Dict.mem. simpl. now destruct (String.eqb v source).
Qed.

Lemma levels_recorded_step k seen pred nextlevel :
  levels_recorded G source k seen pred nextlevel ->
  exists seen' pred' nextlevel',
    Algorithms.pred_level G (S k) nextlevel (seen, pred, [])
    = (seen', pred', nextlevel') /\
    levels_recorded G source (S k) seen' pred' nextlevel' /\
    List.length seen' = List.length seen + List.length nextlevel'.
Proof.
  intros Hrec. rewrite pred_level_pairs.
  assert (Hbelow : forall w d, Dict.get w seen = Some d -> d < S k).
  { intros w d H. apply (rec_bound _ _ _ _ _ _ Hrec) in H. lia. }
  assert (Hkeys0 : forall w, Dict.get w seen = None -> Dict.get w pred = None).
  { intros w H. pose proof (rec_pred_keys _ _ _ _ _ _ Hrec w) as Hm.
    unfold Dict.mem in Hm. rewrite H in Hm.
    destruct (Dict.get w pred); [discriminate|reflexivity]. }
  destruct (visit_pairs (S k) seen pred [] Hbelow Hkeys0
              (level_pairs G nextlevel))
    as (seen' & pred' & news & Hrun & Hseen & Hnew & Hold & Hnd & Hin & Hkeys).
  exists seen', pred', news. split; [exact Hrun|].
  assert (Hkeep : forall v d, Dict.get v seen = Some d ->
                              Dict.get v seen' = Some d).
  { intros v d H. now rewrite Hseen, H. }
  assert (Hfrom : forall v d, Dict.get v seen' = Some d ->
            Dict.get v seen = Some d \/
            (Dict.get v seen = None /\ d = S k /\
             exists u, In u nextlevel /\ In v (adj u))).
  { intros v d H. rewrite Hseen in H.
    destruct (Dict.get v seen) as [d0|] eqn:Hv; [now left|].
    destruct (mem_str v (targets (level_pairs G nextlevel))) eqn:Hm;
      [|discriminate].
    inversion H; subst. right. repeat split; auto.
    apply mem_str_In in Hm. now apply In_targets_level in Hm. }
  assert (Hlower : forall v d, Dict.get v seen' = Some d -> d <> S k ->
                               Dict.get v seen = Some d).
  { intros v d H Hne. destruct (Hfrom v d H) as [|(_ & ? & _)]; [auto|lia]. }
  assert (Hjoin : forall u v, In u nextlevel -> In v (adj u) ->
                              exists d, Dict.get v seen' = Some d).
  { intros u v Hu Hv. rewrite Hseen.
    destruct (Dict.get v seen) as [d|]; [eauto|].
    assert (Hm : mem_str v (targets (level_pairs G nextlevel)) = true).
    { apply mem_str_In, In_targets_level. eauto. }
    rewrite Hm. eauto. }
  split.
  - constructor.
    + rewrite Hkeys. apply NoDup_app; auto.
      * exact (rec_nodup _ _ _ _ _ _ Hrec).
      * intros a Ha Hnews. apply Hin in Hnews. destruct Hnews as [Hnone _].
        apply get_None_keys in Hnone. contradiction.
    + rewrite Hkeys. intros a Ha. apply in_app_or in Ha. destruct Ha as [Ha|Ha].
      * exact (rec_nodes _ _ _ _ _ _ Hrec a Ha).
      * apply Hin in Ha. destruct Ha as [_ Ha].
        apply In_targets_level in Ha. destruct Ha as (u & _ & Hu).
        exact (successors_closed G Hwf u a Hu).
    + intros v d H. destruct (Hfrom v d H) as [Hv|(_ & -> & _)]; [|lia].
      apply (rec_bound _ _ _ _ _ _ Hrec) in Hv. lia.
    + intros v d H. destruct (Hfrom v d H) as [Hv|(_ & -> & u & Hu & Huv)].
      * exact (rec_path _ _ _ _ _ _ Hrec v d Hv).
      * apply (rec_next _ _ _ _ _ _ Hrec) in Hu.
        destruct (rec_path _ _ _ _ _ _ Hrec u k Hu) as (p & Hp & Hlen).
        exists (p ++ [v])%list. split; [now apply path_snoc with u|].
        rewrite length_app. simpl. lia.
    + intros v d q H Hq. destruct (Hfrom v d H) as [Hv|(Hnone & -> & _)].
      * exact (rec_min _ _ _ _ _ _ Hrec v d q Hv Hq).
      * destruct (Nat.le_gt_cases (List.length q) (S k)) as [Hle|Hgt]; [|lia].
        destruct (rec_all _ _ _ _ _ _ Hrec q v Hq Hle) as (d & Hd). congruence.
    + intros q v Hq Hlen.
      destruct (Nat.le_gt_cases (List.length q) (S k)) as [Hle|Hgt].
      * destruct (rec_all _ _ _ _ _ _ Hrec q v Hq Hle) as (d & Hd). eauto.
      * destruct (path_of_longer _ _ _ _ Hq) as (p & y & -> & Hp & Hy); [lia|].
        rewrite length_app in Hlen, Hgt. simpl in Hlen, Hgt.
        destruct (rec_all _ _ _ _ _ _ Hrec p y Hp) as (d & Hd); [lia|].
        pose proof (rec_min _ _ _ _ _ _ Hrec y d p Hd Hp) as Hmin.
        destruct (Nat.eq_dec d k) as [->|Hne].
        -- apply (rec_next _ _ _ _ _ _ Hrec) in Hd. eauto.
        -- destruct (rec_path _ _ _ _ _ _ Hrec y d Hd) as (p' & Hp' & Hlen').
           destruct (rec_all _ _ _ _ _ _ Hrec (p' ++ [v])%list v) as (d' & Hd').
           ++ now apply path_snoc with y.
           ++ rewrite length_app. simpl. lia.
           ++ eauto.
    + exact Hnd.
    + intros v. rewrite Hin. split.
      * intros [Hnone Ht]. rewrite Hseen, Hnone.
        apply mem_str_In in Ht. now rewrite Ht.
      * intros H. destruct (Hfrom v (S k) H) as [Hv|(Hnone & _ & u & Hu & Huv)].
        -- apply (rec_bound _ _ _ _ _ _ Hrec) in Hv. lia.
        -- split; auto. apply In_targets_level. eauto.
    + intros v H. apply Hlower in H; [|lia].
      unfold Dict.get_default. rewrite (Hold v 0 H).
      exact (rec_pred_zero _ _ _ _ _ _ Hrec v H).
    + intros v d H. destruct (Hfrom v (S d) H) as [Hv|(Hnone & Hd & _)].
      * unfold Dict.get_default. rewrite (Hold v (S d) Hv).
        destruct (rec_pred_succ _ _ _ _ _ _ Hrec v d Hv) as [Hnd' Hmem].
        split; [exact Hnd'|]. intros u. unfold Dict.get_default in Hmem.
        rewrite Hmem. split; intros [Hu Huv]; split; auto.
        apply Hlower; auto. apply (rec_bound _ _ _ _ _ _ Hrec) in Hv. lia.
      * inversion Hd; subst d. unfold Dict.get_default.
        rewrite (Hnew v Hnone).
        assert (Hm : mem_str v (targets (level_pairs G nextlevel)) = true).
        { rewrite Hseen, Hnone in H.
          destruct (mem_str v (targets (level_pairs G nextlevel)));
            [reflexivity|discriminate]. }
        rewrite Hm, sources_of_level. split.
        -- apply NoDup_filter. exact (rec_next_nodup _ _ _ _ _ _ Hrec).
        -- intros u. rewrite filter_In, mem_str_In.
           rewrite (rec_next _ _ _ _ _ _ Hrec).
           split; intros [Hu Huv]; split; auto.
    + intros v. unfold Dict.mem.
      destruct (Dict.get v seen) as [d|] eqn:Hv.
      * rewrite (Hold v d Hv), (Hkeep v d Hv).
        pose proof (rec_pred_keys _ _ _ _ _ _ Hrec v) as Hm.
        unfold Dict.mem in Hm. now rewrite Hv in Hm.
      * rewrite (Hnew v Hv), Hseen, Hv.
        now destruct (mem_str v (targets (level_pairs G nextlevel))).
  - assert (Hlen : forall {V} (d : dict V),
               List.length d = List.length (Dict.keys d)).
    { intros V d. unfold Dict.keys. now rewrite length_map. }
    rewrite (Hlen _ seen'), Hkeys, length_app, <- Hlen. reflexivity.
Qed.

Lemma seen_length_bound k seen pred nextlevel :
  levels_recorded G source k seen pred nextlevel -> List.length seen <= DiGraph.len G.
Proof.
  intros Hrec. unfold DiGraph.len.
  replace (List.length seen) with (List.length (Dict.keys seen))
    by (unfold Dict.keys; apply length_map).
  replace (List.length (DiGraph._node G)) with (List.length (DiGraph.nodes G))
    by (unfold DiGraph.nodes, Dict.keys; apply length_map).
  apply NoDup_incl_length.
  - exact (rec_nodup _ _ _ _ _ _ Hrec).
  - exact (rec_nodes _ _ _ _ _ _ Hrec).
Qed.

Lemma levels_recorded_final k seen pred :
  levels_recorded G source k seen pred [] -> k <= List.length seen ->
  shortest_tree G source seen pred.
Proof.
  intros Hrec Hk.
  assert (Hlt : forall v d, Dict.get v seen = Some d -> d < k).
  { intros v d H. pose proof (rec_bound _ _ _ _ _ _ Hrec v d H) as Hle.
    destruct (Nat.eq_dec d k) as [->|]; [|lia].
    apply (rec_next _ _ _ _ _ _ Hrec) in H. destruct H. }
  constructor.
  - intros v d H. apply Hlt in H.
    pose proof (seen_length_bound _ _ _ _ Hrec). lia.
  - exact (rec_path _ _ _ _ _ _ Hrec).
  - exact (rec_min _ _ _ _ _ _ Hrec).
  - intros q v Hq. induction Hq.
    + apply (rec_all _ _ _ _ _ _ Hrec [source] source); [constructor|simpl; lia].
    + destruct IHHq as (d & Hd).
      destruct (rec_path _ _ _ _ _ _ Hrec y d Hd) as (p' & Hp' & Hlen).
      apply (rec_all _ _ _ _ _ _ Hrec (p' ++ [z])%list z).
      * now apply path_snoc with y.
      * rewrite length_app. simpl. apply Hlt in Hd. lia.
  - exact (rec_pred_zero _ _ _ _ _ _ Hrec).
  - exact (rec_pred_succ _ _ _ _ _ _ Hrec).
  - exact (rec_pred_keys _ _ _ _ _ _ Hrec).
Qed.

(** The loop of [networkx.predecessor] ends within the levels it is
    given and leaves the tree of the shortest paths. *)
Lemma pred_levels_tree levels :
  forall k seen pred nextlevel,
    levels_recorded G source k seen pred nextlevel ->
    k <= List.length seen ->
    (nextlevel <> [] -> k < List.length seen) ->
    DiGraph.len G < levels + k ->
    exists seen',
      shortest_tree G source seen'
        (Algorithms.pred_levels levels G k seen pred nextlevel).
Proof.
  induction levels as [|levels IH]; intros k seen pred next Hrec Hk Hnext Hfuel.
  - assert (next = []).
    { destruct next; auto.
      assert (k < List.length seen) by (apply Hnext; discriminate).
      pose proof (seen_length_bound _ _ _ _ Hrec). lia. }
    subst. exists seen. simpl. now apply levels_recorded_final with k.
  - destruct next as [|v r].
    + exists seen. simpl. now apply levels_recorded_final with k.
    + cbn [Algorithms.pred_levels].
      destruct (levels_recorded_step _ _ _ _ Hrec)
        as (seen' & pred' & next' & Hrun & Hrec' & Hlen).
      rewrite Hrun.
      assert (k < List.length seen) by (apply Hnext; discriminate).
      apply IH; auto; try lia.
      intros Hne. destruct next'; [congruence|]. simpl in Hlen. lia.
Qed.

Lemma NoDup_flat_map {A B} (f : A -> list B) (l : list A) :
  NoDup l -> (forall x, In x l -> NoDup (f x)) ->
  (forall x y z, In x l -> In y l -> In z (f x) -> In z (f y) -> x = y) ->
  NoDup (flat_map f l).
Proof.
  induction l as [|a r IH]; intros Hnd Hf Hdisj; simpl; [constructor|].
  inversion Hnd as [|? ? Hnotin Hnd']; subst.
  apply NoDup_app.
  - apply Hf. now left.
  - apply IH; auto.
    + intros x Hx. apply Hf. now right.
    + intros x y z Hx Hy. apply Hdisj; now right.
  - intros z Hz Hz'. apply in_flat_map in Hz'. destruct Hz' as (y & Hy & Hzy).
    assert (a = y) by (apply (Hdisj a y z); auto; [now left|now right]).
    subst. contradiction.
Qed.

Lemma NoDup_map_snoc {A} (x : A) (l : list (list A)) :
  NoDup l -> NoDup (map (fun p => p ++ [x])%list l).
Proof.
  induction l as [|p r IH]; intros Hnd; simpl; constructor;
    inversion Hnd as [|? ? Hnotin Hnd']; subst.
  - intros Hin. apply in_map_iff in Hin. destruct Hin as (p' & Heq & Hp').
    apply app_inj_tail in Heq. destruct Heq as [-> _]. contradiction.
  - now apply IH.
Qed.

(** The paths [all_shortest_paths] reads off the tree: to a node of
    level [d], the paths of [d] edges, each once. *)
Lemma paths_back_facts seen pred :
  shortest_tree G source seen pred ->
  forall depth target d,
    Dict.get target seen = Some d -> d < depth ->
    let paths := Algorithms.paths_back depth pred source target in
    (forall p, In p paths
               <-> path_of adj source p target /\ List.length p = S d) /\
    NoDup paths /\
    (forall p, In p paths ->
               NoDup p /\
               forall x, In x p -> exists dx, Dict.get x seen = Some dx /\ dx <= d).
Proof.
  intros Htree. induction depth as [|depth IH]; intros target d Hd Hlt; [lia|].
  cbn zeta. cbn [Algorithms.paths_back].
  destruct d as [|d].
  - destruct (tree_path _ _ _ _ Htree target 0 Hd) as (p0 & Hp0 & Hlen0).
    destruct (path_of_one _ _ _ _ Hp0 Hlen0) as [_ ->].
    rewrite String.eqb_refl, (tree_pred_zero _ _ _ _ Htree source Hd). simpl.
    split; [|split].
    + intros p. split.
      * intros [<-|[]]. split; [constructor|reflexivity].
      * intros [Hp Hlen]. left. symmetry.
        now apply (path_of_one _ _ _ _ Hp Hlen).
    + constructor; [intros []|constructor].
    + intros p [<-|[]]. split.
      * constructor; [intros []|constructor].
      * intros x [<-|[]]. eauto.
  - assert (Hne : String.eqb target source = false).
    { apply String.eqb_neq. intros ->.
      pose proof (tree_min _ _ _ _ Htree source (S d) [source] Hd (path_one _ _)) as H.
      simpl in H. lia. }
    rewrite Hne. simpl app.
    destruct (tree_pred_succ _ _ _ _ Htree target d Hd) as [Hnd Hmem].
    assert (Hsub : forall u, In u (Dict.get_default target [] pred) ->
              let paths := Algorithms.paths_back depth pred source u in
              (forall p, In p paths
                         <-> path_of adj source p u /\ List.length p = S d) /\
              NoDup paths /\
              (forall p, In p paths ->
                         NoDup p /\
                         forall x, In x p ->
                                   exists dx, Dict.get x seen = Some dx /\ dx <= d)).
    { intros u Hu. apply Hmem in Hu. destruct Hu as [Hu _].
      apply IH; auto. lia. }
    split; [|split].
    + intros p. rewrite in_flat_map. split.
      * intros (u & Hu & Hin). apply in_map_iff in Hin.
        destruct Hin as (q & <- & Hq).
        destruct (Hsub u Hu) as (Hpaths & _ & _).
        apply Hpaths in Hq. destruct Hq as [Hq Hlen].
        apply Hmem in Hu. destruct Hu as [_ Hedge]. split.
        -- now apply path_snoc with u.
        -- rewrite length_app. simpl. lia.
      * intros [Hp Hlen].
        destruct (path_of_longer _ _ _ _ Hp) as (q & y & -> & Hq & Hedge); [lia|].
        rewrite length_app in Hlen. simpl in Hlen.
        destruct (tree_all _ _ _ _ Htree q y Hq) as (dy & Hdy).
        pose proof (tree_min _ _ _ _ Htree y dy q Hdy Hq) as Hmin.
        assert (dy = d).
        { destruct (Nat.eq_dec dy d); auto.
          destruct (tree_path _ _ _ _ Htree y dy Hdy) as (p' & Hp' & Hlen').
          pose proof (tree_min _ _ _ _ Htree target (S d) (p' ++ [target])%list Hd
                        (path_snoc _ _ _ _ _ Hp' Hedge)) as H.
          rewrite length_app in H. simpl in H. lia. }
        subst dy.
        assert (Hy : In y (Dict.get_default target [] pred)) by (apply Hmem; auto).
        exists y. split; auto. apply in_map_iff. exists q. split; auto.
        destruct (Hsub y Hy) as (Hpaths & _ & _). apply Hpaths. split; auto. lia.
    + apply NoDup_flat_map; auto.
      * intros u Hu. apply NoDup_map_snoc. now apply (Hsub u Hu).
      * intros u1 u2 p Hu1 Hu2 Hp1 Hp2.
        apply in_map_iff in Hp1, Hp2.
        destruct Hp1 as (q1 & <- & Hq1), Hp2 as (q2 & Heq & Hq2).
        apply app_inj_tail in Heq. destruct Heq as [-> _].
        destruct (Hsub u1 Hu1) as (Hpaths1 & _ & _).
        destruct (Hsub u2 Hu2) as (Hpaths2 & _ & _).
        apply Hpaths1 in Hq1. apply Hpaths2 in Hq2.
        exact (path_of_same_end _ _ _ _ _ (proj1 Hq1) (proj1 Hq2)).
    + intros p Hp. apply in_flat_map in Hp. destruct Hp as (u & Hu & Hin).
      apply in_map_iff in Hin. destruct Hin as (q & <- & Hq).
      destruct (Hsub u Hu) as (_ & _ & Hnodes).
      destruct (Hnodes q Hq) as [Hndq Hlevels]. split.
      * apply NoDup_app; auto.
        -- constructor; [intros []|constructor].
        -- intros x Hx [Heq|[]]. subst x.
           destruct (Hlevels target Hx) as (dx & Hdx & Hle).
           rewrite Hd in Hdx. inversion Hdx. lia.
      * intros x Hx. apply in_app_or in Hx. destruct Hx as [Hx|[<-|[]]].
        -- destruct (Hlevels x Hx) as (dx & Hdx & Hle). exists dx. split; auto.
        -- exists (S d). split; auto.
Qed.

End Levels.

(** ** Claims about the path specs *)

(** [networkx.all_shortest_paths] on a well-formed graph: when some path
    leads from [source] to [target] it returns the paths with the fewest
    edges, each once and none with a node twice; when none does it raises
    [NetworkXNoPath]. *)
Lemma all_shortest_paths_spec G source target :
  well_formed G = true ->
  DiGraph.has_node G source = true ->
  match Algorithms.all_shortest_paths G source target with
  | Ok paths =>
      NoDup paths /\ (forall p, In p paths -> NoDup p) /\
      (forall p,
          In p paths
          <-> path_of (DiGraph.successors G) source p target /\
              forall q, path_of (DiGraph.successors G) source q target ->
                        List.length p <= List.length q)
  | Raise e =>
      e = NetworkXNoPath /\
      forall q, ~ path_of (DiGraph.successors G) source q target
  end.
Proof.
  intros Hwf Hsrc. unfold Algorithms.all_shortest_paths, Algorithms.predecessor.
  rewrite Hsrc.
  destruct (pred_levels_tree G Hwf source (S (DiGraph.len G)) 0
              [(source, 0)] [(source, [])] [source]) as (seen & Htree).
  - now apply levels_recorded_init.
  - simpl. lia.
  - simpl. lia.
  - lia.
  - set (pred := Algorithms.pred_levels _ _ _ _ _ _) in *.
    rewrite (tree_pred_keys _ _ _ _ Htree target). unfold Dict.mem.
    destruct (Dict.get target seen) as [d|] eqn:Hd; simpl.
    + pose proof (tree_bound _ _ _ _ Htree target d Hd) as Hbound.
      destruct (paths_back_facts G source seen pred Htree
                  (S (DiGraph.len G)) target d Hd) as (Hpaths & Hnd & Hnodes);
        [lia|].
      split; [exact Hnd|]. split; [intros p Hp; now apply (Hnodes p Hp)|].
      intros p. rewrite Hpaths. split.
      * intros [Hp Hlen]. split; auto. intros q Hq.
        pose proof (tree_min _ _ _ _ Htree target d q Hd Hq). lia.
      * intros [Hp Hmin]. split; auto.
        destruct (tree_path _ _ _ _ Htree target d Hd) as (p0 & Hp0 & Hlen0).
        pose proof (Hmin p0 Hp0).
        pose proof (tree_min _ _ _ _ Htree target d p Hd Hp). lia.
    + split; auto. intros q Hq.
      destruct (tree_all _ _ _ _ Htree q target Hq) as (d & Hd'). congruence.
Qed.



(** On the diamond the two shortest paths meet in [a] and [d], which get
    the style twice; [b] and [c] get it once and [e] not at all. *)
Example diamond_styles :
  let G' := snd (apply_path_spec "a to d: green" diamond_graph) in
  let style := filled "green" ++ ";" in
  Algorithms.all_shortest_paths (g diamond_graph) "a" "d"
  = Ok [["a"; "b"; "d"]; ["a"; "c"; "d"]] /\
  Dict.get "a" (node_attrs G') = Some (style ++ style) /\
  Dict.get "b" (node_attrs G') = Some style /\
  Dict.get "c" (node_attrs G') = Some style /\
  Dict.get "d" (node_attrs G') = Some (style ++ style) /\
  Dict.get "e" (node_attrs G') = None.
Proof. repeat split. Qed.

(** ** The builder keeps the graph well formed *)

Lemma NoDup_nodupb l : NoDup l -> nodupb l = true.
Proof.
  induction 1 as [|x r Hnotin Hnd IH]; simpl; auto.
  apply mem_str_false in Hnotin. now rewrite Hnotin.
Qed.

Lemma well_formed_iff G : well_formed G = true <-> wf_prop G.
Proof.
  split.
  - intros Hwf. split; [now apply well_formed_nodup|].
    intros u nbrs Hin. destruct (well_formed_entry G Hwf u nbrs Hin).
    split; [|split]; auto. now apply (well_formed_entry_nodup G Hwf u).
  - intros [Hnd Hall]. unfold well_formed. apply andb_true_intro. split.
    + now apply NoDup_nodupb.
    + apply forallb_forall. intros [u nbrs] Hin.
      destruct (Hall u nbrs Hin) as (Hu & Hn & Hv).
      apply andb_true_intro. split; [apply andb_true_intro; split|].
      * now apply mem_In_keys.
      * now apply NoDup_nodupb.
      * apply forallb_forall. intros [v d] Hvd. apply mem_In_keys. apply Hv.
        change v with (fst (v, d)). now apply in_map.
Qed.

Section DictSet.
Context {V : Type}.
Implicit Types (d : dict V).

Lemma In_set k v k' v' d :
  In (k', v') (Dict.set k v d) -> (k' = k /\ v' = v) \/ In (k', v') d.
Proof.
  induction d as [|[k0 v0] r IH]; simpl.
  - intros [H|[]]. inversion H; auto.
  - destruct (String.eqb_spec k k0) as [->|Hne]; simpl.
    + intros [H|H]; [inversion H; auto|auto].
    + intros [H|H]; auto. destruct (IH H); auto.
Qed.

Lemma In_keys_set k v x d :
  In x (Dict.keys (Dict.set k v d)) <-> x = k \/ In x (Dict.keys d).
Proof.
  rewrite <- !mem_In_keys. destruct (String.eqb_spec x k) as [->|Hne].
  - rewrite mem_set_same. tauto.
  - rewrite mem_set_other by auto. split; auto. intros [|]; congruence.
Qed.

Lemma NoDup_keys_set k v d :
  NoDup (Dict.keys d) -> NoDup (Dict.keys (Dict.set k v d)).
Proof.
  intros Hnd. destruct (Dict.get k d) as [v0|] eqn:Hget.
  - now rewrite (keys_set_old k v v0 d Hget).
  - rewrite (keys_set_new k v d Hget). apply NoDup_app; auto.
    + constructor; [intros []|constructor].
    + intros a Ha [<-|[]]. now apply get_None_keys in Hget.
Qed.

End DictSet.

Lemma wf_add_missing_node u G :
  wf_prop G ->
  wf_prop (DiGraph.add_missing_node u G) /\
  Dict.mem u (DiGraph._succ (DiGraph.add_missing_node u G)) = true /\
  (forall x, Dict.mem x (DiGraph._succ G) = true ->
             Dict.mem x (DiGraph._succ (DiGraph.add_missing_node u G)) = true).
Proof.
  intros Hwf. pose proof Hwf as [Hnd Hall]. unfold DiGraph.add_missing_node.
  destruct (Dict.mem u (DiGraph._succ G)) eqn:Hu.
  - split; [exact Hwf|]. split; auto.
  - split; [|split].
    + split; simpl.
      * now apply NoDup_keys_set.
      * intros x nbrs Hin. unfold DiGraph.nodes. simpl.
        apply In_set in Hin. destruct Hin as [[-> ->]|Hin].
        -- split; [|split].
           ++ apply In_keys_set. now left.
           ++ constructor.
           ++ intros y [].
        -- destruct (Hall x nbrs Hin) as (Hx & Hn & Hv).
           split; [|split]; auto.
           ++ apply In_keys_set. now right.
           ++ intros y Hy. apply In_keys_set. right. now apply Hv.
    + simpl. apply mem_set_same.
    + intros x Hx. simpl. now apply mem_set_mono.
Qed.

Lemma wf_add_edge u v attr G : wf_prop G -> wf_prop (DiGraph.add_edge u v attr G).
Proof.
  intros Hwf.
  destruct (wf_add_missing_node u G Hwf) as (Hwf1 & Hu1 & _).
  destruct (wf_add_missing_node v _ Hwf1) as (Hwf2 & Hv2 & Hmono).
  specialize (Hmono u Hu1).
  unfold DiGraph.add_edge.
  set (G2 := DiGraph.add_missing_node v (DiGraph.add_missing_node u G)) in *.
  destruct Hwf2 as [Hnd Hall].
  assert (Hentry : forall x, Dict.mem x (DiGraph._succ G2) = true ->
             In (x, Dict.get_default x [] (DiGraph._succ G2)) (DiGraph._succ G2)).
  { intros x Hx. unfold Dict.mem, Dict.get_default in *.
    destruct (Dict.get x (DiGraph._succ G2)) eqn:Hget; [|discriminate].
    now apply get_In. }
  split; simpl.
  - now apply NoDup_keys_set.
  - intros x nbrs Hin. unfold DiGraph.nodes. simpl.
    apply In_set in Hin. destruct Hin as [[-> ->]|Hin]; [|now apply Hall].
    destruct (Hall _ _ (Hentry u Hmono)) as (Hx & Hn & Hv).
    split; [|split]; auto.
    + now apply NoDup_keys_set.
    + intros y Hy. apply In_keys_set in Hy. destruct Hy as [->|Hy].
      * exact (proj1 (Hall _ _ (Hentry v Hv2))).
      * now apply Hv.
Qed.

Lemma wf_set_node_data n d G :
  wf_prop G -> Dict.mem n (DiGraph._node G) = true ->
  wf_prop {| DiGraph._node := Dict.set n d (DiGraph._node G);
             DiGraph._succ := DiGraph._succ G |}.
Proof.
  intros [Hnd Hall] Hn. split; simpl; auto.
  intros u nbrs Hin. destruct (Hall u nbrs Hin) as (Hu & Hnb & Hv).
  unfold DiGraph.nodes in *. simpl. split; [|split]; auto.
  - apply In_keys_set. now right.
  - intros y Hy. apply In_keys_set. right. now apply Hv.
Qed.

Lemma include_statement_wf statement G :
  wf_prop (g G) -> wf_prop (g (snd (include_statement statement G))).
Proof.
  intros H. unfold include_statement.
  destruct (st_start statement) as [start|] eqn:Hs.
  - unfold _handle_edge_statement, edge_attrs_extend, edge_attrs_getitem.
    rewrite Hs. run_monad.
    destruct (st_directive statement) as [d|]; simpl;
      [destruct (negb (String.eqb d "attr")); simpl; auto|];
      (destruct (st_end statement); simpl; auto;
       destruct (Text.truthy (st_data statement)); simpl;
       now apply wf_add_edge).
  - unfold _handle_node_statement. run_monad.
    destruct (st_directive statement) as [d|]; simpl; auto.
    destruct (st_node statement) as [n|] eqn:Hn; simpl; auto.
    destruct (String.eqb d "subgraph").
    + unfold _handle_subgraph. run_monad.
      destruct (st_data statement) as [da|]; simpl; auto.
      rewrite Hn; simpl.
      match goal with
      | |- context [for_each ?l ?b G] =>
          pose proof (for_each_preserves (fun G => wf_prop (g G)) l b) as Hloop;
          destruct (for_each l b G) as [[[]|e] G1] eqn:Hrun
      end; simpl.
      * assert (HG1 : wf_prop (g G1)).
        { change G1 with (snd (Ok tt, G1)). rewrite <- Hrun. apply Hloop; auto.
          intros x s Hs'. destruct (Text.nonempty x); simpl; auto.
          now apply wf_add_edge. }
        destruct (Dict.get n (DiGraph._node (g G1))) eqn:Hget; simpl; auto.
        apply wf_set_node_data; auto. unfold Dict.mem. now rewrite Hget.
      * change G1 with (snd (@Raise unit e, G1)). rewrite <- Hrun.
        apply Hloop; auto.
        intros x s Hs'. destruct (Text.nonempty x); simpl; auto.
        now apply wf_add_edge.
    + destruct (String.eqb d "attr"); simpl; auto.
      destruct (String.eqb n "graph");
        destruct (st_data statement); simpl; auto.
      destruct (Text.truthy (st_comment statement)); simpl; auto.
Qed.

(** Every graph the build pass makes is well formed, whether or not a
    statement failed on the way. *)
Lemma from_lines_well_formed lines include_everything :
  well_formed (g (snd (from_lines lines include_everything))) = true.
Proof.
  apply well_formed_iff. unfold from_lines.
  apply (for_each_preserves (fun G => wf_prop (g G))).
  - intros line s Hs. unfold include_line.
    apply (for_each_preserves (fun G => wf_prop (g G))); auto.
    intros st s' Hs'. now apply include_statement_wf.
  - split; simpl; [constructor|intros u nbrs []].
Qed.

(** ** The tests of the source, run on the embedding *)

(** [ParserTests.test_edge_parser] *)
Example test_edge_parser :
  search_for_statements "edge1 --> edge2 :: comment goes here"
  = [stmt None (Some "edge1") (Some "edge2") None None None
       (Some "comment goes here")] /\
  search_for_statements "edge1 --> edge2:: comment goes here"
  = [stmt None (Some "edge1") (Some "edge2") None None None
       (Some "comment goes here")] /\
  search_for_statements "edge1 --> edge2"
  = [stmt None (Some "edge1") (Some "edge2") None None None None] /\
  search_for_statements "edge1  --> edge2"
  = [stmt None (Some "edge1") (Some "edge2") None None None None].
Proof. repeat split. Qed.

(** [ParserTests.test_parse_directives], on a node. *)
Example test_parse_directives :
  search_for_statements "..attr: nodeName: attrs"
  = [stmt (Some "attr") None None (Some "nodeName") None (Some "attrs") None] /\
  search_for_statements ".. attr : nodeName : attrs"
  = [stmt (Some "attr") None None (Some "nodeName") None (Some "attrs") None] /\
  search_for_statements "..attr: nodeName, Pretty Label: attrs"
  = [stmt (Some "attr") None None (Some "nodeName") (Some "Pretty Label")
       (Some "attrs") None] /\
  search_for_statements ".. attr: nodeName , Pretty Label : attrs"
  = [stmt (Some "attr") None None (Some "nodeName") (Some "Pretty Label ")
       (Some "attrs") None] /\
  search_for_statements "..attr: nodeName: attrs :: comment goes here"
  = [stmt (Some "attr") None None (Some "nodeName") None (Some "attrs ")
       (Some "comment goes here")] /\
  search_for_statements "..attr : nodeName : attrs :: comment goes here"
  = [stmt (Some "attr") None None (Some "nodeName") None (Some "attrs ")
       (Some "comment goes here")] /\
  search_for_statements
    "..attr: nodeName, Pretty Label: attrs :: comment goes here"
  = [stmt (Some "attr") None None (Some "nodeName") (Some "Pretty Label")
       (Some "attrs ") (Some "comment goes here")].
Proof. repeat split. Qed.

(** The same with an edge in the place of the node. *)
Example test_parse_directives_on_edges :
  search_for_statements "..attr: edge1 --> edge2: attrs"
  = [stmt (Some "attr") (Some "edge1") (Some "edge2") None None
       (Some "attrs") None] /\
  search_for_statements ".. attr: edge1 --> edge2 , Pretty Label : attrs"
  = [stmt (Some "attr") (Some "edge1") (Some "edge2") None
       (Some "Pretty Label ") (Some "attrs") None] /\
  search_for_statements
    "..attr: edge1 --> edge2, Pretty Label: attrs :: comment goes here"
  = [stmt (Some "attr") (Some "edge1") (Some "edge2") None
       (Some "Pretty Label") (Some "attrs ") (Some "comment goes here")].
Proof. repeat split. Qed.

(** [ParserTests.test_real_examples] *)
Example test_real_examples :
  search_for_statements "..attr: a --> b, Label: fill=red :: Comment"
  = [stmt (Some "attr") (Some "a") (Some "b") None (Some "Label")
       (Some "fill=red ") (Some "Comment")] /\
  search_for_statements "a --> b"
  = [stmt None (Some "a") (Some "b") None None None None] /\
  search_for_statements
    "..attr: container --> host.root: fill=red; style=dashed; :: In case of a kernel bug "
  = [stmt (Some "attr") (Some "container") (Some "host.root") None None
       (Some "fill=red; style=dashed; ") (Some "In case of a kernel bug ")] /\
  search_for_statements
    "docker.socket --> host.root :: Docker socket equals root"
  = [stmt None (Some "docker.socket") (Some "host.root") None None None
       (Some "Docker socket equals root")] /\
  search_for_statements "..subgraph: grouping: child1, child2"
  = [stmt (Some "subgraph") None None (Some "grouping") None
       (Some "child1, child2") None].
Proof. repeat split. Qed.

(** [ParserTests.test_mixing_statements_and_random_text] *)
Example test_mixing_statements_and_random_text :
  search_for_statements "this could be some code # a --> b"
  = [stmt None (Some "a") (Some "b") None None None None] /\
  search_for_statements "so could this // a --> b"
  = [stmt None (Some "a") (Some "b") None None None None] /\
  search_for_statements "two statements // a --> b, b --> c"
  = [stmt None (Some "a") (Some "b") None None None None;
     stmt None (Some "b") (Some "c") None None None None] /\
  search_for_statements
    "Mixing it up: a --> b, ..attr: b --> c, Label: fill=red :: comment here"
  = [stmt None (Some "a") (Some "b") None None None None;
     stmt (Some "attr") (Some "b") (Some "c") None (Some "Label")
       (Some "fill=red ") (Some "comment here")] /\
  search_for_statements
    "a=42 // foo --> bar :: Comments go to end of line, so no treatment for bar --> baz"
  = [stmt None (Some "foo") (Some "bar") None None None
       (Some "Comments go to end of line, so no treatment for bar --> baz")].
Proof. repeat split. Qed.

(** The identifier may hold hyphens, so an arrow that touches the first
    identifier is read into it and no edge is found. *)
Example arrow_needs_space_before :
  search_for_statements "edge1-->edge2" = [] /\
  search_for_statements "edge1 -->edge2"
  = [stmt None (Some "edge1") (Some "edge2") None None None None].
Proof. repeat split. Qed.

(** [GraphTests.test_simple_statements]: the edges of the graph data. *)
Example test_simple_statements :
  DiGraph._succ
    (g (snd (from_string
               (Text.join Text.nl
                  [""; "a --> b, b --> c"; "c --> a :: A loop!";
                   "..attr: c --> d, Label Goes Here: shape=diamond :: Comments!";
                   "        "])
               false)))
  = [("a", [("b", edge_dict None None)]);
     ("b", [("c", edge_dict None None)]);
     ("c", [("a", edge_dict (Some "A loop!") None);
            ("d", edge_dict (Some "Comments!") (Some "Label Goes Here"))]);
     ("d", [])].
Proof. reflexivity. Qed.

(** [GraphTests.test_simple_render]. The clusters and the nodes are those
    of the test; the three edge lines come in the order the edges were
    added, where the test lists them in the order of its interpreter's
    dicts. *)
Example test_simple_render :
  fst (render_dot 1000 (snd (from_lines test_lines false)))
  = Ok (Text.join Text.nl
          ("digraph G {"
           :: extend
                (labelled_cluster "first" "First"
                   (node_line "a"
                    :: labelled_cluster "second" "Second"
                         [node_line "b"; node_line "d"]))
                [Text.q ++ "a" ++ Text.q ++ " -> " ++ Text.q ++ "b" ++ Text.q
                 ++ " [id=" ++ Text.q ++ "a/b" ++ Text.q ++ "]";
                 Text.q ++ "b" ++ Text.q ++ " -> " ++ Text.q ++ "c" ++ Text.q
                 ++ " [id=" ++ Text.q ++ "b/c" ++ Text.q
                 ++ "; color=red; tooltip=" ++ Text.q ++ "Comment" ++ Text.q
                 ++ "; label=" ++ Text.q ++ "Label" ++ Text.q ++ "]";
                 Text.q ++ "c" ++ Text.q ++ " -> " ++ Text.q ++ "d" ++ Text.q
                 ++ " [id=" ++ Text.q ++ "c/d" ++ Text.q ++ "]";
                 node_line "c";
                 "}"])).
Proof. reflexivity. Qed.

(** The patterns of the style specs. *)
Example style_spec_patterns :
  re_match_node_spec "b: pink" = Some ("b", "pink") /\
  re_match_node_spec "b  :   x y " = Some ("b", "x y ") /\
  re_match_node_spec "a:b:c" = Some ("a:b", "c") /\
  re_match_node_spec "no colon" = None /\
  re_match_node_spec " b: pink" = None /\
  re_match_path_spec "a to d: green" = Some ("a", "d", "green") /\
  re_match_path_spec "a  to d: green" = None.
Proof. repeat split. Qed.

(** Text helpers on the data of the tests. *)
Example text_helpers :
  Text.split ";" (Text.strip "fill=red; style=dashed; ")
  = ["fill=red"; " style=dashed"; ""] /\
  Text.re_split_comma "child1, child2" = ["child1"; "child2"] /\
  Text.re_split_comma "a ,  b,c " = ["a"; "b"; "c "] /\
  Text.re_split_comma "," = [""; ""] /\
  Text.json_dumps "A loop!" = Text.q ++ "A loop!" ++ Text.q /\
  Text.json_dumps (String Text.dquote (String Text.newline "x"))
  = Text.q ++ String Text.backslash Text.q
    ++ String Text.backslash "n" ++ "x" ++ Text.q.
Proof. repeat split. Qed.

(* ===================================================================== *)
(** ** Further properties: the scanner *)
(* ===================================================================== *)

Lemma span_all f s w r : span f s = (w, r) -> all_chars f w = true.
Proof.
  revert w r. induction s as [|c s IH]; simpl; intros w r H.
  - inversion H; reflexivity.
  - destruct (f c) eqn:Hc.
    + destruct (span f s) as [a b] eqn:Hs. inversion H; subst. simpl.
      rewrite Hc. simpl. eapply IH. reflexivity.
    + inversion H; reflexivity.
Qed.

Lemma Word_word f s w r :
  Word f s = Some (w, r) -> Text.nonempty w = true /\ all_chars f w = true.
Proof.
  unfold Word. destruct (span f (preParse s)) as [a b] eqn:Hs.
  destruct a as [|c a]; [discriminate|]. intros H. inversion H; subst.
  split; [reflexivity|]. eapply span_all. exact Hs.
Qed.

Lemma oneOf_In words s w r : oneOf words s = Some (w, r) -> In w words.
Proof.
  induction words as [|x ws IH]; simpl; [discriminate|].
  destruct (match_prefix x (preParse s)).
  - intros H. inversion H. now left.
  - intros H. right. now apply IH.
Qed.

Lemma Identifier_word name s res r :
  Grammar.Identifier name s = Some (res, r) ->
  exists w, res = name w /\ is_identifier w = true.
Proof.
  unfold Grammar.Identifier, named.
  destruct (Word Grammar.identifier_char s) as [[w r']|] eqn:Hw; [|discriminate].
  intros H. inversion H; subst. exists w. split; [reflexivity|].
  apply Word_word in Hw. unfold is_identifier. destruct Hw as [-> ->]. reflexivity.
Qed.

Lemma edge_results s res r :
  Grammar.edge s = Some (res, r) ->
  exists a b, res = bare_edge a b /\
              is_identifier a = true /\ is_identifier b = true.
Proof.
  unfold Grammar.edge, And, Suppress.
  destruct (Grammar.Identifier Grammar.set_start s) as [[ra s1]|] eqn:Ha;
    [|discriminate].
  destruct (Literal "-->" s1) as [[t s2]|]; [|discriminate].
  destruct (Grammar.Identifier Grammar.set_end s2) as [[rb s3]|] eqn:Hb;
    [|discriminate].
  intros H. inversion H; subst.
  apply Identifier_word in Ha. destruct Ha as (a & -> & Hwa).
  apply Identifier_word in Hb. destruct Hb as (b & -> & Hwb).
  exists a, b. repeat split; assumption.
Qed.

Lemma entity_results s res r :
  Grammar.entity s = Some (res, r) ->
  (exists a b, res = bare_edge a b /\
               is_identifier a = true /\ is_identifier b = true)
  \/ (exists n, res = Grammar.set_node n /\ is_identifier n = true).
Proof.
  unfold Grammar.entity, MatchFirst.
  destruct (Grammar.edge s) as [[re s1]|] eqn:He.
  - intros H. inversion H; subst. left. eapply edge_results. exact He.
  - intros H. right. eapply Identifier_word. exact H.
Qed.

Lemma entityDetails_results s res r :
  Grammar.entityDetails s = Some (res, r) ->
  exists e,
    ((exists a b, e = bare_edge a b /\
                  is_identifier a = true /\ is_identifier b = true)
     \/ (exists n, e = Grammar.set_node n /\ is_identifier n = true)) /\
    (res = e
     \/ exists l, res = merge e (Grammar.set_label l) /\
                  Text.nonempty l = true /\ all_chars no_colon l = true).
Proof.
  unfold Grammar.entityDetails, Grammar.labelledEntity, MatchFirst, And, Suppress.
  destruct (Grammar.entity s) as [[e s1]|] eqn:He.
  - destruct (Literal "," s1) as [[t s2]|].
    + unfold named at 1.
      destruct (Regex_not_colon_plus s2) as [[l s3]|] eqn:Hl.
      * intros H. inversion H; subst. exists e. split.
        -- eapply entity_results. exact He.
        -- right. exists l. split; [reflexivity|].
           apply Word_word in Hl. exact Hl.
      * intros H. rewrite H in He. exists res. split.
        -- eapply entity_results. exact He.
        -- now left.
    + intros H. rewrite H in He. exists res. split.
      * eapply entity_results. exact He.
      * now left.
  - discriminate.
Qed.

Lemma header_results s res r :
  Grammar.header s = Some (res, r) ->
  exists d, res = Grammar.set_directive d /\ In d directive_words.
Proof.
  unfold Grammar.header, And, Suppress, named.
  destruct (Literal ".." s) as [[t s1]|]; [|discriminate].
  destruct (oneOf _ s1) as [[d s2]|] eqn:Hd; [|discriminate].
  destruct (Literal ":" s2) as [[t' s3]|]; [|discriminate].
  intros H. inversion H; subst. exists d. split; [reflexivity|].
  eapply oneOf_In. exact Hd.
Qed.

Lemma data_results s res r :
  Grammar.data s = Some (res, r) ->
  exists d, res = Grammar.set_data d
            \/ exists c, res = merge (Grammar.set_data d) (Grammar.set_comment c).
Proof.
  unfold Grammar.data, Grammar.comment, MatchFirst, And, Suppress, named.
  destruct (SkipTo "::" s) as [[d s1]|].
  - destruct (Literal "::" s1) as [[t s2]|].
    + destruct (Regex_dot_star s2) as [[c s3]|].
      * intros H. inversion H; subst. exists d. right. exists c. reflexivity.
      * destruct (Regex_dot_star s) as [[d' s']|]; [|discriminate].
        intros H. inversion H; subst. exists d'. now left.
    + destruct (Regex_dot_star s) as [[d' s']|]; [|discriminate].
      intros H. inversion H; subst. exists d'. now left.
  - destruct (Regex_dot_star s) as [[d' s']|]; [|discriminate].
    intros H. inversion H; subst. exists d'. now left.
Qed.

Lemma directive_shape s res r :
  Grammar.directive s = Some (res, r) -> statement_shape res.
Proof.
  unfold Grammar.directive, And.
  destruct (Grammar.header s) as [[h s1]|] eqn:Hh; [|discriminate].
  destruct (Grammar.entityDetails s1) as [[ed s2]|] eqn:Hed; [|discriminate].
  unfold Suppress at 1.
  destruct (Literal ":" s2) as [[t s3]|]; [|discriminate].
  destruct (Grammar.data s3) as [[dat s4]|] eqn:Hdat; [|discriminate].
  intros H. inversion H; subst. clear H.
  apply header_results in Hh. destruct Hh as (d & -> & Hd).
  apply data_results in Hdat. destruct Hdat as (dt & Hdat).
  apply entityDetails_results in Hed. destruct Hed as (e & He & Hed).
  unfold statement_shape, names_edge, names_node.
  destruct He as [(a & b & -> & Ha & Hb)|(n & -> & Hn)];
    destruct Hed as [->|(l & -> & Hl1 & Hl2)];
    destruct Hdat as [->|(c & ->)]; simpl;
    (split; [first [left; exists a, b; now repeat split
                   |right; split; [exists n; now repeat split|discriminate]]
            |split; [split; [assumption|discriminate]
                    |intros l' Hl'; try discriminate;
                     inversion Hl'; subst; now split]]).
Qed.

Lemma edgeSpec_shape s res r :
  Grammar.edgeSpec s = Some (res, r) -> statement_shape res.
Proof.
  unfold Grammar.edgeSpec, MatchFirst, And, Suppress, Grammar.comment, named.
  assert (Hedge : forall s1 e r1, Grammar.edge s1 = Some (e, r1) ->
                                  statement_shape e).
  { intros s1 e r1 He. apply edge_results in He.
    destruct He as (a & b & -> & Ha & Hb).
    unfold statement_shape, names_edge. simpl.
    split; [left; exists a, b; now repeat split|].
    split; [now split|discriminate]. }
  destruct (Grammar.edge s) as [[e s1]|] eqn:He; [|discriminate].
  destruct (Literal "::" s1) as [[t s2]|].
  - destruct (Regex_dot_star s2) as [[c s3]|].
    + intros H. inversion H; subst. clear H. apply edge_results in He.
      destruct He as (a & b & -> & Ha & Hb).
      unfold statement_shape, names_edge. simpl.
      split; [left; exists a, b; now repeat split|].
      split; [now split|discriminate].
    + intros H. inversion H; subst. eapply Hedge. exact He.
  - intros H. inversion H; subst. eapply Hedge. exact He.
Qed.

Lemma parser_shape s res r :
  Grammar.parser s = Some (res, r) -> statement_shape res.
Proof.
  unfold Grammar.parser, MatchFirst.
  destruct (Grammar.directive s) as [[d s1]|] eqn:Hd.
  - intros H. inversion H; subst. eapply directive_shape. exact Hd.
  - apply edgeSpec_shape.
Qed.

(** What [scanString] yields is what the element matched somewhere. *)
Lemma scanString_matches (p : ParserElement) rounds :
  forall s t, In t (scanString_rounds rounds p s) ->
              exists s' r, p s' = Some (t, r).
Proof.
  induction rounds as [|n IH]; simpl; intros s t Hin; [contradiction|].
  assert (Hadv : In t match preParse s with
                      | EmptyString => []
                      | String _ r => scanString_rounds n p r
                      end -> exists s' r, p s' = Some (t, r)).
  { destruct (preParse s); [contradiction|]. apply IH. }
  destruct (p (preParse s)) as [[tokens rest]|] eqn:Hp; [|now apply Hadv].
  destruct (String.length rest <? String.length s)%nat; [|now apply Hadv].
  destruct Hin as [<-|Hin]; [eauto|]. eapply IH. exact Hin.
Qed.

(** X1. Every statement the scanner returns names an edge (a start and
    an end, both identifier words, and no node) or a node (an identifier
    word) under a directive. A directive is one of the five words of the
    header and brings data; a statement without directive is an edge with
    no data and no label. A label is not empty and holds no colon. *)
Theorem scanned_statement_shape (line : string) (s : statement) :
  In s (search_for_statements line) -> statement_shape s.
Proof.
  unfold search_for_statements, searchString. intros Hin.
  apply scanString_matches in Hin. destruct Hin as (s' & r & Hp).
  eapply parser_shape. exact Hp.
Qed.

Lemma scanned_statement_shape_witness :
  statement_shape
    (stmt (Some "attr") (Some "b") (Some "c") None (Some "Label")
       (Some "fill=red ") (Some "comment here")).
Proof.
  apply (scanned_statement_shape
           "Mixing it up: a --> b, ..attr: b --> c, Label: fill=red :: comment here").
  right. left. reflexivity.
Defined.

(** *** An element reads a prefix and leaves a suffix *)

Lemma suffix_of_refl s : suffix_of s s.
Proof. now exists "". Qed.

Lemma suffix_of_trans a b c : suffix_of a b -> suffix_of b c -> suffix_of a c.
Proof.
  intros [p ->] [q ->]. exists (q ++ p). now rewrite append_assoc.
Qed.

Lemma suffix_of_tail c s : suffix_of s (String c s).
Proof. now exists (String c ""). Qed.

Lemma all_chars_app f a b :
  all_chars f (a ++ b) = all_chars f a && all_chars f b.
Proof.
  induction a as [|c a IH]; simpl; [reflexivity|].
  now rewrite IH, andb_assoc.
Qed.

Lemma all_chars_suffix f r s :
  suffix_of r s -> all_chars f s = true -> all_chars f r = true.
Proof.
  intros [p ->]. rewrite all_chars_app. intros H.
  now apply andb_true_iff in H.
Qed.

Lemma preParse_suffix s : suffix_of (preParse s) s.
Proof.
  induction s as [|c s IH]; simpl; [apply suffix_of_refl|].
  destruct (is_white c); [|apply suffix_of_refl].
  eapply suffix_of_trans; [exact IH|apply suffix_of_tail].
Qed.

Lemma match_prefix_eq lit : forall s r, match_prefix lit s = Some r -> s = lit ++ r.
Proof.
  induction lit as [|a lit IH]; simpl; intros s r H.
  - now inversion H.
  - destruct s as [|b s]; [discriminate|].
    destruct (Ascii.eqb a b) eqn:Hab; [|discriminate].
    apply Ascii.eqb_eq in Hab. subst b. f_equal. now apply IH.
Qed.

Lemma span_eq f : forall s w r, span f s = (w, r) -> s = w ++ r.
Proof.
  induction s as [|c s IH]; simpl; intros w r H.
  - now inversion H.
  - destruct (f c).
    + destruct (span f s) as [a b]. inversion H; subst. simpl. f_equal.
      now apply IH.
    + now inversion H.
Qed.

Lemma skip_to_eq target : forall s sk r, skip_to target s = Some (sk, r) -> s = sk ++ r.
Proof.
  induction s as [|c s IH]; intros sk r H; simpl in H.
  - destruct (match_prefix target ""); [|discriminate]. now inversion H.
  - destruct (match_prefix target (String c s)).
    + now inversion H.
    + destruct (skip_to target s) as [[sk' r']|]; [|discriminate].
      inversion H; subst. simpl. f_equal. now apply IH.
Qed.

Lemma Literal_suffix lit : token_leaves_suffix (Literal lit).
Proof.
  intros s t r. unfold Literal.
  destruct (match_prefix lit (preParse s)) as [r'|] eqn:Hm; [|discriminate].
  intros H. inversion H; subst. apply match_prefix_eq in Hm.
  eapply suffix_of_trans; [|apply preParse_suffix]. eexists. exact Hm.
Qed.

Lemma Word_suffix f : token_leaves_suffix (Word f).
Proof.
  intros s t r. unfold Word.
  destruct (span f (preParse s)) as [w r'] eqn:Hs.
  destruct w; [discriminate|]. intros H. inversion H; subst.
  apply span_eq in Hs. eapply suffix_of_trans; [|apply preParse_suffix].
  eexists. exact Hs.
Qed.

Lemma oneOf_suffix words : token_leaves_suffix (oneOf words).
Proof.
  intros s t r. induction words as [|w ws IH]; simpl; [discriminate|].
  destruct (match_prefix w (preParse s)) as [r'|] eqn:Hm; [|exact IH].
  intros H. inversion H; subst. apply match_prefix_eq in Hm.
  eapply suffix_of_trans; [|apply preParse_suffix]. eexists. exact Hm.
Qed.

Lemma Regex_dot_star_suffix : token_leaves_suffix Regex_dot_star.
Proof.
  intros s t r. unfold Regex_dot_star. intros H. inversion H as [Hs].
  apply span_eq in Hs. eapply suffix_of_trans; [|apply preParse_suffix].
  eexists. exact Hs.
Qed.

Lemma SkipTo_suffix target : token_leaves_suffix (SkipTo target).
Proof.
  intros s t r. unfold SkipTo. intros H. apply skip_to_eq in H.
  eapply suffix_of_trans; [|apply preParse_suffix]. eexists. exact H.
Qed.

Lemma named_suffix name p : token_leaves_suffix p -> leaves_suffix (named name p).
Proof.
  intros Hp s t r. unfold named. destruct (p s) as [[x r']|] eqn:H; [|discriminate].
  intros E. inversion E; subst. eapply Hp. exact H.
Qed.

Lemma Suppress_suffix p : token_leaves_suffix p -> leaves_suffix (Suppress p).
Proof.
  intros Hp s t r. unfold Suppress. destruct (p s) as [[x r']|] eqn:H; [|discriminate].
  intros E. inversion E; subst. eapply Hp. exact H.
Qed.

Lemma And_suffix a b : leaves_suffix a -> leaves_suffix b -> leaves_suffix (And a b).
Proof.
  intros Ha Hb s t r. unfold And.
  destruct (a s) as [[ra s1]|] eqn:H1; [|discriminate].
  destruct (b s1) as [[rb s2]|] eqn:H2; [|discriminate].
  intros E. inversion E; subst.
  eapply suffix_of_trans; [eapply Hb; exact H2|eapply Ha; exact H1].
Qed.

Lemma MatchFirst_suffix a b :
  leaves_suffix a -> leaves_suffix b -> leaves_suffix (MatchFirst a b).
Proof.
  intros Ha Hb s t r. unfold MatchFirst.
  destruct (a s) as [[ra s1]|] eqn:H1.
  - intros E. inversion E; subst. eapply Ha. exact H1.
  - apply Hb.
Qed.

Ltac suffix_steps :=
  repeat first
    [ apply And_suffix | apply MatchFirst_suffix
    | apply named_suffix | apply Suppress_suffix
    | apply Literal_suffix | apply Word_suffix | apply oneOf_suffix
    | apply Regex_dot_star_suffix | apply SkipTo_suffix ].

Lemma edge_suffix : leaves_suffix Grammar.edge.
Proof. unfold Grammar.edge, Grammar.Identifier. suffix_steps. Qed.

Lemma header_suffix : leaves_suffix Grammar.header.
Proof. unfold Grammar.header. suffix_steps. Qed.

Lemma entityDetails_suffix : leaves_suffix Grammar.entityDetails.
Proof.
  unfold Grammar.entityDetails, Grammar.labelledEntity, Grammar.entity,
    Grammar.edge, Grammar.Identifier, Regex_not_colon_plus.
  suffix_steps.
Qed.

Lemma parser_suffix : leaves_suffix Grammar.parser.
Proof.
  unfold Grammar.parser, Grammar.directive, Grammar.edgeSpec, Grammar.data,
    Grammar.comment, Grammar.header, Grammar.entityDetails,
    Grammar.labelledEntity, Grammar.entity, Grammar.edge, Grammar.Identifier,
    Regex_not_colon_plus.
  suffix_steps.
Qed.

(** *** A directive or a comment takes the rest of the line *)

Lemma span_all_rest f s : all_chars f s = true -> span f s = (s, "").
Proof.
  induction s as [|c s IH]; simpl; [reflexivity|].
  intros H. apply andb_true_iff in H. destruct H as [Hc Hs].
  now rewrite Hc, (IH Hs).
Qed.

Lemma Regex_dot_star_rest s t r :
  one_line s = true -> Regex_dot_star s = Some (t, r) -> r = "".
Proof.
  unfold Regex_dot_star. intros Hs H.
  assert (Hp : one_line (preParse s) = true)
    by (eapply all_chars_suffix; [apply preParse_suffix|exact Hs]).
  change (fun c => negb (Ascii.eqb c Text.newline)) with not_newline in H.
  rewrite (span_all_rest _ _ Hp) in H. now inversion H.
Qed.

Lemma data_rest s res r :
  one_line s = true -> Grammar.data s = Some (res, r) -> r = "".
Proof.
  intros Hs. unfold Grammar.data, Grammar.comment, MatchFirst, And.
  assert (Hlast : named Grammar.set_data Regex_dot_star s = Some (res, r) ->
                  r = "").
  { unfold named. destruct (Regex_dot_star s) as [[d r']|] eqn:Hd; [|discriminate].
    intros H. inversion H; subst. eapply Regex_dot_star_rest; eassumption. }
  destruct (named Grammar.set_data (SkipTo "::") s) as [[d s1]|] eqn:H1;
    [|exact Hlast].
  destruct (Suppress (Literal "::") s1) as [[x s2]|] eqn:H2; [|exact Hlast].
  unfold named at 1.
  destruct (Regex_dot_star s2) as [[c s3]|] eqn:H3; [|exact Hlast].
  intros H. inversion H; subst.
  eapply Regex_dot_star_rest; [|exact H3].
  eapply all_chars_suffix; [|exact Hs].
  eapply suffix_of_trans.
  - eapply (Suppress_suffix _ (Literal_suffix "::")). exact H2.
  - eapply (named_suffix _ _ (SkipTo_suffix "::")). exact H1.
Qed.

Lemma directive_rest s res r :
  one_line s = true -> Grammar.directive s = Some (res, r) -> r = "".
Proof.
  intros Hs. unfold Grammar.directive, And.
  destruct (Grammar.header s) as [[h s1]|] eqn:H1; [|discriminate].
  destruct (Grammar.entityDetails s1) as [[e s2]|] eqn:H2; [|discriminate].
  destruct (Suppress (Literal ":") s2) as [[x s3]|] eqn:H3; [|discriminate].
  destruct (Grammar.data s3) as [[d s4]|] eqn:H4; [|discriminate].
  intros H. inversion H; subst. eapply data_rest; [|exact H4].
  eapply all_chars_suffix; [|exact Hs].
  eapply suffix_of_trans;
    [eapply (Suppress_suffix _ (Literal_suffix ":")); exact H3|].
  eapply suffix_of_trans; [eapply entityDetails_suffix; exact H2|].
  eapply header_suffix; exact H1.
Qed.

Lemma edgeSpec_rest s res r :
  one_line s = true -> Grammar.edgeSpec s = Some (res, r) ->
  st_directive res = None /\ (st_comment res <> None -> r = "").
Proof.
  intros Hs. unfold Grammar.edgeSpec, Grammar.comment, MatchFirst, And.
  assert (Hedge : forall e r1, Grammar.edge s = Some (e, r1) ->
                               st_directive e = None /\ st_comment e = None).
  { intros e r1 He. apply edge_results in He.
    destruct He as (a & b & -> & _). now split. }
  destruct (Grammar.edge s) as [[e s1]|] eqn:H1; [|discriminate].
  destruct (Hedge e s1 eq_refl) as [Hd Hc].
  assert (Hlast : Some (e, s1) = Some (res, r) ->
                  st_directive res = None /\ (st_comment res <> None -> r = "")).
  { intros H. inversion H; subst. split; [exact Hd|]. intros Hn.
    now elim Hn. }
  destruct (Suppress (Literal "::") s1) as [[x s2]|] eqn:H2; [|exact Hlast].
  unfold named.
  destruct (Regex_dot_star s2) as [[c s3]|] eqn:H3; [|exact Hlast].
  intros H. inversion H; subst. split.
  - apply edge_results in H1. destruct H1 as (a & b & -> & _).
    unfold Suppress in H2. destruct (Literal "::" s1) as [[y z]|]; [|discriminate].
    inversion H2; subst. reflexivity.
  - intros _. eapply Regex_dot_star_rest; [|exact H3].
    eapply all_chars_suffix; [|exact Hs].
    eapply suffix_of_trans;
      [eapply (Suppress_suffix _ (Literal_suffix "::")); exact H2|].
    eapply edge_suffix; exact H1.
Qed.

Lemma parser_rest s res r :
  one_line s = true -> Grammar.parser s = Some (res, r) ->
  st_directive res <> None \/ st_comment res <> None -> r = "".
Proof.
  intros Hs. unfold Grammar.parser, MatchFirst.
  destruct (Grammar.directive s) as [[d s1]|] eqn:H1.
  - intros H _. inversion H; subst. eapply directive_rest; eassumption.
  - intros H Hor. destruct (edgeSpec_rest _ _ _ Hs H) as [Hd Hc].
    destruct Hor as [Hor|Hor]; [now elim Hor|now apply Hc].
Qed.

Lemma scan_nothing_left rounds : scanString_rounds rounds Grammar.parser "" = [].
Proof. destruct rounds; reflexivity. Qed.

Lemma scan_ends rounds :
  forall s, one_line s = true ->
  forall pre st post,
    scanString_rounds rounds Grammar.parser s = (pre ++ st :: post)%list ->
    st_directive st <> None \/ st_comment st <> None ->
    post = [].
Proof.
  induction rounds as [|n IH]; intros s Hs pre st post Hscan Hor.
  - destruct pre; discriminate.
  - simpl in Hscan.
    assert (Hp : one_line (preParse s) = true)
      by (eapply all_chars_suffix; [apply preParse_suffix|exact Hs]).
    assert (Hadv : match preParse s with
                   | EmptyString => []
                   | String _ r => scanString_rounds n Grammar.parser r
                   end = (pre ++ st :: post)%list -> post = []).
    { destruct (preParse s) as [|c r] eqn:Hpre.
      - destruct pre; discriminate.
      - intros H. eapply IH; [|exact H|exact Hor].
        eapply all_chars_suffix; [apply suffix_of_tail|exact Hp]. }
    destruct (Grammar.parser (preParse s)) as [[tokens rest]|] eqn:Hparse;
      [|exact (Hadv Hscan)].
    destruct (String.length rest <? String.length s)%nat; [|exact (Hadv Hscan)].
    destruct pre as [|x pre].
    + simpl in Hscan. inversion Hscan; subst.
      rewrite (parser_rest _ _ _ Hp Hparse Hor). apply scan_nothing_left.
    + simpl in Hscan. inversion Hscan; subst.
      eapply IH; [|eassumption|exact Hor].
      eapply all_chars_suffix; [eapply parser_suffix; exact Hparse|exact Hp].
Qed.

Lemma all_chars_spaces f n : f " "%char = true -> all_chars f (spaces n) = true.
Proof. intros H. induction n; simpl; [reflexivity|]. now rewrite H, IHn. Qed.

Lemma one_line_expandtabs s :
  forall col, one_line s = true -> one_line (expandtabs_from col s) = true.
Proof.
  unfold one_line. induction s as [|c s IH]; simpl; intros col H; [reflexivity|].
  apply andb_true_iff in H. destruct H as [Hc Hs].
  destruct (Ascii.eqb c tab).
  - rewrite all_chars_app, all_chars_spaces by reflexivity. simpl. now apply IH.
  - destruct (Ascii.eqb c Text.newline || Ascii.eqb c cr); simpl;
      rewrite Hc; simpl; now apply IH.
Qed.

(** X2. In a line without line feed, a statement with a directive or with
    a comment is the last one the scanner finds: the data of a directive
    and the comment of an edge run to the end of the line, so an arrow
    inside them is not read as an edge. *)
Theorem directive_or_comment_ends_the_line
  (line : string) (i : nat) (s : statement) :
  one_line line = true ->
  nth_error (search_for_statements line) i = Some s ->
  st_directive s <> None \/ st_comment s <> None ->
  List.length (search_for_statements line) = S i.
Proof.
  intros Hline Hnth Hor.
  destruct (nth_error_split _ _ Hnth) as (pre & post & Heq & Hlen).
  assert (Hpost : post = []).
  { unfold search_for_statements, searchString in Heq.
    eapply scan_ends; [|exact Heq|exact Hor]. now apply one_line_expandtabs. }
  subst post. rewrite Heq, List.length_app. simpl. lia.
Qed.

Lemma directive_or_comment_ends_the_line_witness :
  List.length
    (search_for_statements "a --> b :: see c --> d, ..attr: c: red") = 1.
Proof.
  apply (directive_or_comment_ends_the_line
           "a --> b :: see c --> d, ..attr: c: red" 0
           (edge_with_comment "a" "b" "see c --> d, ..attr: c: red"));
    [reflexivity | reflexivity | right; discriminate].
Defined.

(** *** An edge written out reads back *)

Lemma identifier_char_facts c :
  Grammar.identifier_char c = true ->
  is_white c = false /\ c <> ":"%char /\ c <> " "%char /\ not_tab c = true
  /\ not_newline c = true.
Proof.
  destruct c as [[] [] [] [] [] [] [] []]; vm_compute; intros H;
    try discriminate; repeat split; discriminate.
Qed.

Lemma preParse_black c s : is_white c = false -> preParse (String c s) = String c s.
Proof. intros H. simpl. now rewrite H. Qed.

Lemma preParse_word a r :
  is_identifier a = true -> preParse (a ++ r) = a ++ r.
Proof.
  unfold is_identifier. destruct a as [|c a]; [discriminate|]. simpl.
  intros H. apply andb_true_iff in H. destruct H as [Hc _].
  apply identifier_char_facts in Hc. destruct Hc as [-> _]. reflexivity.
Qed.

Lemma span_word f a r :
  all_chars f a = true ->
  match r with EmptyString => True | String c _ => f c = false end ->
  span f (a ++ r) = (a, r).
Proof.
  induction a as [|c a IH]; simpl; intros Ha Hr.
  - destruct r as [|c r]; [reflexivity|]. simpl. now rewrite Hr.
  - apply andb_true_iff in Ha. destruct Ha as [Hc Ha].
    now rewrite Hc, (IH Ha Hr).
Qed.

Lemma Identifier_reads name a r :
  is_identifier a = true ->
  match r with
  | EmptyString => True
  | String c _ => Grammar.identifier_char c = false
  end ->
  forall k, Grammar.Identifier name (spaces k ++ a ++ r) = Some (name a, r).
Proof.
  intros Ha Hr k. unfold Grammar.Identifier, named, Word.
  rewrite preParse_spaces, (preParse_word _ _ Ha).
  unfold is_identifier in Ha. apply andb_true_iff in Ha. destruct Ha as [Hne Ha].
  rewrite (span_word _ _ _ Ha Hr). destruct a; [discriminate|reflexivity].
Qed.

Lemma edge_reads a b n m tail :
  is_identifier a = true -> is_identifier b = true ->
  match tail with
  | EmptyString => True
  | String c _ => Grammar.identifier_char c = false
  end ->
  Grammar.edge (edge_text a b n m ++ tail) = Some (bare_edge a b, tail).
Proof.
  intros Ha Hb Ht. unfold Grammar.edge, And, edge_text.
  rewrite !append_assoc.
  assert (H1 : Grammar.Identifier Grammar.set_start
                 (a ++ spaces (S n) ++ "-->" ++ spaces m ++ b ++ tail)
               = Some (Grammar.set_start a,
                       spaces (S n) ++ "-->" ++ spaces m ++ b ++ tail))
    by exact (Identifier_reads Grammar.set_start a
                (spaces (S n) ++ "-->" ++ spaces m ++ b ++ tail) Ha eq_refl 0).
  rewrite H1.
  unfold Suppress, Literal at 1.
  change (spaces (S n) ++ "-->" ++ spaces m ++ b ++ tail)
    with (spaces (S n) ++ ("-->" ++ spaces m ++ b ++ tail)).
  rewrite preParse_spaces.
  change (preParse ("-->" ++ spaces m ++ b ++ tail))
    with ("-->" ++ spaces m ++ b ++ tail).
  change (match_prefix "-->" ("-->" ++ spaces m ++ b ++ tail))
    with (Some (spaces m ++ b ++ tail)).
  cbv iota beta.
  now rewrite (Identifier_reads Grammar.set_end b tail Hb Ht m).
Qed.

Lemma oneOf_match words s w r :
  oneOf words s = Some (w, r) ->
  In w words /\ match_prefix w (preParse s) = Some r.
Proof.
  induction words as [|x ws IH]; simpl; [discriminate|].
  destruct (match_prefix x (preParse s)) as [r'|] eqn:Hm.
  - intros H. inversion H; subst. split; [now left|exact Hm].
  - intros H. destruct (IH H) as [Hin Hw]. split; [now right|exact Hw].
Qed.

Lemma match_prefix_word w :
  forall x R r,
    all_chars Grammar.identifier_char w = true ->
    match_prefix w (x ++ String " " R) = Some r ->
    exists x', x = w ++ x' /\ r = x' ++ String " " R.
Proof.
  induction w as [|c w IH]; simpl; intros x R r Hw H.
  - inversion H. now exists x.
  - apply andb_true_iff in Hw. destruct Hw as [Hc Hw].
    destruct x as [|d x]; simpl in H.
    + destruct (Ascii.eqb c " ") eqn:E; [|discriminate].
      apply Ascii.eqb_eq in E. subst c. discriminate.
    + destruct (Ascii.eqb c d) eqn:E; [|discriminate].
      apply Ascii.eqb_eq in E. subst d.
      destruct (IH x R r Hw H) as (x' & -> & ->). now exists x'.
Qed.

Lemma Literal_colon_fails x n rest :
  all_chars Grammar.identifier_char x = true ->
  Literal ":" (x ++ spaces (S n) ++ "-->" ++ rest) = None.
Proof.
  intros Hx. unfold Literal. destruct x as [|c x].
  - change ("" ++ spaces (S n) ++ "-->" ++ rest)
      with (spaces (S n) ++ ("-->" ++ rest)).
    rewrite preParse_spaces. reflexivity.
  - simpl in Hx. apply andb_true_iff in Hx. destruct Hx as [Hc _].
    apply identifier_char_facts in Hc. destruct Hc as (Hw & Hcolon & _).
    change (String c x ++ spaces (S n) ++ "-->" ++ rest)
      with (String c (x ++ spaces (S n) ++ "-->" ++ rest)).
    rewrite (preParse_black _ _ Hw). cbn [match_prefix].
    destruct (Ascii.eqb ":" c) eqn:E; [|reflexivity].
    apply Ascii.eqb_eq in E. now elim Hcolon.
Qed.

Lemma directive_words_are_words w :
  In w directive_words -> all_chars Grammar.identifier_char w = true.
Proof.
  intros H. repeat (destruct H as [<-|H]; [reflexivity|]). destruct H.
Qed.

Lemma header_fails a n rest :
  is_identifier a = true ->
  Grammar.header (a ++ spaces (S n) ++ "-->" ++ rest) = None.
Proof.
  intros Ha. unfold Grammar.header, And, Suppress, Literal at 1.
  rewrite (preParse_word _ _ Ha).
  destruct (match_prefix ".." (a ++ spaces (S n) ++ "-->" ++ rest)) as [r|] eqn:H;
    [|reflexivity].
  change (spaces (S n) ++ "-->" ++ rest)
    with (String " " (spaces n ++ "-->" ++ rest)) in H.
  apply match_prefix_word in H; [|reflexivity].
  destruct H as (x & -> & ->).
  unfold is_identifier in Ha. apply andb_true_iff in Ha. destruct Ha as [_ Ha].
  rewrite all_chars_app in Ha. apply andb_true_iff in Ha. destruct Ha as [_ Hx].
  unfold named.
  destruct (oneOf _ (x ++ String " " (spaces n ++ "-->" ++ rest)))
    as [[w r]|] eqn:Hw; [|reflexivity].
  apply oneOf_match in Hw. destruct Hw as [Hin Hm].
  assert (Hr : exists y, all_chars Grammar.identifier_char y = true /\
                         r = y ++ spaces (S n) ++ "-->" ++ rest).
  { destruct x as [|c x].
    - change ("" ++ String " " (spaces n ++ "-->" ++ rest))
        with (spaces (S n) ++ ("-->" ++ rest)) in Hm.
      rewrite preParse_spaces in Hm.
      repeat (destruct Hin as [<-|Hin]; [discriminate|]). destruct Hin.
    - assert (Hc : is_white c = false).
      { simpl in Hx. apply andb_true_iff in Hx. destruct Hx as [Hc _].
        now apply identifier_char_facts in Hc. }
      change (String c x ++ String " " (spaces n ++ "-->" ++ rest))
        with (String c (x ++ String " " (spaces n ++ "-->" ++ rest))) in Hm.
      rewrite (preParse_black _ _ Hc) in Hm.
      change (String c (x ++ String " " (spaces n ++ "-->" ++ rest)))
        with (String c x ++ String " " (spaces n ++ "-->" ++ rest)) in Hm.
      apply match_prefix_word in Hm; [|now apply directive_words_are_words].
      destruct Hm as (y & Hy & ->). exists y. split; [|reflexivity].
      rewrite Hy, all_chars_app in Hx. apply andb_true_iff in Hx. tauto. }
  destruct Hr as (y & Hy & ->). now rewrite (Literal_colon_fails y n rest Hy).
Qed.

Lemma append_empty (s : string) : s ++ "" = s.
Proof. induction s as [|c s IH]; simpl; [reflexivity|now rewrite IH]. Qed.

Lemma all_chars_impl (f h : ascii -> bool) s :
  (forall c, f c = true -> h c = true) ->
  all_chars f s = true -> all_chars h s = true.
Proof.
  intros Hfh. induction s as [|c s IH]; simpl; [reflexivity|].
  intros H. apply andb_true_iff in H. destruct H as [Hc Hs].
  now rewrite (Hfh c Hc), (IH Hs).
Qed.

Lemma expandtabs_no_tab s :
  all_chars not_tab s = true -> forall col, expandtabs_from col s = s.
Proof.
  induction s as [|c s IH]; simpl; intros H col; [reflexivity|].
  apply andb_true_iff in H. destruct H as [Hc Hs].
  unfold not_tab in Hc. apply negb_true_iff in Hc. rewrite Hc.
  destruct (Ascii.eqb c Text.newline || Ascii.eqb c cr); now rewrite IH.
Qed.

Lemma identifier_no_tab a : is_identifier a = true -> all_chars not_tab a = true.
Proof.
  unfold is_identifier. intros H. apply andb_true_iff in H. destruct H as [_ H].
  eapply all_chars_impl; [|exact H]. intros c Hc.
  now apply identifier_char_facts in Hc.
Qed.

Lemma edge_text_no_tab a b n m :
  is_identifier a = true -> is_identifier b = true ->
  all_chars not_tab (edge_text a b n m) = true.
Proof.
  intros Ha Hb. unfold edge_text.
  rewrite !all_chars_app, (identifier_no_tab a Ha), (identifier_no_tab b Hb),
    !all_chars_spaces by reflexivity.
  reflexivity.
Qed.

Lemma directive_fails_on_edge a b n m tail :
  is_identifier a = true ->
  Grammar.directive (edge_text a b n m ++ tail) = None.
Proof.
  intros Ha. unfold Grammar.directive, And, edge_text. rewrite !append_assoc.
  now rewrite (header_fails a n _ Ha).
Qed.

Lemma parser_reads_edge a b n m :
  is_identifier a = true -> is_identifier b = true ->
  Grammar.parser (edge_text a b n m) = Some (bare_edge a b, "").
Proof.
  intros Ha Hb. rewrite <- (append_empty (edge_text a b n m)).
  unfold Grammar.parser, MatchFirst.
  rewrite (directive_fails_on_edge a b n m "" Ha).
  unfold Grammar.edgeSpec, MatchFirst, And.
  now rewrite (edge_reads a b n m "" Ha Hb I).
Qed.

Lemma parser_reads_commented_edge a b n m k j comment :
  is_identifier a = true -> is_identifier b = true ->
  plain_comment comment = true ->
  Grammar.parser (commented_edge_text a b n m k j comment)
  = Some (edge_with_comment a b comment, "").
Proof.
  intros Ha Hb Hc. unfold commented_edge_text.
  unfold Grammar.parser, MatchFirst.
  rewrite (directive_fails_on_edge a b n m _ Ha).
  unfold Grammar.edgeSpec, MatchFirst, And.
  rewrite (edge_reads a b n m _ Ha Hb) by (destruct k; reflexivity).
  unfold Suppress, Literal.
  change (spaces k ++ "::" ++ spaces j ++ comment)
    with (spaces k ++ ("::" ++ spaces j ++ comment)).
  rewrite preParse_spaces.
  change (preParse ("::" ++ spaces j ++ comment))
    with ("::" ++ spaces j ++ comment).
  change (match_prefix "::" ("::" ++ spaces j ++ comment))
    with (Some (spaces j ++ comment)).
  cbv iota beta. unfold Grammar.comment, named, Regex_dot_star.
  rewrite preParse_spaces.
  unfold plain_comment in Hc. apply andb_true_iff in Hc.
  destruct Hc as [Hc Hblack]. apply andb_true_iff in Hc. destruct Hc as [Hline _].
  assert (Hpre : preParse comment = comment).
  { destruct comment as [|c r]; [reflexivity|].
    apply negb_true_iff in Hblack. now apply preParse_black. }
  rewrite Hpre.
  change (fun c => negb (Ascii.eqb c Text.newline)) with not_newline.
  now rewrite (span_all_rest _ _ Hline).
Qed.

Lemma edge_text_starts a b n m r :
  is_identifier a = true ->
  preParse (edge_text a b n m ++ r) = edge_text a b n m ++ r /\
  edge_text a b n m ++ r <> "".
Proof.
  intros Ha. unfold edge_text. rewrite !append_assoc. split.
  - now apply preParse_word.
  - destruct a; [discriminate|]. discriminate.
Qed.

(** X3. An edge written as a line reads back as it was written: for any two
    identifier words, the line [a --> b] (with any number of spaces around
    the arrow, one before it at least) scans to the one statement of that
    edge, and with a comment behind [::] to the one statement that carries
    the comment too. *)
Theorem edge_line_reads_back (a b : string) (n m : nat) :
  is_identifier a = true -> is_identifier b = true ->
  search_for_statements (edge_text a b n m) = [bare_edge a b] /\
  (forall k j comment,
      plain_comment comment = true ->
      search_for_statements (commented_edge_text a b n m k j comment)
      = [edge_with_comment a b comment]).
Proof.
  intros Ha Hb. unfold search_for_statements, searchString, expandtabs. split.
  - rewrite (expandtabs_no_tab _ (edge_text_no_tab a b n m Ha Hb)).
    destruct (edge_text_starts a b n m "" Ha) as [Hpre Hne].
    rewrite append_empty in Hpre, Hne.
    apply scanString_single; [exact Hpre|exact Hne| |reflexivity].
    now apply parser_reads_edge.
  - intros k j comment Hc.
    assert (Htab : all_chars not_tab (commented_edge_text a b n m k j comment)
                   = true).
    { unfold commented_edge_text.
      rewrite !all_chars_app, (edge_text_no_tab a b n m Ha Hb),
        !all_chars_spaces by reflexivity.
      unfold plain_comment in Hc. apply andb_true_iff in Hc.
      destruct Hc as [Hc _]. apply andb_true_iff in Hc. now destruct Hc as [_ ->]. }
    rewrite (expandtabs_no_tab _ Htab).
    destruct (edge_text_starts a b n m
                (spaces k ++ "::" ++ spaces j ++ comment) Ha) as [Hpre Hne].
    apply scanString_single; [exact Hpre|exact Hne| |reflexivity].
    now apply parser_reads_commented_edge.
Qed.

Lemma edge_line_reads_back_witness :
  search_for_statements (edge_text "docker.socket" "host.root" 0 1)
  = [bare_edge "docker.socket" "host.root"] /\
  (forall k j comment,
      plain_comment comment = true ->
      search_for_statements
        (commented_edge_text "docker.socket" "host.root" 0 1 k j comment)
      = [edge_with_comment "docker.socket" "host.root" comment]).
Proof.
  apply (edge_line_reads_back "docker.socket" "host.root" 0 1); reflexivity.
Defined.

(** *** No statement without its mark *)

Lemma occurs_prefix sub s r : match_prefix sub s = Some r -> occurs sub s = true.
Proof. intros H. destruct s; simpl; now rewrite H. Qed.

Lemma occurs_tail sub c s : occurs sub s = true -> occurs sub (String c s) = true.
Proof.
  intros H. simpl. now destruct (match_prefix sub (String c s)).
Qed.

Lemma occurs_suffix sub r s :
  suffix_of r s -> occurs sub r = true -> occurs sub s = true.
Proof.
  intros [p ->]. induction p as [|c p IH]; simpl append; [auto|].
  intros H. apply occurs_tail. now apply IH.
Qed.

Lemma Literal_occurs lit s t r : Literal lit s = Some (t, r) -> occurs lit s = true.
Proof.
  unfold Literal.
  destruct (match_prefix lit (preParse s)) as [r'|] eqn:Hm; [|discriminate].
  intros _. eapply occurs_suffix; [apply preParse_suffix|].
  eapply occurs_prefix. exact Hm.
Qed.

Lemma edge_occurs s res r : Grammar.edge s = Some (res, r) -> occurs "-->" s = true.
Proof.
  unfold Grammar.edge, And.
  destruct (Grammar.Identifier Grammar.set_start s) as [[ra s1]|] eqn:H1;
    [|discriminate].
  unfold Suppress at 1.
  destruct (Literal "-->" s1) as [[t s2]|] eqn:H2; [|discriminate].
  intros _. eapply occurs_suffix.
  - eapply (named_suffix _ _ (Word_suffix _)). exact H1.
  - eapply Literal_occurs. exact H2.
Qed.

Lemma header_occurs s res r :
  Grammar.header s = Some (res, r) -> occurs ".." s = true.
Proof.
  unfold Grammar.header, And. unfold Suppress at 1.
  destruct (Literal ".." s) as [[t s1]|] eqn:H1; [|discriminate].
  intros _. eapply Literal_occurs. exact H1.
Qed.

Lemma entityDetails_occurs s res r :
  Grammar.entityDetails s = Some (res, r) ->
  st_directive res = None /\
  (st_start res <> None -> occurs "-->" s = true).
Proof.
  intros H. assert (Hent : forall e r1, Grammar.entity s = Some (e, r1) ->
                      st_start e <> None -> occurs "-->" s = true).
  { unfold Grammar.entity, MatchFirst. intros e r1.
    destruct (Grammar.edge s) as [[re s1]|] eqn:He.
    - intros _ _. eapply edge_occurs. exact He.
    - intros Hn. apply Identifier_word in Hn. destruct Hn as (w & -> & _).
      intros Hs. now elim Hs. }
  revert H. unfold Grammar.entityDetails, Grammar.labelledEntity, MatchFirst, And.
  destruct (Grammar.entity s) as [[e' s1]|] eqn:He'; [|discriminate].
  assert (Hs : st_start e' <> None -> occurs "-->" s = true)
    by (eapply Hent; reflexivity).
  assert (Hde : st_directive e' = None).
  { apply entity_results in He'.
    destruct He' as [(a & b & -> & _)|(n & -> & _)]; reflexivity. }
  destruct (Suppress (Literal ",") s1) as [[x s2]|] eqn:Hc.
  - unfold named.
    destruct (Regex_not_colon_plus s2) as [[l s3]|].
    + intros E. inversion E; subst.
      unfold Suppress in Hc. destruct (Literal "," s1) as [[y z]|]; [|discriminate].
      inversion Hc; subst.
      apply entity_results in He'.
      destruct He' as [(a & b & -> & _)|(n & -> & _)]; simpl.
      * split; [reflexivity|]. intros _. apply Hs. discriminate.
      * split; [reflexivity|]. intros Hn. now elim Hn.
    + intros E. inversion E; subst. now split.
  - intros E. inversion E; subst. now split.
Qed.

Lemma parser_occurs s res r :
  Grammar.parser s = Some (res, r) ->
  (st_start res <> None -> occurs "-->" s = true) /\
  (st_directive res <> None -> occurs ".." s = true).
Proof.
  unfold Grammar.parser, MatchFirst.
  destruct (Grammar.directive s) as [[d s0]|] eqn:Hd.
  - intros E. inversion E; subst. clear E. revert Hd.
    unfold Grammar.directive, And.
    destruct (Grammar.header s) as [[h s1]|] eqn:H1; [|discriminate].
    destruct (Grammar.entityDetails s1) as [[e s2]|] eqn:H2; [|discriminate].
    unfold Suppress at 1.
    destruct (Literal ":" s2) as [[t s3]|]; [|discriminate].
    destruct (Grammar.data s3) as [[dat s4]|] eqn:H4; [|discriminate].
    intros E. inversion E; subst. clear E. split.
    + intros Hs. eapply occurs_suffix; [eapply header_suffix; exact H1|].
      apply (entityDetails_occurs _ _ _ H2).
      apply header_results in H1. destruct H1 as (w & -> & _).
      apply data_results in H4.
      destruct H4 as (dt & [->|(c & ->)]); simpl in Hs;
        destruct (st_start e); congruence.
    + intros _. eapply header_occurs. exact H1.
  - unfold Grammar.edgeSpec, MatchFirst, And.
    destruct (Grammar.edge s) as [[e s1]|] eqn:He; [|discriminate].
    pose proof (edge_occurs _ _ _ He) as Hocc.
    apply edge_results in He. destruct He as (a & b & -> & _).
    unfold Suppress at 1.
    destruct (Literal "::" s1) as [[t s2]|].
    + unfold Grammar.comment, named.
      destruct (Regex_dot_star s2) as [[c s3]|].
      * intros E. inversion E; subst. split; [auto|]. intros Hn. now elim Hn.
      * intros E. inversion E; subst. split; [auto|]. intros Hn. now elim Hn.
    + intros E. inversion E; subst. split; [auto|]. intros Hn. now elim Hn.
Qed.

(** What [scanString] yields was matched at some place of the text. *)
Lemma scanString_matches_within (p : ParserElement) rounds :
  leaves_suffix p ->
  forall s t, In t (scanString_rounds rounds p s) ->
              exists s' r, suffix_of s' s /\ p s' = Some (t, r).
Proof.
  intros Hp. induction rounds as [|n IH]; simpl; intros s t Hin; [contradiction|].
  assert (Hadv : In t match preParse s with
                      | EmptyString => []
                      | String _ r => scanString_rounds n p r
                      end -> exists s' r, suffix_of s' s /\ p s' = Some (t, r)).
  { destruct (preParse s) as [|c r0] eqn:Hpre; [contradiction|]. intros H.
    destruct (IH _ _ H) as (s' & r & Hs & Hm). exists s', r. split; [|exact Hm].
    eapply suffix_of_trans; [exact Hs|].
    eapply suffix_of_trans; [apply suffix_of_tail|].
    rewrite <- Hpre. apply preParse_suffix. }
  destruct (p (preParse s)) as [[tokens rest]|] eqn:Hm; [|now apply Hadv].
  destruct (String.length rest <? String.length s)%nat; [|now apply Hadv].
  destruct Hin as [<-|Hin].
  - exists (preParse s), rest. split; [apply preParse_suffix|exact Hm].
  - destruct (IH _ _ Hin) as (s' & r & Hs & Hm'). exists s', r.
    split; [|exact Hm'].
    eapply suffix_of_trans; [exact Hs|].
    eapply suffix_of_trans; [eapply Hp; exact Hm|apply preParse_suffix].
Qed.

Lemma match_prefix_expandtabs sub :
  all_chars black sub = true -> sub <> "" ->
  forall s col r,
    match_prefix sub (expandtabs_from col s) = Some r ->
    exists r', match_prefix sub s = Some r'.
Proof.
  intros Hb _. induction sub as [|c sub IH]; intros s col r H.
  - now exists s.
  - simpl in Hb. apply andb_true_iff in Hb. destruct Hb as [Hc Hb].
    unfold black in Hc. apply andb_true_iff in Hc. destruct Hc as [Hsp Htab].
    apply negb_true_iff in Hsp, Htab.
    destruct s as [|d s]; [discriminate|].
    cbn [expandtabs_from] in H.
    destruct (Ascii.eqb d tab) eqn:Hd.
    + destruct (8 - col mod 8) as [|k] eqn:Hk.
      * pose proof (Nat.mod_upper_bound col 8). lia.
      * cbn [spaces String.append match_prefix] in H. rewrite Hsp in H. discriminate.
    + assert (Hm : match_prefix (String c sub)
                     (String d (expandtabs_from
                                  (if Ascii.eqb d Text.newline || Ascii.eqb d cr
                                   then 0 else S col) s)) = Some r)
        by (destruct (Ascii.eqb d Text.newline || Ascii.eqb d cr); exact H).
      cbn [match_prefix] in Hm |- *.
      destruct (Ascii.eqb c d); [|discriminate].
      eapply IH; [exact Hb|exact Hm].
Qed.

Lemma occurs_spaces sub n r :
  all_chars black sub = true -> sub <> "" ->
  occurs sub (spaces n ++ r) = true -> occurs sub r = true.
Proof.
  intros Hb Hne. induction n as [|n IH]; [auto|].
  cbn [spaces String.append occurs]. destruct sub as [|c sub]; [now elim Hne|].
  simpl in Hb. apply andb_true_iff in Hb. destruct Hb as [Hc _].
  unfold black in Hc. apply andb_true_iff in Hc. destruct Hc as [Hsp _].
  apply negb_true_iff in Hsp. cbn [match_prefix]. rewrite Hsp. exact IH.
Qed.

Lemma occurs_expandtabs sub :
  all_chars black sub = true -> sub <> "" ->
  forall s col, occurs sub (expandtabs_from col s) = true -> occurs sub s = true.
Proof.
  intros Hb Hne. induction s as [|d s IH]; intros col H; [exact H|].
  destruct (match_prefix sub (expandtabs_from col (String d s))) as [r|] eqn:Hm.
  - destruct (match_prefix_expandtabs sub Hb Hne _ _ _ Hm) as (r' & Hr').
    eapply occurs_prefix. exact Hr'.
  - apply occurs_tail. cbn [expandtabs_from] in H, Hm.
    destruct (Ascii.eqb d tab).
    + apply occurs_spaces in H; [|exact Hb|exact Hne]. eapply IH. exact H.
    + destruct (Ascii.eqb d Text.newline || Ascii.eqb d cr);
        cbn [occurs] in H; rewrite Hm in H; eapply IH; exact H.
Qed.

(** X4. The scanner finds no edge in a line without the arrow [-->] and no
    directive in a line without two dots: a statement with a start comes
    from a line that holds the arrow, and a statement with a directive from
    a line that holds the dots; so a line with neither yields nothing. *)
Theorem statement_needs_its_mark (line : string) (s : statement) :
  In s (search_for_statements line) ->
  (st_start s <> None -> occurs "-->" line = true) /\
  (st_directive s <> None -> occurs ".." line = true) /\
  (occurs "-->" line = true \/ occurs ".." line = true).
Proof.
  unfold search_for_statements, searchString, expandtabs. intros Hin.
  pose proof (scanString_matches _ _ _ _ Hin) as (s0 & r0 & Hshape).
  apply parser_shape in Hshape.
  apply (scanString_matches_within _ _ parser_suffix) in Hin.
  destruct Hin as (s' & r & Hsuf & Hm).
  apply parser_occurs in Hm. destruct Hm as [Harrow Hdots].
  assert (Ha : st_start s <> None -> occurs "-->" line = true).
  { intros Hs. apply (occurs_expandtabs "-->" eq_refl) with (col := 0);
      [discriminate|].
    eapply occurs_suffix; [exact Hsuf|]. now apply Harrow. }
  assert (Hd : st_directive s <> None -> occurs ".." line = true).
  { intros Hs. apply (occurs_expandtabs ".." eq_refl) with (col := 0);
      [discriminate|].
    eapply occurs_suffix; [exact Hsuf|]. now apply Hdots. }
  split; [exact Ha|]. split; [exact Hd|].
  destruct Hshape as [[(a & b & Hs & _)|[_ Hn]] _].
  - left. apply Ha. rewrite Hs. discriminate.
  - right. now apply Hd.
Qed.

Lemma statement_needs_its_mark_witness :
  (st_start attr_with_comment <> None ->
   occurs "-->" "..attr: n: color=red :: why" = true) /\
  (st_directive attr_with_comment <> None ->
   occurs ".." "..attr: n: color=red :: why" = true) /\
  (occurs "-->" "..attr: n: color=red :: why" = true
   \/ occurs ".." "..attr: n: color=red :: why" = true).
Proof.
  apply (statement_needs_its_mark "..attr: n: color=red :: why"
           attr_with_comment).
  left. reflexivity.
Defined.

(* ===================================================================== *)
(** ** Further properties: the builder *)
(* ===================================================================== *)

Lemma set_g_id G : set_g (fun x => x) G = G.
Proof. now destruct G. Qed.

Lemma set_g_ext (f h : DiGraph.t -> DiGraph.t) G :
  f (g G) = h (g G) -> set_g f G = set_g h G.
Proof. intros H. unfold set_g. now rewrite H. Qed.

Lemma subgraph_loop n pieces :
  forall G,
    for_each pieces
      (fun child =>
         if Text.nonempty child
         then modify (set_g (DiGraph.add_edge n child
                {| DiGraph.e_comment := None; DiGraph.e_label := None;
                   DiGraph.e_is_subgraph_relation := true |}))
         else ret tt) G
    = (Ok tt, set_g (add_children n (filter Text.nonempty pieces)) G).
Proof.
  induction pieces as [|c pieces IH]; intros G; simpl.
  - unfold ret. now rewrite set_g_id.
  - unfold bind. destruct (Text.nonempty c); simpl.
    + unfold modify. rewrite IH. reflexivity.
    + unfold ret. apply IH.
Qed.

Lemma handle_subgraph_spec statement G n data :
  st_node statement = Some n -> st_data statement = Some data ->
  _handle_subgraph statement G
  = let G1 := set_g (add_children n (children_of data)) G in
    match Dict.get n (DiGraph._node (g G1)) with
    | Some _ =>
        (Ok tt,
         set_g (mark_subgraph n (Text.truthy (st_label statement))) G1)
    | None => (Raise (KeyError n), G1)
    end.
Proof.
  intros Hn Hd. unfold _handle_subgraph. rewrite Hn, Hd.
  unfold bind at 1. unfold getitem at 1. unfold ret at 1.
  unfold bind at 1. unfold getitem at 1. unfold ret at 1.
  unfold bind at 1. rewrite subgraph_loop.
  unfold bind, getitem, children_of. cbv zeta.
  destruct (Dict.get n (DiGraph._node
              (g (set_g (add_children n
                           (filter Text.nonempty (Text.re_split_comma data))) G))))
    as [d|] eqn:Hget; [|reflexivity].
  unfold ret, modify. f_equal. apply set_g_ext.
  unfold mark_subgraph, Dict.get_default. now rewrite Hget.
Qed.

(** *** The graph stays consistent *)

Lemma consistent_iff G : consistent G = true <-> consistent_prop G.
Proof.
  unfold consistent, consistent_prop. rewrite !andb_true_iff, forallb_forall.
  rewrite well_formed_iff. split.
  - intros [[Hwf Hnd] Hstep]. split; [exact Hwf|]. split; [now apply nodupb_NoDup|].
    intros x. destruct (Dict.mem x (DiGraph._node G)) eqn:Hx.
    + symmetry. apply Hstep. now apply mem_In_keys.
    + destruct (Dict.mem x (DiGraph._succ G)) eqn:Hs; [|reflexivity].
      apply mem_In_keys in Hs. destruct Hwf as [_ Hall].
      apply in_map_iff in Hs. destruct Hs as ([k nbrs] & Hk & Hin).
      simpl in Hk. subst k. destruct (Hall x nbrs Hin) as [Hnode _].
      apply mem_In_keys in Hnode. congruence.
  - intros (Hwf & Hnd & Hstep). split; [split|].
    + exact Hwf.
    + now apply NoDup_nodupb.
    + intros x Hx. rewrite <- Hstep. now apply mem_In_keys.
Qed.

Lemma consistent_add_missing_node u G :
  consistent_prop G -> consistent_prop (DiGraph.add_missing_node u G).
Proof.
  intros (Hwf & Hnd & Hstep). split; [now apply wf_add_missing_node|].
  unfold DiGraph.add_missing_node.
  destruct (Dict.mem u (DiGraph._succ G)) eqn:Hu; [now split|]. simpl. split.
  - now apply NoDup_keys_set.
  - intros x. destruct (String.eqb_spec x u) as [->|Hne].
    + now rewrite !mem_set_same.
    + rewrite !mem_set_other by exact Hne. apply Hstep.
Qed.

Lemma consistent_add_edge u v attr G :
  consistent_prop G -> consistent_prop (DiGraph.add_edge u v attr G).
Proof.
  intros H. pose proof H as (Hwf & _). split; [now apply wf_add_edge|].
  pose proof (consistent_add_missing_node v _
                (consistent_add_missing_node u _ H)) as (Hwf2 & Hnd2 & Hstep2).
  unfold DiGraph.add_edge. simpl. split; [exact Hnd2|].
  intros x. rewrite Hstep2. destruct (String.eqb_spec x u) as [->|Hne].
  - rewrite mem_set_same.
    destruct (wf_add_missing_node u G Hwf) as (Hwf1 & Hu & _).
    destruct (wf_add_missing_node v _ Hwf1) as (_ & _ & Hmono). now apply Hmono.
  - now rewrite mem_set_other.
Qed.

Lemma has_node_add_edge u v attr G x :
  consistent_prop G ->
  DiGraph.has_node (DiGraph.add_edge u v attr G) x
  = (String.eqb x u || String.eqb x v || DiGraph.has_node G x).
Proof.
  intros (Hwf & Hnd & Hstep). unfold DiGraph.has_node, DiGraph.add_edge. simpl.
  assert (Hone : forall w H, (forall y, Dict.mem y (DiGraph._node H)
                                     = Dict.mem y (DiGraph._succ H)) ->
            Dict.mem x (DiGraph._node (DiGraph.add_missing_node w H))
            = (String.eqb x w || Dict.mem x (DiGraph._node H))).
  { intros w H Hs. unfold DiGraph.add_missing_node.
    destruct (Dict.mem w (DiGraph._succ H)) eqn:Hw.
    - destruct (String.eqb_spec x w) as [->|Hne]; [|reflexivity].
      now rewrite Hs, Hw.
    - simpl. destruct (String.eqb_spec x w) as [->|Hne].
      + now rewrite mem_set_same.
      + now rewrite mem_set_other. }
  rewrite Hone.
  - rewrite (Hone u G Hstep).
    destruct (String.eqb x u), (String.eqb x v); reflexivity.
  - now destruct (consistent_add_missing_node u G
                    (conj Hwf (conj Hnd Hstep))) as (_ & _ & H).
Qed.

Lemma consistent_add_children n children :
  forall G, consistent_prop G -> consistent_prop (add_children n children G).
Proof.
  unfold add_children. induction children as [|c r IH]; simpl; intros G H; auto.
  apply IH. now apply consistent_add_edge.
Qed.

Lemma has_node_add_children n children x :
  forall G, consistent_prop G ->
    DiGraph.has_node (add_children n children G) x = true
    <-> (children <> [] /\ x = n) \/ In x children \/ DiGraph.has_node G x = true.
Proof.
  unfold add_children. induction children as [|c r IH]; simpl; intros G H.
  - split; [auto|]. intros [[Hne _]|[[]|Hx]]; [now elim Hne|exact Hx].
  - rewrite (IH _ (consistent_add_edge n c subgraph_relation G H)).
    rewrite (has_node_add_edge n c subgraph_relation G x H).
    rewrite !orb_true_iff, !String.eqb_eq. split.
    + intros [[_ Hx]|[Hin|[[Hx|Hx]|Hx]]].
      * left. split; [discriminate|exact Hx].
      * right. left. now right.
      * left. split; [discriminate|exact Hx].
      * right. left. now left.
      * right. now right.
    + intros [[_ Hx]|[[Hx|Hin]|Hx]].
      * right. right. left. now left.
      * right. right. left. now right.
      * right. now left.
      * right. right. now right.
Qed.

Lemma consistent_mark_subgraph n label G :
  consistent_prop G -> DiGraph.has_node G n = true ->
  consistent_prop (mark_subgraph n label G).
Proof.
  intros (Hwf & Hnd & Hstep) Hn. unfold mark_subgraph. split; [|split]; simpl.
  - now apply wf_set_node_data.
  - now apply NoDup_keys_set.
  - intros x. rewrite <- Hstep. destruct (String.eqb_spec x n) as [->|Hne].
    + now rewrite mem_set_same.
    + now rewrite mem_set_other.
Qed.

Lemma include_statement_consistent statement G :
  consistent_prop (g G) ->
  consistent_prop (g (snd (include_statement statement G))).
Proof.
  intros H. unfold include_statement.
  destruct (st_start statement) as [start|] eqn:Hs.
  - unfold _handle_edge_statement, edge_attrs_extend, edge_attrs_getitem.
    rewrite Hs. run_monad.
    destruct (st_directive statement) as [d|]; simpl;
      [destruct (negb (String.eqb d "attr")); simpl; auto|];
      (destruct (st_end statement); simpl; auto;
       destruct (Text.truthy (st_data statement)); simpl;
       now apply consistent_add_edge).
  - unfold _handle_node_statement.
    destruct (st_directive statement) as [d|]; [|exact H].
    destruct (st_node statement) as [n|] eqn:Hn; [|exact H].
    unfold getitem. unfold bind at 1. unfold ret at 1.
    unfold bind at 1. unfold ret at 1.
    destruct (String.eqb d "subgraph").
    + destruct (st_data statement) as [da|] eqn:Hd.
      * rewrite (handle_subgraph_spec statement G n da Hn Hd). cbv zeta.
        assert (H1 : consistent_prop
                       (g (set_g (add_children n (children_of da)) G)))
          by (simpl; now apply consistent_add_children).
        match goal with
        | |- context [match ?x with Some _ => _ | None => _ end] =>
            destruct x eqn:Hget; [|exact H1]
        end.
        simpl in Hget |- *. apply consistent_mark_subgraph; [exact H1|].
        unfold DiGraph.has_node, Dict.mem. now rewrite Hget.
      * unfold _handle_subgraph. rewrite Hd. exact H.
    + destruct (String.eqb d "attr"); [|exact H].
      run_monad.
      destruct (String.eqb n "graph");
        destruct (st_data statement); simpl; auto.
      destruct (Text.truthy (st_comment statement)); simpl; auto.
Qed.

Lemma from_lines_consistent_prop lines include_everything :
  consistent_prop (g (snd (from_lines lines include_everything))).
Proof.
  unfold from_lines.
  apply (for_each_preserves (fun G => consistent_prop (g G))).
  - intros line s Hs. unfold include_line.
    apply (for_each_preserves (fun G => consistent_prop (g G))); auto.
    intros st s' Hs'. now apply include_statement_consistent.
  - apply consistent_iff. reflexivity.
Qed.

(** *** What a statement of the scanner can raise *)

Lemma include_shaped_raises s G e G' :
  consistent_prop (g G) -> statement_shape s ->
  include_statement s G = (Raise e, G') ->
  G' = G /\
  ((exists d, st_start s <> None /\ st_directive s = Some d /\
              In d node_directives /\ e = ValueError (edge_error_message d))
   \/ (exists n data,
          st_directive s = Some "subgraph" /\ st_node s = Some n /\
          st_data s = Some data /\ children_of data = [] /\
          DiGraph.has_node (g G) n = false /\ e = KeyError n)).
Proof.
  intros Hc (Htarget & Hdir & _) Hrun.
  destruct Htarget as [(a & b & Ha & Hb & _)|[(n & Hn & Hs & _) Hd]].
  - destruct (st_directive s) as [d|] eqn:Hd.
    + destruct Hdir as [Hin _].
      destruct (String.eqb_spec d "attr") as [->|Hne].
      * rewrite (_handle_edge_statement_ok s G a b Ha Hb) in Hrun by now right.
        discriminate.
      * unfold include_statement, _handle_edge_statement in Hrun.
        rewrite Ha, Hd in Hrun. apply String.eqb_neq in Hne.
        rewrite Hne in Hrun. inversion Hrun; subst. split; [reflexivity|].
        left. exists d. split; [rewrite Ha; discriminate|].
        split; [reflexivity|]. split; [|reflexivity].
        apply String.eqb_neq in Hne.
        destruct Hin as [<-|[<-|[<-|[<-|[<-|[]]]]]]; simpl; auto.
        now elim Hne.
    + rewrite (_handle_edge_statement_ok s G a b Ha Hb) in Hrun by now left.
      discriminate.
  - destruct (st_directive s) as [d|] eqn:Hd'; [|now elim Hd].
    destruct Hdir as [_ Hdata].
    destruct (st_data s) as [data|] eqn:Hdt; [|now elim Hdata].
    unfold include_statement, _handle_node_statement in Hrun.
    rewrite Hs, Hd', Hn in Hrun.
    unfold getitem in Hrun. unfold bind at 1 in Hrun. unfold ret at 1 in Hrun.
    unfold bind at 1 in Hrun. unfold ret at 1 in Hrun.
    destruct (String.eqb_spec d "subgraph") as [->|Hne].
    + rewrite (handle_subgraph_spec s G n data Hn Hdt) in Hrun. cbv zeta in Hrun.
      match type of Hrun with
      | match ?x with Some _ => _ | None => _ end = _ =>
          destruct x eqn:Hget; [discriminate|]
      end.
      inversion Hrun; subst. clear Hrun. simpl in Hget.
      assert (Hnode : DiGraph.has_node
                        (add_children n (children_of data) (g G)) n = false)
        by (unfold DiGraph.has_node, Dict.mem; now rewrite Hget).
      assert (Hchildren : children_of data = []).
      { destruct (children_of data) as [|c r] eqn:Hcs; [reflexivity|].
        exfalso. rewrite <- Hcs in Hnode.
        rewrite (proj2 (has_node_add_children n (children_of data) n _ Hc))
          in Hnode; [discriminate|].
        left. split; [rewrite Hcs; discriminate|reflexivity]. }
      rewrite Hchildren in Hnode |- *. simpl in Hnode.
      split; [apply set_g_id|]. right. exists n, data. now repeat split.
    + destruct (String.eqb d "attr"); [|discriminate].
      rewrite Hdt in Hrun. run_monad.
      destruct (String.eqb n "graph"); [discriminate|].
      destruct (Text.truthy (st_comment s)); discriminate.
Qed.

Lemma for_each_raises_at {S A} (l : list A) (body : A -> M S unit) :
  forall s e s',
    for_each l body s = (Raise e, s') ->
    exists before x after s0,
      l = (before ++ x :: after)%list /\
      for_each before body s = (Ok tt, s0) /\
      body x s0 = (Raise e, s').
Proof.
  induction l as [|x r IH]; simpl; intros s e s' H.
  - discriminate.
  - unfold bind in H. destruct (body x s) as [[[]|e0] s1] eqn:Hrun.
    + destruct (IH _ _ _ H) as (before & y & after & s0 & -> & Hb & Hy).
      exists (x :: before), y, after, s0. split; [reflexivity|].
      split; [|exact Hy]. simpl. unfold bind. now rewrite Hrun.
    + inversion H; subst. exists [], x, r, s. now repeat split.
Qed.

(** X5. A build pass that fails stops at one statement of one line. The
    lines before that line have been built without error, into a graph
    [G0]; the statements of the line before the failing one have been
    included without error, and have made of [G0] the graph [G] that the
    failed pass leaves; the failing statement raises on [G] and leaves it
    as it is. The failing statement is an edge under a directive other than
    [attr], which raises the [ValueError] of the builder, or a subgraph
    statement that names no child for a node that is not in the graph,
    which raises [KeyError]. *)
Theorem from_lines_raises
  (lines : list string) (include_everything : bool) (e : exn) (G : Graph) :
  from_lines lines include_everything = (Raise e, G) ->
  exists before line after done s rest G0,
    lines = (before ++ line :: after)%list /\
    search_for_statements line = (done ++ s :: rest)%list /\
    from_lines before include_everything = (Ok tt, G0) /\
    for_each done include_statement G0 = (Ok tt, G) /\
    include_statement s G = (Raise e, G) /\
    ((exists d, st_start s <> None /\ st_directive s = Some d /\
                In d node_directives /\ e = ValueError (edge_error_message d))
     \/ (exists n data,
            st_directive s = Some "subgraph" /\ st_node s = Some n /\
            st_data s = Some data /\ children_of data = [] /\
            DiGraph.has_node (g G) n = false /\ e = KeyError n)).
Proof.
  intros Hrun. unfold from_lines in Hrun.
  apply for_each_raises_at in Hrun.
  destruct Hrun as (before & line & after & G0 & Hlines & Hbefore & Hrun).
  unfold include_line in Hrun.
  apply for_each_raises_at in Hrun.
  destruct Hrun as (done & s & rest & G1 & Hline & Hdone & Hrun).
  fold include_line in Hbefore.
  fold (from_lines before include_everything) in Hbefore.
  assert (HG0 : consistent_prop (g G0)).
  { change G0 with (snd (@Ok unit tt, G0)).
    rewrite <- Hbefore. apply from_lines_consistent_prop. }
  assert (HG1 : consistent_prop (g G1)).
  { change G1 with (snd (@Ok unit tt, G1)). rewrite <- Hdone.
    apply (for_each_preserves (fun G => consistent_prop (g G))); [|exact HG0].
    intros st s' Hs'. now apply include_statement_consistent. }
  assert (Hshape : statement_shape s).
  { assert (Hs : In s (search_for_statements line))
      by (rewrite Hline; apply in_or_app; right; now left).
    unfold search_for_statements, searchString in Hs.
    apply scanString_matches in Hs. destruct Hs as (s' & r & Hp).
    eapply parser_shape. exact Hp. }
  destruct (include_shaped_raises s G1 e G HG1 Hshape Hrun) as [-> Hcases].
  exists before, line, after, done, s, rest, G0. now repeat split.
Qed.

Lemma from_lines_raises_witness :
  exists before line after done s rest G0,
    ["a --> b"; "..subgraph: lonely: ,"; "c --> d"]
    = (before ++ line :: after)%list /\
    search_for_statements line = (done ++ s :: rest)%list /\
    from_lines before false = (Ok tt, G0) /\
    for_each done include_statement G0
    = (Ok tt, snd (from_lines ["a --> b"] false)) /\
    include_statement s (snd (from_lines ["a --> b"] false))
    = (Raise (KeyError "lonely"), snd (from_lines ["a --> b"] false)) /\
    ((exists d, st_start s <> None /\ st_directive s = Some d /\
                In d node_directives /\
                KeyError "lonely" = ValueError (edge_error_message d))
     \/ (exists n data,
            st_directive s = Some "subgraph" /\ st_node s = Some n /\
            st_data s = Some data /\ children_of data = [] /\
            DiGraph.has_node (g (snd (from_lines ["a --> b"] false))) n = false /\
            KeyError "lonely" = KeyError n)).
Proof.
  apply (from_lines_raises ["a --> b"; "..subgraph: lonely: ,"; "c --> d"]
           false (KeyError "lonely") (snd (from_lines ["a --> b"] false))).
  vm_compute. reflexivity.
Defined.

(** *** What a subgraph statement adds *)

Lemma get_succ_add_edge_other u v attr G u' :
  u' <> u ->
  Dict.get_default u' [] (DiGraph._succ (DiGraph.add_edge u v attr G))
  = Dict.get_default u' [] (DiGraph._succ G).
Proof.
  intros Hne. unfold DiGraph.add_edge, Dict.get_default. simpl.
  rewrite get_set_other by exact Hne.
  rewrite !get_succ_add_missing_node.
  destruct (Dict.get u' (DiGraph._succ G)); [reflexivity|].
  apply String.eqb_neq in Hne. rewrite Hne.
  now destruct (String.eqb u' v).
Qed.

Lemma get_edge_data_add_edge_other u v attr G u' v' :
  (u', v') <> (u, v) ->
  DiGraph.get_edge_data (DiGraph.add_edge u v attr G) u' v'
  = DiGraph.get_edge_data G u' v'.
Proof.
  intros Hne. destruct (String.eqb_spec u' u) as [->|Hu].
  - assert (Hv : v' <> v) by congruence.
    unfold DiGraph.get_edge_data, DiGraph.add_edge. simpl.
    rewrite get_set_same, get_set_other by exact Hv.
    unfold Dict.get_default. rewrite !get_succ_add_missing_node.
    destruct (Dict.get u (DiGraph._succ G)); [reflexivity|].
    rewrite String.eqb_refl. reflexivity.
  - pose proof (get_succ_add_edge_other u v attr G u' Hu) as H.
    unfold DiGraph.get_edge_data, Dict.get_default in *.
    destruct (Dict.get u' (DiGraph._succ (DiGraph.add_edge u v attr G)));
      destruct (Dict.get u' (DiGraph._succ G)); subst; reflexivity.
Qed.

Lemma get_node_add_edge u v attr G x :
  consistent_prop G ->
  Dict.get x (DiGraph._node (DiGraph.add_edge u v attr G))
  = match Dict.get x (DiGraph._node G) with
    | Some d => Some d
    | None =>
        if String.eqb x u || String.eqb x v then Some DiGraph.no_node_data
        else None
    end.
Proof.
  intros Hc.
  assert (Hone : forall w H, consistent_prop H ->
            Dict.get x (DiGraph._node (DiGraph.add_missing_node w H))
            = match Dict.get x (DiGraph._node H) with
              | Some d => Some d
              | None => if String.eqb x w then Some DiGraph.no_node_data else None
              end).
  { intros w H (_ & _ & Hstep). unfold DiGraph.add_missing_node.
    destruct (Dict.mem w (DiGraph._succ H)) eqn:Hw.
    - destruct (Dict.get x (DiGraph._node H)) eqn:Hx; [reflexivity|].
      destruct (String.eqb_spec x w) as [->|Hne]; [|reflexivity].
      rewrite <- Hstep in Hw. unfold Dict.mem in Hw. now rewrite Hx in Hw.
    - simpl. destruct (String.eqb_spec x w) as [->|Hne].
      + rewrite get_set_same. rewrite <- Hstep in Hw. unfold Dict.mem in Hw.
        now destruct (Dict.get w (DiGraph._node H)).
      + rewrite get_set_other by exact Hne.
        now destruct (Dict.get x (DiGraph._node H)). }
  unfold DiGraph.add_edge. simpl.
  rewrite (Hone v _ (consistent_add_missing_node u G Hc)), (Hone u G Hc).
  destruct (Dict.get x (DiGraph._node G)); [reflexivity|].
  destruct (String.eqb x u); [reflexivity|]. now destruct (String.eqb x v).
Qed.

Lemma update_subgraph_relation old :
  DiGraph.update_edge_data old subgraph_relation
  = {| DiGraph.e_comment := DiGraph.e_comment old;
       DiGraph.e_label := DiGraph.e_label old;
       DiGraph.e_is_subgraph_relation := true |}.
Proof. reflexivity. Qed.

Lemma get_edge_data_add_children n children :
  forall G u v,
    DiGraph.get_edge_data (add_children n children G) u v
    = if String.eqb u n && mem_str v children
      then
        let old := match DiGraph.get_edge_data G u v with
                   | Some old => old
                   | None => DiGraph.no_edge_data
                   end in
        Some {| DiGraph.e_comment := DiGraph.e_comment old;
                DiGraph.e_label := DiGraph.e_label old;
                DiGraph.e_is_subgraph_relation := true |}
      else DiGraph.get_edge_data G u v.
Proof.
  unfold add_children. induction children as [|c r IH]; intros G u v; simpl.
  - now rewrite andb_false_r.
  - rewrite IH. cbv zeta.
    destruct (String.eqb_spec u n) as [->|Hu]; simpl.
    + destruct (String.eqb_spec v c) as [->|Hv]; simpl.
      * rewrite get_edge_data_add_edge, update_subgraph_relation.
        now destruct (mem_str c r).
      * rewrite get_edge_data_add_edge_other by congruence. reflexivity.
    + rewrite get_edge_data_add_edge_other by congruence. reflexivity.
Qed.

Lemma get_node_add_children n children x :
  forall G, consistent_prop G ->
    Dict.get x (DiGraph._node (add_children n children G))
    = match Dict.get x (DiGraph._node G) with
      | Some d => Some d
      | None =>
          if (negb (Nat.eqb (List.length children) 0) && String.eqb x n)
             || mem_str x children
          then Some DiGraph.no_node_data
          else None
      end.
Proof.
  unfold add_children. induction children as [|c r IH]; intros G Hc; simpl.
  - now destruct (Dict.get x (DiGraph._node G)).
  - rewrite (IH _ (consistent_add_edge n c subgraph_relation G Hc)).
    rewrite (get_node_add_edge n c subgraph_relation G x Hc).
    destruct (Dict.get x (DiGraph._node G)); [reflexivity|].
    destruct (String.eqb x n); simpl.
    + reflexivity.
    + destruct (String.eqb x c); [reflexivity|].
      rewrite andb_false_r. reflexivity.
Qed.

(** X6. A subgraph statement that names a child, or whose node is in the
    graph already, does not fail. It adds an edge from the node to every
    child, marked as a subgraph relation; an edge that was there keeps its
    comment and its label, and every other edge stays as it was. The node
    is marked as a subgraph and takes the label of the statement, keeping
    its own when the statement has none; the other nodes keep their data,
    and a child that was no node becomes one. Nothing but the graph data
    changes, and the graph stays consistent. *)
Theorem subgraph_statement_effect
  (G : Graph) (s : statement) (n data : string) :
  consistent (g G) = true ->
  st_start s = None -> st_directive s = Some "subgraph" ->
  st_node s = Some n -> st_data s = Some data ->
  children_of data <> [] \/ DiGraph.has_node (g G) n = true ->
  exists gr,
    include_statement s G = (Ok tt, set_g (fun _ => gr) G) /\
    consistent gr = true /\
    Dict.get n (DiGraph._node gr)
    = Some {| DiGraph.n_subgraph := true;
              DiGraph.n_label :=
                match Text.truthy (st_label s) with
                | Some l => Some l
                | None =>
                    DiGraph.n_label
                      (Dict.get_default n DiGraph.no_node_data
                         (DiGraph._node (g G)))
                end |} /\
    (forall x, x <> n ->
       Dict.get x (DiGraph._node gr)
       = match Dict.get x (DiGraph._node (g G)) with
         | Some d => Some d
         | None =>
             if mem_str x (children_of data) then Some DiGraph.no_node_data
             else None
         end) /\
    (forall u v,
       DiGraph.get_edge_data gr u v
       = if String.eqb u n && mem_str v (children_of data)
         then
           let old := match DiGraph.get_edge_data (g G) u v with
                      | Some old => old
                      | None => DiGraph.no_edge_data
                      end in
           Some {| DiGraph.e_comment := DiGraph.e_comment old;
                   DiGraph.e_label := DiGraph.e_label old;
                   DiGraph.e_is_subgraph_relation := true |}
         else DiGraph.get_edge_data (g G) u v).
Proof.
  intros Hc Hs Hd Hn Hdata Hsome. apply consistent_iff in Hc.
  set (cs := children_of data).
  set (g1 := add_children n cs (g G)).
  assert (Hc1 : consistent_prop g1) by now apply consistent_add_children.
  assert (Hget : Dict.get n (DiGraph._node g1)
                 = Some (Dict.get_default n DiGraph.no_node_data
                           (DiGraph._node (g G)))).
  { unfold g1. rewrite (get_node_add_children n cs n (g G) Hc).
    unfold Dict.get_default.
    destruct (Dict.get n (DiGraph._node (g G))) eqn:Hold; [reflexivity|].
    destruct Hsome as [Hne|Hnode].
    - rewrite String.eqb_refl. fold cs in Hne. destruct cs; [now elim Hne|].
      reflexivity.
    - unfold DiGraph.has_node, Dict.mem in Hnode. now rewrite Hold in Hnode. }
  exists (mark_subgraph n (Text.truthy (st_label s)) g1).
  split; [|split; [|split; [|split]]].
  - unfold include_statement, _handle_node_statement. rewrite Hs, Hd, Hn.
    unfold getitem. unfold bind at 1. unfold ret at 1.
    unfold bind at 1. unfold ret at 1.
    change (String.eqb "subgraph" "subgraph") with true. cbv iota.
    rewrite (handle_subgraph_spec s G n data Hn Hdata). cbv zeta.
    fold cs. change (g (set_g (add_children n cs) G)) with g1.
    rewrite Hget. reflexivity.
  - apply consistent_iff. apply consistent_mark_subgraph; [exact Hc1|].
    unfold DiGraph.has_node, Dict.mem. now rewrite Hget.
  - unfold mark_subgraph. simpl. rewrite get_set_same.
    unfold Dict.get_default at 1. rewrite Hget. reflexivity.
  - intros x Hx. unfold mark_subgraph. simpl.
    rewrite get_set_other by exact Hx. unfold g1.
    rewrite (get_node_add_children n cs x (g G) Hc).
    apply String.eqb_neq in Hx. rewrite Hx, andb_false_r. reflexivity.
  - intros u v. unfold mark_subgraph, DiGraph.get_edge_data. simpl.
    apply (get_edge_data_add_children n cs (g G) u v).
Qed.

Lemma subgraph_statement_effect_witness :
  exists gr,
    include_statement first_subgraph (snd (from_lines ["a --> b :: why"] false))
    = (Ok tt, set_g (fun _ => gr) (snd (from_lines ["a --> b :: why"] false))) /\
    consistent gr = true /\
    Dict.get "first" (DiGraph._node gr)
    = Some {| DiGraph.n_subgraph := true; DiGraph.n_label := Some "First" |} /\
    (forall x, x <> "first" ->
       Dict.get x (DiGraph._node gr)
       = match Dict.get x
                 (DiGraph._node (g (snd (from_lines ["a --> b :: why"] false))))
         with
         | Some d => Some d
         | None =>
             if mem_str x ["a"; "second"] then Some DiGraph.no_node_data
             else None
         end) /\
    (forall u v,
       DiGraph.get_edge_data gr u v
       = if String.eqb u "first" && mem_str v ["a"; "second"]
         then
           let old :=
             match DiGraph.get_edge_data
                     (g (snd (from_lines ["a --> b :: why"] false))) u v with
             | Some old => old
             | None => DiGraph.no_edge_data
             end in
           Some {| DiGraph.e_comment := DiGraph.e_comment old;
                   DiGraph.e_label := DiGraph.e_label old;
                   DiGraph.e_is_subgraph_relation := true |}
         else DiGraph.get_edge_data
                (g (snd (from_lines ["a --> b :: why"] false))) u v).
Proof.
  apply (subgraph_statement_effect
           (snd (from_lines ["a --> b :: why"] false)) first_subgraph
           "first" "a, second");
    [reflexivity | reflexivity | reflexivity | reflexivity | reflexivity
    | left; discriminate].
Defined.

(** *** The build pass only adds *)

Lemma edge_kept_refl d : edge_kept d d.
Proof. now repeat split. Qed.

Lemma node_kept_refl d : node_kept d d.
Proof. now repeat split. Qed.

Lemma prefix_of_refl {A} (l : list A) : prefix_of l l.
Proof. exists []. now rewrite app_nil_r. Qed.

Lemma prefix_of_trans {A} (l1 l2 l3 : list A) :
  prefix_of l1 l2 -> prefix_of l2 l3 -> prefix_of l1 l3.
Proof.
  intros [m1 ->] [m2 ->]. exists (m1 ++ m2)%list. now rewrite app_assoc.
Qed.

Lemma digraph_grows_refl G : digraph_grows G G.
Proof.
  split.
  - intros x d H. exists d. split; [exact H|apply node_kept_refl].
  - intros u v d H. exists d. split; [exact H|apply edge_kept_refl].
Qed.

Lemma digraph_grows_trans G1 G2 G3 :
  digraph_grows G1 G2 -> digraph_grows G2 G3 -> digraph_grows G1 G3.
Proof.
  intros [Hn1 He1] [Hn2 He2]. split.
  - intros x d H. destruct (Hn1 x d H) as (d' & H' & K1 & K2).
    destruct (Hn2 x d' H') as (d'' & H'' & K3 & K4).
    exists d''. split; [exact H''|]. split; auto.
  - intros u v d H. destruct (He1 u v d H) as (d' & H' & K1 & K2 & K3).
    destruct (He2 u v d' H') as (d'' & H'' & K4 & K5 & K6).
    exists d''. split; [exact H''|]. repeat split; auto.
Qed.

Lemma grows_refl G : grows G G.
Proof.
  split; [apply digraph_grows_refl|]. split; [apply prefix_of_refl|].
  split; [intros a b; apply prefix_of_refl|auto].
Qed.

Lemma grows_trans G1 G2 G3 : grows G1 G2 -> grows G2 G3 -> grows G1 G3.
Proof.
  intros (Hg1 & Ha1 & He1 & Hn1) (Hg2 & Ha2 & He2 & Hn2).
  split; [eapply digraph_grows_trans; eassumption|].
  split; [eapply prefix_of_trans; eassumption|].
  split; [intros a b; eapply prefix_of_trans; [apply He1|apply He2]|auto].
Qed.

Lemma add_edge_grows u v attr G :
  consistent_prop G -> digraph_grows G (DiGraph.add_edge u v attr G).
Proof.
  intros Hc. split.
  - intros x d H. exists d. split; [|apply node_kept_refl].
    rewrite (get_node_add_edge u v attr G x Hc). now rewrite H.
  - intros u' v' d H.
    destruct (String.eqb_spec u' u) as [->|Hu];
      [destruct (String.eqb_spec v' v) as [->|Hv]|].
    + rewrite get_edge_data_add_edge, H. eexists. split; [reflexivity|].
      unfold edge_kept, DiGraph.update_edge_data. simpl. repeat split.
      * intros ->. apply orb_true_r.
      * destruct (DiGraph.e_comment attr); [discriminate|auto].
      * destruct (DiGraph.e_label attr); [discriminate|auto].
    + rewrite get_edge_data_add_edge_other by congruence.
      exists d. split; [exact H|apply edge_kept_refl].
    + rewrite get_edge_data_add_edge_other by congruence.
      exists d. split; [exact H|apply edge_kept_refl].
Qed.

Lemma add_children_grows n children :
  forall G, consistent_prop G -> digraph_grows G (add_children n children G).
Proof.
  unfold add_children. induction children as [|c r IH]; simpl; intros G Hc.
  - apply digraph_grows_refl.
  - eapply digraph_grows_trans; [apply add_edge_grows; exact Hc|].
    apply IH. now apply consistent_add_edge.
Qed.

Lemma mark_subgraph_grows n label G : digraph_grows G (mark_subgraph n label G).
Proof.
  split.
  - intros x d H. unfold mark_subgraph. simpl.
    destruct (String.eqb_spec x n) as [->|Hne].
    + rewrite get_set_same. eexists. split; [reflexivity|].
      unfold Dict.get_default. rewrite H.
      unfold node_kept, DiGraph.update_node_data. simpl. split; [auto|].
      destruct label; [discriminate|auto].
    + rewrite get_set_other by exact Hne.
      exists d. split; [exact H|apply node_kept_refl].
  - intros u v d H. exists d. split; [exact H|apply edge_kept_refl].
Qed.

Lemma grows_set_g f G :
  digraph_grows (g G) (f (g G)) -> grows G (set_g f G).
Proof.
  intros H. split; [exact H|]. split; [apply prefix_of_refl|].
  split; [intros a b; apply prefix_of_refl|auto].
Qed.

Lemma grows_set_edge_attrs f G :
  (forall a b, prefix_of (edge_attrs_lookup a b (edge_attrs G))
                 (edge_attrs_lookup a b (f (edge_attrs G)))) ->
  grows G (set_edge_attrs f G).
Proof.
  intros H. split; [apply digraph_grows_refl|]. split; [apply prefix_of_refl|].
  split; [exact H|auto].
Qed.

Lemma edge_statement_grows s G a b :
  consistent_prop (g G) ->
  st_start s = Some a -> st_end s = Some b ->
  st_directive s = None \/ st_directive s = Some "attr" ->
  grows G (snd (include_statement s G)).
Proof.
  intros Hc Ha Hb Hd. rewrite (_handle_edge_statement_ok s G a b Ha Hb Hd).
  cbv zeta. cbn [snd].
  eapply grows_trans; [|apply grows_set_g; apply add_edge_grows].
  - destruct (Text.truthy (st_data s)) as [data|]; [|apply grows_refl].
    apply grows_set_edge_attrs. intros a' b'.
    destruct (string_dec a' a) as [->|Ha']; [destruct (string_dec b' b) as [->|Hb']|].
    + rewrite edge_attrs_lookup_store_same. now eexists.
    + rewrite !edge_attrs_lookup_store_other by congruence. apply prefix_of_refl.
    + rewrite !edge_attrs_lookup_store_other by congruence. apply prefix_of_refl.
  - now destruct (Text.truthy (st_data s)).
Qed.

Lemma include_statement_grows s G :
  consistent_prop (g G) -> grows G (snd (include_statement s G)).
Proof.
  intros Hc.
  destruct (st_start s) as [a|] eqn:Ha.
  - destruct (st_directive s) as [d|] eqn:Hd.
    + destruct (String.eqb_spec d "attr") as [->|Hne].
      * destruct (st_end s) as [b|] eqn:Hb.
        -- eapply edge_statement_grows; eauto.
        -- unfold include_statement, _handle_edge_statement.
           rewrite Ha, Hd, Hb. apply grows_refl.
      * unfold include_statement, _handle_edge_statement. rewrite Ha, Hd.
        apply String.eqb_neq in Hne. rewrite Hne. apply grows_refl.
    + destruct (st_end s) as [b|] eqn:Hb.
      * eapply edge_statement_grows; eauto.
      * unfold include_statement, _handle_edge_statement.
        rewrite Ha, Hd, Hb. apply grows_refl.
  - unfold include_statement, _handle_node_statement. rewrite Ha.
    destruct (st_directive s) as [d|]; [|apply grows_refl].
    destruct (st_node s) as [n|] eqn:Hn; [|apply grows_refl].
    unfold getitem. unfold bind at 1. unfold ret at 1.
    unfold bind at 1. unfold ret at 1.
    destruct (String.eqb d "subgraph").
    + destruct (st_data s) as [da|] eqn:Hda.
      * rewrite (handle_subgraph_spec s G n da Hn Hda). cbv zeta.
        assert (H1 : grows G (set_g (add_children n (children_of da)) G))
          by (apply grows_set_g; now apply add_children_grows).
        match goal with
        | |- context [match ?x with Some _ => _ | None => _ end] =>
            destruct x; [|exact H1]
        end.
        cbn [snd]. eapply grows_trans; [exact H1|].
        apply grows_set_g. apply mark_subgraph_grows.
      * unfold _handle_subgraph. rewrite Hda. apply grows_refl.
    + destruct (String.eqb d "attr"); [|apply grows_refl].
      destruct (st_data s) as [da|]; run_monad.
      * destruct (String.eqb n "graph"); simpl.
        -- split; [apply digraph_grows_refl|]. split; [now exists [da]|].
           split; [intros a b; apply prefix_of_refl|auto].
        -- destruct (Text.truthy (st_comment s)); simpl;
             (split; [apply digraph_grows_refl|]; split; [apply prefix_of_refl|];
              split; [intros a b; apply prefix_of_refl|];
              simpl; intros x Hx; repeat apply mem_set_mono; exact Hx).
      * destruct (String.eqb n "graph"); apply grows_refl.
Qed.

Lemma from_lines_app lines more include_everything :
  fst (from_lines lines include_everything) = Ok tt ->
  from_lines (lines ++ more) include_everything
  = for_each more include_line (snd (from_lines lines include_everything)).
Proof.
  unfold from_lines. rewrite for_each_app. unfold bind.
  destruct (for_each lines include_line (Graph_init include_everything))
    as [[[]|e] G]; [reflexivity|discriminate].
Qed.

(** X7. The build pass only adds. When the lines given so far have built a
    graph, going on with more lines leaves every node and every edge in
    place, whether or not a later statement fails: a node stays a subgraph
    and keeps a label, an edge stays a subgraph relation and keeps a
    comment and a label (the text of which a later statement may replace),
    the graph attributes and the fragments of every edge are only
    appended to, and a node that had attributes still has some. *)
Theorem more_lines_only_add
  (lines more : list string) (include_everything : bool) :
  fst (from_lines lines include_everything) = Ok tt ->
  grows (snd (from_lines lines include_everything))
    (snd (from_lines (lines ++ more) include_everything)).
Proof.
  intros Hok. rewrite (from_lines_app _ _ _ Hok).
  set (G := snd (from_lines lines include_everything)).
  assert (HG : consistent_prop (g G)) by apply from_lines_consistent_prop.
  assert (H : grows G (snd (for_each more include_line G)) /\
              consistent_prop (g (snd (for_each more include_line G)))).
  { apply (for_each_preserves
             (fun G' => grows G G' /\ consistent_prop (g G'))).
    - intros line G1 [Hg Hc]. unfold include_line.
      apply (for_each_preserves
               (fun G' => grows G G' /\ consistent_prop (g G'))).
      + intros st G2 [Hg2 Hc2]. split.
        * eapply grows_trans; [exact Hg2|]. now apply include_statement_grows.
        * now apply include_statement_consistent.
      + now split.
    - split; [apply grows_refl|exact HG]. }
  exact (proj1 H).
Qed.

Lemma more_lines_only_add_witness :
  grows (snd (from_lines ["a --> b :: why"; "..attr: a: shape=box"] false))
    (snd (from_lines
            (["a --> b :: why"; "..attr: a: shape=box"]
             ++ ["..subgraph: a: b"; "..attr: a --> b: color=red";
                 "..subgraph: a --> b: x"; "b --> c"]) false)).
Proof.
  apply (more_lines_only_add ["a --> b :: why"; "..attr: a: shape=box"]
           ["..subgraph: a: b"; "..attr: a --> b: color=red";
            "..subgraph: a --> b: x"; "b --> c"] false).
  reflexivity.
Defined.

(* ===================================================================== *)
(** ** Further properties: the renderer *)
(* ===================================================================== *)

Lemma same_but_node_attrs_refl G : same_but_node_attrs G G.
Proof. now repeat split. Qed.

Lemma prepend_style_frame G attrs n G1 :
  same_but_node_attrs G G1 ->
  same_but_node_attrs G (snd (prepend_style attrs n G1)).
Proof. intros H. unfold prepend_style, modify. simpl. exact H. Qed.

Lemma styling_frame {A} G (m : M Graph A)
  (k : A -> list string) attrs G1 :
  (forall s, snd (m s) = s) ->
  same_but_node_attrs G G1 ->
  same_but_node_attrs G
    (snd (bind m (fun a => for_each (k a) (prepend_style attrs)) G1)).
Proof.
  intros Hm H. unfold bind. pose proof (Hm G1) as Hs.
  destruct (m G1) as [[a|e] s]; simpl in Hs; subst s; [|exact H].
  apply (for_each_preserves (same_but_node_attrs G)); [|exact H].
  intros x s0 Hs0. now apply prepend_style_frame.
Qed.

Lemma apply_ancestor_spec_frame G spec G1 :
  same_but_node_attrs G G1 ->
  same_but_node_attrs G (snd (apply_ancestor_spec spec G1)).
Proof.
  intros H. unfold apply_ancestor_spec.
  destruct (re_match_node_spec spec) as [[node_id attrs]|]; [|exact H].
  unfold groups. unfold bind at 1. unfold ret at 1.
  unfold bind at 1. unfold gets at 1.
  apply (styling_frame G (call (Algorithms.ancestors (g G1) node_id))
           (fun nodes => nodes)); [|exact H].
  intros s. now rewrite call_spec.
Qed.

Lemma apply_descendant_spec_frame G spec G1 :
  same_but_node_attrs G G1 ->
  same_but_node_attrs G (snd (apply_descendant_spec spec G1)).
Proof.
  intros H. unfold apply_descendant_spec.
  destruct (re_match_node_spec spec) as [[node_id attrs]|]; [|exact H].
  unfold groups. unfold bind at 1. unfold ret at 1.
  unfold bind at 1. unfold gets at 1.
  apply (styling_frame G (call (Algorithms.descendants (g G1) node_id))
           (fun nodes => nodes)); [|exact H].
  intros s. now rewrite call_spec.
Qed.

Lemma apply_path_spec_frame G spec G1 :
  same_but_node_attrs G G1 ->
  same_but_node_attrs G (snd (apply_path_spec spec G1)).
Proof.
  intros H. unfold apply_path_spec.
  destruct (re_match_path_spec spec) as [[[start end_] attrs]|]; [|exact H].
  unfold groups. unfold bind at 1. unfold ret at 1.
  unfold bind at 1. unfold gets at 1.
  unfold bind. rewrite call_spec.
  destruct (Algorithms.all_shortest_paths (g G1) start end_) as [paths|e];
    [|exact H].
  rewrite for_each_nested.
  apply (for_each_preserves (same_but_node_attrs G)); [|exact H].
  intros x s0 Hs0. now apply prepend_style_frame.
Qed.

Lemma resolve_styles_frame G : same_but_node_attrs G (snd (resolve_styles G)).
Proof.
  unfold resolve_styles.
  unfold bind at 1. unfold gets at 1.
  unfold bind at 1.
  pose proof (for_each_preserves (same_but_node_attrs G) (ascendant_styles G)
                apply_ancestor_spec (apply_ancestor_spec_frame G) G
                (same_but_node_attrs_refl G)) as H1.
  destruct (for_each (ascendant_styles G) apply_ancestor_spec G)
    as [[[]|e] G1]; [|exact H1]. simpl in H1.
  unfold bind at 1. unfold gets at 1.
  unfold bind at 1.
  pose proof (for_each_preserves (same_but_node_attrs G) (descendant_styles G1)
                apply_descendant_spec (apply_descendant_spec_frame G) G1 H1)
    as H2.
  destruct (for_each (descendant_styles G1) apply_descendant_spec G1)
    as [[[]|e] G2]; [|exact H2]. simpl in H2.
  unfold bind at 1. unfold gets at 1.
  apply (for_each_preserves (same_but_node_attrs G)); [|exact H2].
  apply apply_path_spec_frame.
Qed.

(** [render_dot], phase by phase. *)
Lemma render_dot_steps depth G :
  render_dot depth G
  = match forest_check (subgraph_relations (g G)) with
    | Raise e => (Raise e, G)
    | Ok _ =>
        match resolve_styles G with
        | (Raise e, G1) => (Raise e, G1)
        | (Ok _, G1) =>
            match Algorithms.topological_sort (subgraph_relations (g G)) with
            | Raise e => (Raise e, G1)
            | Ok order =>
                match render_clusters depth G1 order (opening_lines G) [] with
                | Raise e => (Raise e, G1)
                | Ok (dot, visited) =>
                    let G2 := set_edge_attrs (vivify (DiGraph.edges (g G))) G1 in
                    (Ok (Text.join Text.nl
                           (append
                              (render_remaining_nodes G2 visited
                                 (edge_lines (DiGraph.edges (g G))
                                    (fun a b =>
                                       edge_attrs_lookup a b (edge_attrs G1))
                                    dot))
                              "}")),
                     G2)
                end
            end
        end
    end.
Proof.
  unfold render_dot, opening_lines.
  unfold bind at 1. unfold gets at 1.
  unfold bind at 1. unfold gets at 1.
  unfold bind at 1. rewrite check_forest_spec.
  destruct (forest_check (subgraph_relations (g G))) as [[]|e]; [|reflexivity].
  unfold bind at 1.
  destruct (resolve_styles G) as [[[]|e] G1]; [|reflexivity].
  unfold bind at 1. rewrite call_spec.
  destruct (Algorithms.topological_sort (subgraph_relations (g G)))
    as [order|e]; [|reflexivity].
  unfold bind at 1. unfold gets at 1.
  unfold bind at 1. rewrite call_spec.
  match goal with |- context [render_clusters depth G1 order ?d []] =>
    destruct (render_clusters depth G1 order d []) as [[dot visited]|e]
  end; [|reflexivity].
  unfold bind at 1. rewrite render_edges_spec.
  unfold bind, gets, ret. reflexivity.
Qed.

Lemma edge_lines_texts es f :
  forall dot,
    edge_lines es f dot
    = (dot ++ map (fun '(a, b, d) => edge_line a b d (f a b))
                (drawn_edges es))%list.
Proof.
  induction es as [|[[a b] d] es IH]; intros dot; simpl.
  - now rewrite app_nil_r.
  - rewrite IH. destruct (DiGraph.e_is_subgraph_relation d); simpl.
    + reflexivity.
    + unfold append. now rewrite <- app_assoc.
Qed.

Lemma render_remaining_nodes_texts G visited dot :
  render_remaining_nodes G visited dot = (dot ++ node_texts G visited)%list.
Proof.
  unfold render_remaining_nodes, node_texts.
  generalize (DiGraph.nodes (g G)) as ns. intros ns. revert dot.
  induction ns as [|n ns IH]; intros dot; simpl.
  - now rewrite app_nil_r.
  - rewrite IH. destruct (mem_str n visited); simpl; [reflexivity|].
    destruct (should_include_node G n); simpl; [|reflexivity].
    unfold append. now rewrite <- app_assoc.
Qed.

Lemma render_clusters_appends depth G order :
  forall dot visited dot' visited',
    render_clusters depth G order dot visited = Ok (dot', visited') ->
    exists clusters, dot' = (dot ++ clusters)%list.
Proof.
  induction order as [|n order IH]; simpl; intros dot visited dot' visited' H.
  - inversion H. exists []. now rewrite app_nil_r.
  - destruct (mem_str n visited); [now apply IH in H|].
    destruct (node_dict G n) as [d|e]; [|discriminate].
    destruct (DiGraph.n_subgraph d); [|now apply IH in H].
    destruct (render_subgraph depth G n (append visited n))
      as [[text v]|e]; [|discriminate].
    apply IH in H. destruct H as (more & ->).
    exists (text :: more). unfold append. now rewrite <- app_assoc.
Qed.

(** X8. Whatever [render_dot] does, returning a document or raising, it
    leaves the graph, the graph attributes, the three style lists and the
    other settings as they were: it writes to [node_attrs] and to
    [edge_attrs] only, and the fragments looked up for an edge are the same
    before and after. A call that raises leaves [edge_attrs] untouched. *)
Theorem render_dot_writes_attrs_only (depth : nat) (G : Graph) :
  let G' := snd (render_dot depth G) in
  g G' = g G /\ subgraphs G' = subgraphs G /\
  include_everything G' = include_everything G /\
  graph_attrs G' = graph_attrs G /\
  path_styles G' = path_styles G /\
  ascendant_styles G' = ascendant_styles G /\
  descendant_styles G' = descendant_styles G /\
  (forall a b,
      edge_attrs_lookup a b (edge_attrs G')
      = edge_attrs_lookup a b (edge_attrs G)) /\
  (forall e, fst (render_dot depth G) = Raise e -> edge_attrs G' = edge_attrs G).
Proof.
  cbv zeta. rewrite render_dot_steps.
  pose proof (resolve_styles_frame G) as Hframe.
  destruct (forest_check (subgraph_relations (g G))) as [[]|e0];
    [|now repeat split].
  destruct (resolve_styles G) as [[[]|e1] G1]; simpl in Hframe;
    destruct Hframe as (Hg & Hs & Hi & Ha & He & Hp & Hasc & Hdesc);
    [|simpl; rewrite He; now repeat split].
  destruct (Algorithms.topological_sort (subgraph_relations (g G)))
    as [order|e2]; [|simpl; rewrite He; now repeat split].
  destruct (render_clusters depth G1 order (opening_lines G) [])
    as [[dot visited]|e3]; [|simpl; rewrite He; now repeat split].
  cbv zeta. cbn [fst snd]. simpl.
  repeat (split; [assumption|]). split.
  - intros a b. now rewrite edge_attrs_lookup_vivify, He.
  - discriminate.
Qed.

(** The lines of a document. *)
Lemma render_dot_lines depth G G' text :
  render_dot depth G = (Ok text, G') ->
  exists clusters already_visited,
    text = Text.join Text.nl
             (opening_lines G ++ clusters ++ edge_texts G
              ++ node_texts G' already_visited ++ ["}"])%list.
Proof.
  rewrite render_dot_steps. intros H.
  pose proof (resolve_styles_frame G) as Hframe.
  destruct (forest_check (subgraph_relations (g G))) as [[]|e0];
    [|discriminate].
  destruct (resolve_styles G) as [[[]|e1] G1]; [|discriminate].
  simpl in Hframe. destruct Hframe as (_ & _ & _ & _ & He & _).
  destruct (Algorithms.topological_sort (subgraph_relations (g G)))
    as [order|e2]; [|discriminate].
  destruct (render_clusters depth G1 order (opening_lines G) [])
    as [[dot visited]|e3] eqn:Hclusters; [|discriminate].
  apply render_clusters_appends in Hclusters. destruct Hclusters as (cl & ->).
  cbv zeta in H. inversion H; subst. clear H.
  exists cl, visited. f_equal.
  rewrite render_remaining_nodes_texts, edge_lines_texts.
  unfold append, edge_texts. rewrite He. now rewrite <- !app_assoc.
Qed.

(** *** A cluster that is its own child *)

Lemma node_dict_node G n :
  DiGraph.has_node (g G) n = true ->
  exists d, node_dict G n = Ok d /\ is_subgraph G n = DiGraph.n_subgraph d.
Proof.
  unfold DiGraph.has_node, Dict.mem, node_dict, is_subgraph.
  destruct (Dict.get n (DiGraph._node (g G))) as [d|]; [|discriminate].
  intros _. now exists d.
Qed.

Lemma successors_are_nodes G r c :
  well_formed (g G) = true -> In c (DiGraph.successors (g G) r) ->
  DiGraph.has_node (g G) c = true.
Proof.
  intros Hwf Hin. apply (successors_closed (g G) Hwf r) in Hin.
  unfold DiGraph.has_node. now apply mem_In_keys.
Qed.

Section SelfLoop.

Variable G : Graph.
Variable root : string.
Hypothesis Hwf : well_formed (g G) = true.
Hypothesis Hsub : is_subgraph G root = true.
Hypothesis Hloop : In root (DiGraph.successors (g G) root).

Lemma not_visited_after root' visited c :
  c <> root' -> mem_str root' visited = false ->
  mem_str root' (append visited c) = false.
Proof.
  intros Hne Hv. unfold append. rewrite mem_str_app, Hv. simpl.
  apply String.eqb_neq in Hne. rewrite String.eqb_sym in Hne. now rewrite Hne.
Qed.

Lemma render_children_stuck recurse :
  stuck_on G root recurse ->
  forall children dot visited,
    (forall c, In c children -> DiGraph.has_node (g G) c = true) ->
    mem_str root visited = false ->
    render_children G recurse children dot visited = Raise RecursionError
    \/ (~ In root children /\
        exists text visited',
          render_children G recurse children dot visited = Ok (text, visited')
          /\ mem_str root visited' = false).
Proof.
  intros Hrec. induction children as [|c rest IH]; intros dot visited Hnodes Hv.
  - right. split; [intros []|].
    exists (Text.join Text.nl (append dot "}")), visited. auto.
  - assert (Hrest : forall c', In c' rest -> DiGraph.has_node (g G) c' = true)
      by (intros c' Hc'; apply Hnodes; now right).
    assert (Hnext : forall dot' visited',
               c <> root -> mem_str root visited' = false ->
               render_children G recurse rest dot' visited' = Raise RecursionError
               \/ (~ In root (c :: rest) /\
                   exists text v,
                     render_children G recurse rest dot' visited' = Ok (text, v)
                     /\ mem_str root v = false)).
    { intros dot' visited' Hne Hv'.
      destruct (IH dot' visited' Hrest Hv') as [H|(Hnot & t & v & H & Hvv)];
        [now left|].
      right. split; [intros [E|E]; [now apply Hne|now apply Hnot]|].
      now exists t, v. }
    simpl. destruct (mem_str c visited) eqn:Hc.
    + apply Hnext; [intros ->; congruence|exact Hv].
    + destruct (node_dict_node G c (Hnodes c (or_introl eq_refl)))
        as (d & Hd & Hflag).
      rewrite Hd. destruct (DiGraph.n_subgraph d) eqn:Hds.
      * destruct (Hrec c visited (Hnodes c (or_introl eq_refl)) Hv)
          as [H|(Hnot1 & t & v1 & H & Hv1)]; rewrite H; [now left|].
        assert (Hne : c <> root) by (intros ->; now apply Hnot1).
        apply Hnext; [exact Hne|]. now apply not_visited_after.
      * assert (Hne : c <> root) by (intros ->; congruence).
        apply Hnext; [exact Hne|]. now apply not_visited_after.
Qed.

Lemma render_subgraph_stuck depth : stuck_on G root (render_subgraph depth G).
Proof.
  induction depth as [|depth IH]; intros r visited Hr Hv; [now left|].
  cbn [render_subgraph].
  destruct (node_dict_node G r Hr) as (d & Hd & _). rewrite Hd.
  apply (render_children_stuck _ IH); [|exact Hv].
  intros c Hc. eapply successors_are_nodes; eassumption.
Qed.

End SelfLoop.

(** X10. A cluster with an edge to itself cannot be rendered inside another
    cluster. When a node marked as a subgraph is its own successor and is
    not yet visited, [render_subgraph] called on it, or on any node with an
    edge to it, never returns: whatever depth of recursion is allowed, the
    calls use it up. (At the top level [render_dot] marks a cluster
    visited before it renders it, so the loop only shows in a nested
    cluster.) *)
Theorem cluster_with_self_loop_never_renders
  (G : Graph) (root parent : string) (already_visited : list string)
  (depth : nat) :
  well_formed (g G) = true ->
  is_subgraph G root = true ->
  In root (DiGraph.successors (g G) root) ->
  DiGraph.has_node (g G) parent = true ->
  In root (DiGraph.successors (g G) parent) ->
  mem_str root already_visited = false ->
  render_subgraph depth G parent already_visited = Raise RecursionError.
Proof.
  intros Hwf Hsub Hloop Hparent Hedge Hv.
  destruct (render_subgraph_stuck G root Hwf Hsub Hloop depth parent
              already_visited Hparent Hv) as [H|(Hnot & _)].
  - exact H.
  - now elim Hnot.
Qed.

Lemma cluster_with_self_loop_never_renders_witness :
  render_subgraph 1000 (snd (from_lines looping_lines false)) "a" ["a"]
  = Raise RecursionError.
Proof.
  apply (cluster_with_self_loop_never_renders
           (snd (from_lines looping_lines false)) "b" "a" ["a"] 1000);
    [reflexivity | reflexivity | vm_compute; auto | reflexivity
    | vm_compute; auto | reflexivity].
Defined.

(** The lines [..subgraph: a: b], [..subgraph: b: x] and [b --> b] pass the
    check of the subgraph relations, and no depth is enough to render
    them. *)
Example self_loop_breaks_render_dot (depth : nat) :
  fst (from_lines looping_lines false) = Ok tt /\
  fst (render_dot depth (snd (from_lines looping_lines false)))
  = Raise RecursionError.
Proof.
  split; [reflexivity|].
  assert (Hstuck : render_subgraph depth (snd (from_lines looping_lines false))
                     "a" ["a"] = Raise RecursionError).
  { destruct (render_subgraph_stuck (snd (from_lines looping_lines false)) "b"
                eq_refl eq_refl (or_intror (or_introl eq_refl)) depth "a" ["a"]
                eq_refl eq_refl) as [H|(Hnot & _)]; [exact H|].
    exfalso. apply Hnot. vm_compute. auto. }
  rewrite render_dot_steps.
  change (forest_check
            (subgraph_relations (g (snd (from_lines looping_lines false)))))
    with (@Ok unit tt).
  rewrite resolve_styles_nil by reflexivity.
  replace (Algorithms.topological_sort
             (subgraph_relations (g (snd (from_lines looping_lines false)))))
    with (@Ok (list string) ["a"; "b"; "x"]) by (vm_compute; reflexivity).
  cbn [render_clusters]. change (mem_str "a" []) with false. cbv iota.
  change (append [] "a") with ["a"].
  replace (node_dict (snd (from_lines looping_lines false)) "a")
    with (Ok {| DiGraph.n_subgraph := true; DiGraph.n_label := None |})
    by (vm_compute; reflexivity).
  cbn [DiGraph.n_subgraph]. now rewrite Hstuck.
Qed.

(** *** How a style spec fails *)

Lemma prepend_loop_ok attrs nodes G :
  fst (for_each nodes (prepend_style attrs) G) = Ok tt.
Proof.
  destruct (prepend_loop attrs nodes G) as (G' & H & _). now rewrite H.
Qed.

Lemma node_spec_raises (search : DiGraph.t -> string -> result (list string))
  spec G e G' :
  (forall H n, search H n = Raise e ->
               DiGraph.has_node H n = false /\ e = NetworkXError n) ->
  (bind (groups (re_match_node_spec spec))
     (fun x => let '(node_id, attrs) := x in
               let attrs := Dict.get_default attrs attrs NODE_STYLES in
               bind (gets g) (fun H =>
               bind (call (search H node_id)) (fun nodes =>
               for_each nodes (prepend_style attrs))))) G = (Raise e, G') ->
  G' = G /\
  ((re_match_node_spec spec = None /\ e = AttributeError)
   \/ (exists n style,
          re_match_node_spec spec = Some (n, style) /\
          DiGraph.has_node (g G) n = false /\ e = NetworkXError n)).
Proof.
  intros Hsearch. destruct (re_match_node_spec spec) as [[n style]|].
  - unfold groups. unfold bind at 1. unfold ret at 1. cbv zeta.
    unfold bind at 1. unfold gets at 1.
    unfold bind. rewrite call_spec.
    destruct (search (g G) n) as [nodes|e0] eqn:Hs.
    + intros H. pose proof (prepend_loop_ok
                              (Dict.get_default style style NODE_STYLES) nodes G)
        as Hok.
      rewrite H in Hok. discriminate.
    + intros H. inversion H; subst. split; [reflexivity|]. right.
      destruct (Hsearch _ _ Hs) as [Hn ->]. now exists n, style.
  - intros H. inversion H; subst. split; [reflexivity|]. now left.
Qed.

(** X11. An ancestor or descendant style spec fails in two ways only, and
    a failure changes nothing: the spec does not have the form of the
    pattern, and the call [groups()] on no match raises [AttributeError];
    or the node it names is not in the graph, and networkx raises
    [NetworkXError]. Once the nodes are found, the prepending itself never
    fails. *)
Theorem node_style_spec_failure
  (G G' : Graph) (spec : string) (e : exn) :
  apply_ancestor_spec spec G = (Raise e, G')
  \/ apply_descendant_spec spec G = (Raise e, G') ->
  G' = G /\
  ((re_match_node_spec spec = None /\ e = AttributeError)
   \/ (exists n style,
          re_match_node_spec spec = Some (n, style) /\
          DiGraph.has_node (g G) n = false /\ e = NetworkXError n)).
Proof.
  intros [H|H].
  - apply (node_spec_raises Algorithms.ancestors spec G e G'); [|exact H].
    intros K n. unfold Algorithms.ancestors.
    destruct (DiGraph.has_node K n); [discriminate|].
    intros E. inversion E. now split.
  - apply (node_spec_raises Algorithms.descendants spec G e G'); [|exact H].
    intros K n. unfold Algorithms.descendants.
    destruct (DiGraph.has_node K n); [discriminate|].
    intros E. inversion E. now split.
Qed.

Lemma node_style_spec_failure_witness :
  chain_graph = chain_graph /\
  ((re_match_node_spec "z: pink" = None /\ NetworkXError "z" = AttributeError)
   \/ (exists n style,
          re_match_node_spec "z: pink" = Some (n, style) /\
          DiGraph.has_node (g chain_graph) n = false /\
          NetworkXError "z" = NetworkXError n)).
Proof.
  apply (node_style_spec_failure chain_graph chain_graph "z: pink"
           (NetworkXError "z")).
  left. reflexivity.
Defined.

(** X12. A path style spec fails in three ways only, and a failure changes
    nothing: the spec does not have the form of the pattern
    ([AttributeError]); its start is not a node of the graph
    ([NodeNotFound]); or no path leads from the start to the end, which is
    also the case when the end is no node ([NetworkXNoPath]). *)
Theorem path_style_spec_failure
  (G G' : Graph) (spec : string) (e : exn) :
  well_formed (g G) = true ->
  apply_path_spec spec G = (Raise e, G') ->
  G' = G /\
  ((re_match_path_spec spec = None /\ e = AttributeError)
   \/ (exists start end_ style,
          re_match_path_spec spec = Some (start, end_, style) /\
          ((DiGraph.has_node (g G) start = false /\ e = NodeNotFound start)
           \/ (DiGraph.has_node (g G) start = true /\ e = NetworkXNoPath /\
               forall q,
                 ~ path_of (DiGraph.successors (g G)) start q end_)))).
Proof.
  intros Hwf. unfold apply_path_spec.
  destruct (re_match_path_spec spec) as [[[start end_] style]|].
  - unfold groups. unfold bind at 1. unfold ret at 1. cbv zeta.
    unfold bind at 1. unfold gets at 1.
    unfold bind. rewrite call_spec.
    destruct (DiGraph.has_node (g G) start) eqn:Hs.
    + pose proof (all_shortest_paths_spec (g G) start end_ Hwf Hs) as Hspec.
      destruct (Algorithms.all_shortest_paths (g G) start end_) as [paths|e0].
      * intros H.
        pose proof (styled_paths (Dict.get_default style style NODE_STYLES)
                      paths G) as (G1 & Hok & _).
        rewrite Hok in H. discriminate.
      * destruct Hspec as [-> Hnone]. intros H. inversion H; subst.
        split; [reflexivity|]. right. exists start, end_, style.
        split; [reflexivity|]. right. now repeat split.
    + unfold Algorithms.all_shortest_paths, Algorithms.predecessor.
      rewrite Hs. intros H. inversion H; subst.
      split; [reflexivity|]. right. exists start, end_, style.
      split; [reflexivity|]. left. now split.
  - intros H. inversion H; subst. split; [reflexivity|]. now left.
Qed.

Lemma path_style_spec_failure_witness :
  chain_graph = chain_graph /\
  ((re_match_path_spec "c to a: green" = None /\ NetworkXNoPath = AttributeError)
   \/ (exists start end_ style,
          re_match_path_spec "c to a: green" = Some (start, end_, style) /\
          ((DiGraph.has_node (g chain_graph) start = false /\
            NetworkXNoPath = NodeNotFound start)
           \/ (DiGraph.has_node (g chain_graph) start = true /\
               NetworkXNoPath = NetworkXNoPath /\
               forall q,
                 ~ path_of (DiGraph.successors (g chain_graph)) start q end_)))).
Proof.
  apply (path_style_spec_failure chain_graph chain_graph "c to a: green"
           NetworkXNoPath); reflexivity.
Defined.

(** *** Graph attributes *)

Lemma join_two sep a b (more : list string) :
  more <> [] ->
  Text.join sep (a :: b :: more) = a ++ sep ++ b ++ sep ++ Text.join sep more.
Proof. destruct more; [intros H; now elim H|reflexivity]. Qed.

(** X13. An [attr] statement on the reserved node [graph] appends its data
    to the graph attributes and does nothing else: no node is made, no node
    attribute is set, and its comment and label are dropped. Every document
    rendered from then on opens with the line [digraph G {] followed by one
    line that holds all the graph attributes in their order, joined by
    [; ] and closed by a semicolon. *)
Theorem graph_attr_statement_heads_the_document
  (G : Graph) (s : statement) (data : string) :
  st_start s = None -> st_directive s = Some "attr" ->
  st_node s = Some "graph" -> st_data s = Some data ->
  include_statement s G
  = (Ok tt, set_graph_attrs (fun l => append l data) G) /\
  (forall depth text G',
      render_dot depth (set_graph_attrs (fun l => append l data) G)
      = (Ok text, G') ->
      exists rest,
        text = "digraph G {" ++ Text.nl
               ++ Text.join "; " (graph_attrs G ++ [data])%list ++ ";"
               ++ Text.nl ++ rest).
Proof.
  intros Hs Hd Hn Hdata. split.
  - unfold include_statement, _handle_node_statement.
    rewrite Hs, Hd, Hn, Hdata. reflexivity.
  - intros depth text G' Hrun. apply render_dot_lines in Hrun.
    destruct Hrun as (clusters & visited & ->).
    unfold opening_lines. cbn [graph_attrs set_graph_attrs]. unfold append.
    destruct (graph_attrs G ++ [data])%list as [|x l] eqn:Hl.
    + destruct (graph_attrs G); discriminate.
    + eexists. cbn [app]. rewrite join_two.
      * rewrite append_assoc. reflexivity.
      * destruct clusters; [|discriminate].
        destruct (edge_texts _); [|discriminate].
        destruct (node_texts _ _); discriminate.
Qed.

Lemma graph_attr_statement_heads_the_document_witness :
  include_statement graph_attr_statement_example
    (snd (from_lines ["..attr: graph: splines=ortho"; "a --> b"] false))
  = (Ok tt,
     set_graph_attrs (fun l => append l "rankdir=LR ")
       (snd (from_lines ["..attr: graph: splines=ortho"; "a --> b"] false))) /\
  (forall depth text G',
      render_dot depth
        (set_graph_attrs (fun l => append l "rankdir=LR ")
           (snd (from_lines ["..attr: graph: splines=ortho"; "a --> b"] false)))
      = (Ok text, G') ->
      exists rest,
        text = "digraph G {" ++ Text.nl
               ++ Text.join "; "
                    (graph_attrs
                       (snd (from_lines ["..attr: graph: splines=ortho";
                                         "a --> b"] false))
                     ++ ["rankdir=LR "])%list
               ++ ";" ++ Text.nl ++ rest).
Proof.
  apply (graph_attr_statement_heads_the_document
           (snd (from_lines ["..attr: graph: splines=ortho"; "a --> b"] false))
           graph_attr_statement_example "rankdir=LR "); reflexivity.
Defined.

(** *** The graph of the build pass *)

(** X14. Every graph the build pass makes, whether it ends or fails on the
    way, is a consistent [DiGraph]: its nodes are listed once, [_node] and
    [_succ] have the same keys, both ends of every edge are nodes, and no
    node has two edges to the same successor. *)
Theorem built_graph_is_consistent
  (lines : list string) (include_everything : bool) :
  let G := g (snd (from_lines lines include_everything)) in
  consistent G = true /\
  NoDup (DiGraph.nodes G) /\
  (forall n, DiGraph.has_node G n = Dict.mem n (DiGraph._succ G)) /\
  (forall u v, In v (DiGraph.successors G u) ->
               DiGraph.has_node G u = true /\ DiGraph.has_node G v = true) /\
  (forall u, NoDup (DiGraph.successors G u)).
Proof.
  cbv zeta.
  pose proof (from_lines_consistent_prop lines include_everything) as Hc.
  pose proof (proj2 (consistent_iff _) Hc) as Hb.
  destruct Hc as (Hwf & Hnd & Hstep).
  apply well_formed_iff in Hwf.
  split; [exact Hb|]. split; [exact Hnd|]. split; [exact Hstep|]. split.
  - intros u v Hin. split.
    + unfold DiGraph.has_node. rewrite Hstep. unfold DiGraph.successors in Hin.
      unfold Dict.get_default, Dict.mem in *.
      destruct (Dict.get u (DiGraph._succ _)); [reflexivity|destruct Hin].
    + eapply successors_are_nodes; eassumption.
  - intros u. now apply successors_nodup.
Qed.

(** *** Lines without subgraph statements *)

Lemma for_each_preserves_in {S A} (P : S -> Prop) (l : list A)
  (body : A -> M S unit) :
  (forall x s, In x l -> P s -> P (snd (body x s))) ->
  forall s, P s -> P (snd (for_each l body s)).
Proof.
  induction l as [|x r IH]; simpl; intros Hbody s Hs; [exact Hs|].
  unfold bind. pose proof (Hbody x s (or_introl eq_refl) Hs) as H1.
  destruct (body x s) as [[[]|e] s1]; simpl in H1; [|exact H1].
  apply IH; [|exact H1]. intros y s0 Hy. apply Hbody. now right.
Qed.

Lemma add_edge_plain u v attr G :
  consistent_prop G -> plain_graph G ->
  DiGraph.e_is_subgraph_relation attr = false ->
  plain_graph (DiGraph.add_edge u v attr G).
Proof.
  intros Hc [Hflag Hedge] Hattr. split.
  - intros u' v' d.
    destruct (string_dec u' u) as [->|Hu];
      [destruct (string_dec v' v) as [->|Hv]|].
    + rewrite get_edge_data_add_edge. intros H. inversion H; subst. simpl.
      rewrite Hattr. simpl.
      destruct (DiGraph.get_edge_data G u v) as [old|] eqn:Hold;
        [now apply (Hflag u v)|reflexivity].
    + rewrite get_edge_data_add_edge_other by congruence. apply Hflag.
    + rewrite get_edge_data_add_edge_other by congruence. apply Hflag.
  - intros n. rewrite (has_node_add_edge u v attr G n Hc).
    assert (Hold : forall a b d, DiGraph.get_edge_data G a b = Some d ->
              exists d', DiGraph.get_edge_data (DiGraph.add_edge u v attr G) a b
                         = Some d').
    { intros a b d H. destruct (add_edge_grows u v attr G Hc) as [_ He].
      destruct (He a b d H) as (d' & H' & _). now exists d'. }
    intros Hn. apply orb_true_iff in Hn. destruct Hn as [Hn|Hn].
    + apply orb_true_iff in Hn. destruct Hn as [Hn|Hn];
        apply String.eqb_eq in Hn; subst n.
      * left. exists v. eexists. apply get_edge_data_add_edge.
      * right. exists u. eexists. apply get_edge_data_add_edge.
    + destruct (Hedge n Hn) as [(b & d & H)|(a & d & H)].
      * left. exists b. eapply Hold. exact H.
      * right. exists a. eapply Hold. exact H.
Qed.

Lemma include_statement_plain s G :
  consistent_prop (g G) -> plain_graph (g G) ->
  st_directive s <> Some "subgraph" ->
  plain_graph (g (snd (include_statement s G))).
Proof.
  intros Hc Hp Hd.
  assert (Hedge : forall a b,
             st_start s = Some a -> st_end s = Some b ->
             st_directive s = None \/ st_directive s = Some "attr" ->
             plain_graph (g (snd (include_statement s G)))).
  { intros a b Ha Hb Hdir. rewrite (_handle_edge_statement_ok s G a b Ha Hb Hdir).
    cbv zeta. cbn [snd].
    destruct (Text.truthy (st_data s)); simpl; now apply add_edge_plain. }
  destruct (st_start s) as [a|] eqn:Ha.
  - destruct (st_directive s) as [d|] eqn:Hdir.
    + destruct (String.eqb_spec d "attr") as [->|Hne].
      * destruct (st_end s) as [b|] eqn:Hb; [now apply (Hedge a b); auto|].
        unfold include_statement, _handle_edge_statement.
        rewrite Ha, Hdir, Hb. exact Hp.
      * unfold include_statement, _handle_edge_statement. rewrite Ha, Hdir.
        apply String.eqb_neq in Hne. rewrite Hne. exact Hp.
    + destruct (st_end s) as [b|] eqn:Hb; [now apply (Hedge a b); auto|].
      unfold include_statement, _handle_edge_statement.
      rewrite Ha, Hdir, Hb. exact Hp.
  - unfold include_statement, _handle_node_statement. rewrite Ha.
    destruct (st_directive s) as [d|]; [|exact Hp].
    destruct (st_node s) as [n|] eqn:Hn; [|exact Hp].
    unfold getitem. unfold bind at 1. unfold ret at 1.
    unfold bind at 1. unfold ret at 1.
    destruct (String.eqb_spec d "subgraph") as [->|Hne]; [now elim Hd|].
    destruct (String.eqb d "attr"); [|exact Hp].
    destruct (st_data s) as [da|]; run_monad.
    + destruct (String.eqb n "graph"); simpl; [exact Hp|].
      destruct (Text.truthy (st_comment s)); exact Hp.
    + destruct (String.eqb n "graph"); exact Hp.
Qed.

Lemma from_lines_plain lines include_everything :
  no_subgraph_statement lines = true ->
  plain_graph (g (snd (from_lines lines include_everything))).
Proof.
  intros Hno. unfold no_subgraph_statement in Hno.
  rewrite forallb_forall in Hno.
  assert (H : consistent_prop (g (snd (from_lines lines include_everything)))
              /\ plain_graph (g (snd (from_lines lines include_everything)))).
  { unfold from_lines.
    apply (for_each_preserves_in
             (fun G => consistent_prop (g G) /\ plain_graph (g G))).
    - intros line G Hline [Hc Hp]. unfold include_line.
      pose proof (Hno line Hline) as Hstmts. rewrite forallb_forall in Hstmts.
      apply (for_each_preserves_in
               (fun G => consistent_prop (g G) /\ plain_graph (g G)));
        [|now split].
      intros st G1 Hst [Hc1 Hp1]. split.
      + now apply include_statement_consistent.
      + apply include_statement_plain; [exact Hc1|exact Hp1|].
        specialize (Hstmts st Hst). intros E. rewrite E in Hstmts. discriminate.
    - split; [apply consistent_iff; reflexivity|].
      split; [discriminate|]. intros n Hn. discriminate. }
  exact (proj2 H).
Qed.

Lemma edges_lookup G u v d :
  wf_prop G -> In (u, v, d) (DiGraph.edges G) ->
  DiGraph.get_edge_data G u v = Some d.
Proof.
  intros [Hnd Hall] Hin. unfold DiGraph.edges in Hin.
  apply in_flat_map in Hin. destruct Hin as ([u' nbrs] & Hentry & Hin).
  apply in_map_iff in Hin. destruct Hin as ([v' d'] & Heq & Hin).
  inversion Heq; subst. unfold DiGraph.get_edge_data.
  rewrite (In_get_nodup _ _ _ Hnd Hentry).
  destruct (Hall u nbrs Hentry) as (_ & Hnb & _).
  now apply In_get_nodup.
Qed.


Lemma subgraph_relations_none es :
  (forall u v d, In (u, v, d) es -> DiGraph.e_is_subgraph_relation d = false) ->
  forall sg,
    fold_left
      (fun sg '(a, b, edge_data) =>
         if DiGraph.e_is_subgraph_relation edge_data
         then DiGraph.add_edge a b DiGraph.no_edge_data sg
         else sg) es sg = sg.
Proof.
  induction es as [|[[a b] d] es IH]; intros Hflags sg; simpl; [reflexivity|].
  rewrite (Hflags a b d (or_introl eq_refl)). apply IH.
  intros u v d' Hin. apply (Hflags u v d'). now right.
Qed.

Lemma drawn_edges_all es :
  (forall u v d, In (u, v, d) es -> DiGraph.e_is_subgraph_relation d = false) ->
  drawn_edges es = es.
Proof.
  induction es as [|[[a b] d] es IH]; intros Hflags; simpl; [reflexivity|].
  rewrite (Hflags a b d (or_introl eq_refl)). simpl. f_equal. apply IH.
  intros u v d' Hin. apply (Hflags u v d'). now right.
Qed.

Lemma should_include_plain G n :
  plain_graph (g G) -> DiGraph.has_node (g G) n = true ->
  should_include_node G n = true.
Proof.
  intros [Hflag Hedge] Hn. unfold should_include_node.
  destruct (Hedge n Hn) as [(v & d & H)|(u & d & H)].
  - assert (Hout : (0 <? DiGraph.out_degree (g G) n)%nat = true).
    { unfold DiGraph.out_degree, DiGraph.successors, Dict.get_default.
      unfold DiGraph.get_edge_data in H.
      destruct (Dict.get n (DiGraph._succ (g G))) as [nbrs|]; [|discriminate].
      destruct nbrs; [discriminate|reflexivity]. }
    rewrite Hout. now rewrite orb_true_r.
  - assert (Hin : existsb (fun d => negb (DiGraph.e_is_subgraph_relation d))
                    (DiGraph.in_edges_data (g G) n) = true).
    { apply existsb_exists. exists d. split.
      - unfold DiGraph.in_edges_data, DiGraph.get_edge_data in *.
        destruct (Dict.get u (DiGraph._succ (g G))) as [nbrs|] eqn:Hu;
          [|discriminate].
        apply in_flat_map. exists (u, nbrs). split; [now apply get_In|].
        rewrite H. now left.
      - now rewrite (Hflag u n d H). }
    rewrite Hin. now rewrite orb_true_r.
Qed.

Lemma filter_all {A} (f : A -> bool) l :
  (forall x, In x l -> f x = true) -> filter f l = l.
Proof.
  induction l as [|x l IH]; intros H; simpl; [reflexivity|].
  rewrite (H x (or_introl eq_refl)). f_equal. apply IH.
  intros y Hy. apply H. now right.
Qed.

(** X15. Lines without subgraph statements always render, at any depth of
    recursion, and the document draws everything once: after the opening
    lines come one line for every edge of the graph, in the order of the
    edges, and one line for every node, in the order of the nodes, and
    then the closing brace. This holds for the graph the lines leave also
    when the build pass has failed on one of them. *)
Theorem plain_lines_render
  (lines : list string) (include_everything : bool) (depth : nat) :
  no_subgraph_statement lines = true ->
  let G := snd (from_lines lines include_everything) in
  fst (render_dot depth G)
  = Ok (Text.join Text.nl
          (opening_lines G
           ++ map (fun '(a, b, d) =>
                     edge_line a b d (edge_attrs_lookup a b (edge_attrs G)))
                (DiGraph.edges (g G))
           ++ map (render_node G) (DiGraph.nodes (g G))
           ++ ["}"])%list).
Proof.
  intros Hno. cbv zeta.
  set (G := snd (from_lines lines include_everything)).
  pose proof (from_lines_plain lines include_everything Hno) as Hp.
  pose proof (from_lines_consistent_prop lines include_everything) as Hc.
  destruct (from_lines_no_style_specs lines include_everything)
    as (Ha & Hd & Hpa).
  fold G in Hp, Hc, Ha, Hd, Hpa.
  assert (Hflags : forall u v d, In (u, v, d) (DiGraph.edges (g G)) ->
                     DiGraph.e_is_subgraph_relation d = false).
  { intros u v d Hin. destruct Hp as [Hflag _]. apply (Hflag u v).
    apply edges_lookup; [exact (proj1 Hc)|exact Hin]. }
  rewrite (render_dot_without_style_specs depth G Ha Hd Hpa). cbn [fst].
  unfold document, subgraph_relations.
  rewrite (subgraph_relations_none _ Hflags).
  change (forest_check DiGraph.empty) with (@Ok unit tt).
  change (Algorithms.topological_sort DiGraph.empty) with (@Ok (list string) []).
  cbn [render_clusters].
  rewrite render_remaining_nodes_texts, edge_lines_texts.
  rewrite (drawn_edges_all _ Hflags).
  unfold node_texts. rewrite filter_all.
  - unfold append. now rewrite <- !app_assoc.
  - intros n Hn. simpl. apply should_include_plain; [exact Hp|].
    unfold DiGraph.has_node. now apply mem_In_keys.
Qed.

Lemma plain_lines_render_witness :
  fst (render_dot 0 (snd (from_lines plain_example false)))
  = Ok (Text.join Text.nl
          (opening_lines (snd (from_lines plain_example false))
           ++ map (fun '(a, b, d) =>
                     edge_line a b d
                       (edge_attrs_lookup a b
                          (edge_attrs (snd (from_lines plain_example false)))))
                (DiGraph.edges (g (snd (from_lines plain_example false))))
           ++ map (render_node (snd (from_lines plain_example false)))
                (DiGraph.nodes (g (snd (from_lines plain_example false))))
           ++ ["}"])%list).
Proof.
  apply (plain_lines_render plain_example false 0).
  vm_compute. reflexivity.
Defined.

(** *** [from_string] and [from_lines] *)

Lemma split_one_line s :
  one_line s = true -> Text.split Text.newline s = [s].
Proof.
  unfold one_line. induction s as [|c s IH]; simpl; [reflexivity|].
  intros H. apply andb_true_iff in H. destruct H as [Hc Hs].
  unfold not_newline in Hc. apply negb_true_iff in Hc. rewrite Hc.
  now rewrite (IH Hs).
Qed.

Lemma split_line_break s r :
  one_line s = true ->
  Text.split Text.newline (s ++ String Text.newline r)
  = s :: Text.split Text.newline r.
Proof.
  unfold one_line. induction s as [|c s IH]; intros H.
  - cbn [String.append Text.split]. now rewrite Ascii.eqb_refl.
  - cbn [all_chars] in H. apply andb_true_iff in H. destruct H as [Hc Hs].
    unfold not_newline in Hc. apply negb_true_iff in Hc.
    cbn [String.append Text.split]. rewrite Hc. now rewrite (IH Hs).
Qed.

Lemma split_join_lines x lines :
  forallb one_line (x :: lines) = true ->
  Text.split Text.newline (Text.join Text.nl (x :: lines)) = x :: lines.
Proof.
  revert x. induction lines as [|y lines IH]; intros x H.
  - simpl in H. rewrite andb_true_r in H. now apply split_one_line.
  - cbn [forallb] in H. apply andb_true_iff in H. destruct H as [Hx Hrest].
    change (Text.join Text.nl (x :: y :: lines))
      with (x ++ String Text.newline (Text.join Text.nl (y :: lines))).
    rewrite (split_line_break _ _ Hx). f_equal. now apply IH.
Qed.

(** X16. [from_string] undoes the joining of lines: for lines that hold no
    line feed, the text made of them with a line feed in between builds
    the same graph, with the same outcome, as [from_lines] builds from the
    lines. *)
Theorem from_string_of_joined_lines
  (lines : list string) (include_everything : bool) :
  forallb one_line lines = true ->
  from_string (Text.join Text.nl lines) include_everything
  = from_lines lines include_everything.
Proof.
  intros H. unfold from_string. destruct lines as [|x lines].
  - reflexivity.
  - now rewrite split_join_lines.
Qed.

Lemma from_string_of_joined_lines_witness :
  from_string (Text.join Text.nl test_lines) false = from_lines test_lines false.
Proof.
  apply (from_string_of_joined_lines test_lines false). reflexivity.
Defined.

(** *** Which nodes are drawn *)

(** X17. On a well-formed graph [should_include_node] admits a node exactly
    when [include_everything] is set, or the node has an outgoing edge of
    any kind, a subgraph relation included, or it has an incoming edge that
    is not a subgraph relation. So a member of a cluster that no ordinary
    edge touches is not drawn. *)
Theorem should_include_node_iff (G : Graph) (n : string) :
  well_formed (g G) = true ->
  should_include_node G n = true
  <-> (include_everything G = true
       \/ (exists v d, DiGraph.get_edge_data (g G) n v = Some d)
       \/ (exists u d, DiGraph.get_edge_data (g G) u n = Some d /\
                       DiGraph.e_is_subgraph_relation d = false)).
Proof.
  intros Hwf. apply well_formed_iff in Hwf. destruct Hwf as [Hnd Hall].
  unfold should_include_node. rewrite !orb_true_iff. split.
  - intros [[Hall_in|Hout]|Hin].
    + now left.
    + right. left.
      unfold DiGraph.out_degree, DiGraph.successors, Dict.get_default in Hout.
      unfold DiGraph.get_edge_data.
      destruct (Dict.get n (DiGraph._succ (g G))) as [nbrs|]; [|discriminate].
      destruct nbrs as [|[v d] nbrs]; [discriminate|].
      exists v, d. simpl. now rewrite String.eqb_refl.
    + right. right. apply existsb_exists in Hin. destruct Hin as (d & Hd & Hflag).
      unfold DiGraph.in_edges_data in Hd. apply in_flat_map in Hd.
      destruct Hd as ([u nbrs] & Hentry & Hd).
      destruct (Dict.get n nbrs) as [d'|] eqn:Hget; [|destruct Hd].
      destruct Hd as [->|[]]. exists u, d. split.
      * unfold DiGraph.get_edge_data.
        now rewrite (In_get_nodup _ _ _ Hnd Hentry).
      * now apply negb_true_iff in Hflag.
  - intros [Hevery|[(v & d & H)|(u & d & H & Hflag)]].
    + now left; left.
    + left. right.
      unfold DiGraph.out_degree, DiGraph.successors, Dict.get_default.
      unfold DiGraph.get_edge_data in H.
      destruct (Dict.get n (DiGraph._succ (g G))) as [nbrs|]; [|discriminate].
      destruct nbrs; [discriminate|reflexivity].
    + right. apply existsb_exists. exists d. split.
      * unfold DiGraph.in_edges_data, DiGraph.get_edge_data in *.
        destruct (Dict.get u (DiGraph._succ (g G))) as [nbrs|] eqn:Hu;
          [|discriminate].
        apply in_flat_map. exists (u, nbrs). split; [now apply get_In|].
        rewrite H. now left.
      * now rewrite Hflag.
Qed.

Lemma should_include_node_iff_witness :
  (should_include_node lone_member_graph "x" = true
   <-> (include_everything lone_member_graph = true
        \/ (exists v d,
               DiGraph.get_edge_data (g lone_member_graph) "x" v = Some d)
        \/ (exists u d,
               DiGraph.get_edge_data (g lone_member_graph) u "x" = Some d /\
               DiGraph.e_is_subgraph_relation d = false))) /\
  should_include_node lone_member_graph "x" = false /\
  should_include_node lone_member_graph "s" = true.
Proof.
  split; [|split; reflexivity].
  apply (should_include_node_iff lone_member_graph "x"). reflexivity.
Defined.

(** *** What the clusters take *)














Section ClustersTake.

Variable G : Graph.






End ClustersTake.




(** *** A directive written out reads back *)

Lemma header_reads d r :
  In d directive_words ->
  Grammar.header (".." ++ d ++ ":" ++ r) = Some (Grammar.set_directive d, r).
Proof.
  intros H. repeat (destruct H as [<-|H]; [reflexivity|]). destruct H.
Qed.

Lemma skip_to_none target s :
  occurs target s = false -> skip_to target s = None.
Proof.
  induction s as [|c s IH]; simpl.
  - now destruct (match_prefix target "").
  - destruct (match_prefix target (String c s)); [discriminate|].
    intros H. now rewrite (IH H).
Qed.

Lemma node_entity_reads n k r :
  is_identifier n = true ->
  Grammar.entityDetails (spaces k ++ n ++ ":" ++ r)
  = Some (Grammar.set_node n, ":" ++ r).
Proof.
  intros Hn.
  assert (Hentity : Grammar.entity (spaces k ++ n ++ ":" ++ r)
                    = Some (Grammar.set_node n, ":" ++ r)).
  { unfold Grammar.entity, MatchFirst, Grammar.edge, And.
    rewrite (Identifier_reads Grammar.set_start n (":" ++ r) Hn eq_refl k).
    change (Suppress (Literal "-->") (":" ++ r)) with (@None (ParseResults * string)).
    cbv iota beta.
    apply (Identifier_reads Grammar.set_node n (":" ++ r) Hn eq_refl k). }
  unfold Grammar.entityDetails, Grammar.labelledEntity, MatchFirst, And.
  rewrite Hentity.
  change (Suppress (Literal ",") (":" ++ r)) with (@None (ParseResults * string)).
  reflexivity.
Qed.

Lemma plain_data_reads data j :
  plain_data data = true ->
  Grammar.data (spaces j ++ data) = Some (Grammar.set_data data, "").
Proof.
  unfold plain_data, plain_comment. intros H.
  apply andb_true_iff in H. destruct H as [H Hocc].
  apply andb_true_iff in H. destruct H as [H Hblack].
  apply andb_true_iff in H. destruct H as [Hline _].
  apply negb_true_iff in Hocc.
  assert (Hpre : preParse (spaces j ++ data) = data).
  { rewrite preParse_spaces. destruct data as [|c r]; [reflexivity|].
    apply negb_true_iff in Hblack. now apply preParse_black. }
  unfold Grammar.data, MatchFirst, And, named, SkipTo, Regex_dot_star.
  rewrite Hpre, (skip_to_none _ _ Hocc).
  change (fun c => negb (Ascii.eqb c Text.newline)) with not_newline.
  now rewrite (span_all_rest _ _ Hline).
Qed.

Lemma node_directive_text_no_tab d n data k j :
  In d directive_words -> is_identifier n = true -> plain_data data = true ->
  all_chars not_tab (node_directive_text d n data k j) = true.
Proof.
  intros Hd Hn Hdata. unfold node_directive_text.
  rewrite !all_chars_app, (identifier_no_tab n Hn), !all_chars_spaces
    by reflexivity.
  unfold plain_data, plain_comment in Hdata.
  apply andb_true_iff in Hdata. destruct Hdata as [H _].
  apply andb_true_iff in H. destruct H as [H _].
  apply andb_true_iff in H. destruct H as [_ ->].
  repeat (destruct Hd as [<-|Hd]; [reflexivity|]). destruct Hd.
Qed.

(** X18. A directive on a node written as a line reads back as it was
    written: for a directive word, an identifier word and data that is
    plain and holds no [::], the line [..directive: node: data], with any
    number of spaces behind the two colons, scans to the one statement with
    that directive, node and data, and without label or comment. *)
Theorem node_directive_line_reads_back (d n data : string) (k j : nat) :
  In d directive_words -> is_identifier n = true -> plain_data data = true ->
  search_for_statements (node_directive_text d n data k j)
  = [node_directive d n data].
Proof.
  intros Hd Hn Hdata.
  unfold search_for_statements, searchString, expandtabs.
  rewrite (expandtabs_no_tab _ (node_directive_text_no_tab d n data k j
                                  Hd Hn Hdata)).
  apply scanString_single; [reflexivity|discriminate| |reflexivity].
  unfold node_directive_text, Grammar.parser, MatchFirst, Grammar.directive, And.
  rewrite (header_reads d _ Hd), (node_entity_reads n k _ Hn).
  change (Suppress (Literal ":") (":" ++ spaces j ++ data))
    with (Some (no_statement, spaces j ++ data)).
  cbv iota beta. now rewrite (plain_data_reads data j Hdata).
Qed.

Lemma node_directive_line_reads_back_witness :
  search_for_statements
    (node_directive_text "subgraph" "grouping" "child1, child2" 1 1)
  = [node_directive "subgraph" "grouping" "child1, child2"].
Proof.
  apply (node_directive_line_reads_back "subgraph" "grouping" "child1, child2"
           1 1); [left | | ]; reflexivity.
Defined.
